(** * Circle Survival: a shallow embedding of the simulation core of script.js

    The game keeps its state in module-level variables and mutates circle
    objects in place.  Here the variables become the fields of one record
    [Game] that every operation takes and returns, and the array [circles]
    becomes a list that is read and written by index, so that in-place
    mutation, removal during iteration and object identity are visible.

    JavaScript numbers are modelled as exact rationals [Q]; rounding of
    IEEE doubles is outside the model.  [Math.random], [Math.cos],
    [Math.sin] and [Math.PI] belong to the host and are parameters.  The
    timeouts and frame requests that the host holds are part of the state,
    those whose ids the script has overwritten included: they fire like
    the others. *)

From Stdlib Require Import QArith Qminmax Qabs Qpower Qround ZArith List Bool
  Lia Lqa.
Import ListNotations.
Local Open Scope Q_scope.

(** ** Numbers *)

(** [a < b] on numbers, as a boolean. *)
Definition Qlt_bool (a b : Q) : bool := negb (Qle_bool b a).

(** ** Data model *)

(** The [type] tag of a circle object. *)
Inductive circle_type : Set := normal | armored | drifter | splitter | fuse.

Definition circle_type_eqb (a b : circle_type) : bool :=
  match a, b with
  | normal, normal | armored, armored | drifter, drifter
  | splitter, splitter | fuse, fuse => true
  | _, _ => false
  end.

(** Which click listener a circle's DOM element carries: the one installed
    by [spawnCircle] or the one installed by [spawnSplitterChildren]. *)
Inductive listener : Set := circleListener | childListener.

(** A DOM element: its identity and its click listener.  Two circle objects
    are the same object exactly when their elements are the same node. *)
Record elem : Set := { node : nat; onclick : listener }.

Record Circle : Set := {
  element : elem;
  x : Q;
  y : Q;
  radius : Q;
  growth : Q;
  clicks : Z;
  driftX : Q;
  driftY : Q;
  type : circle_type;
  fuseTimeLeft : option Q
}.

(** [gameArea.getBoundingClientRect()], read afresh at every use. *)
Record Rect : Set := { width : Q; height : Q }.

(** The module-level variables, followed by what the host keeps.

    The host holds every timeout armed by [setTimeout] and every frame
    requested by [requestAnimationFrame] until it fires or is cleared by
    its id, and the script holds one id of each kind.  [spawnTimeoutId]
    stands for the pending timeout whose id the variable holds, given by
    its delay ([None] once that timeout has fired or was cleared), and
    [animationFrameId] tells whether the frame request whose id the
    variable holds is pending.  A timeout or a request that is still
    pending when its variable is assigned a new id stays with the host,
    out of the script's reach: [lostTimeouts] holds the delays of these
    timeouts and [lostFrames] counts these requests.  [elements] counts
    the nodes made by [document.createElement] and [randomCalls] the calls
    of [Math.random]. *)
Record Game : Set := {
  circles : list Circle;
  spawnTimeoutId : option Q;
  animationFrameId : bool;
  gameRunning : bool;
  paused : bool;
  currentLevel : Z;
  timeLeft : Q;
  baseSpawnInterval : Q;
  spawnInterval : Q;
  spawnAcceleration : Q;
  lastUpdateTime : Q;
  score : Z;
  warpActive : bool;
  nextWarpAt : Q;
  warpEndAt : Q;
  resumeAfterHelp : bool;
  elements : nat;
  randomCalls : nat;
  lostTimeouts : list Q;
  lostFrames : nat
}.

(** [timeWarpConfig] *)
Module timeWarpConfig.
Definition interval : Q := 8.
Definition duration : Q := 3.
Definition factor : Q := 0.5.
End timeWarpConfig.

Definition BASE_SPAWN_INTERVAL : Q := 2000.
Definition MIN_SPAWN_INTERVAL : Q := 300.

(** The variables as initialised when the script is loaded. *)
Definition initial : Game := {|
  circles := [];
  spawnTimeoutId := None;
  animationFrameId := false;
  gameRunning := false;
  paused := false;
  currentLevel := 1;
  timeLeft := 30;
  baseSpawnInterval := 2000;
  spawnInterval := 2000;
  spawnAcceleration := 0.9;
  lastUpdateTime := 0;
  score := 0;
  warpActive := false;
  nextWarpAt := timeWarpConfig.interval;
  warpEndAt := 0;
  resumeAfterHelp := false;
  elements := 0;
  randomCalls := 0;
  lostTimeouts := [];
  lostFrames := 0
|}.

(** *** Assignments to single fields *)

Definition set_radius (r : Q) (c : Circle) : Circle :=
  {| element := element c; x := x c; y := y c; radius := r;
     growth := growth c; clicks := clicks c; driftX := driftX c;
     driftY := driftY c; type := type c; fuseTimeLeft := fuseTimeLeft c |}.

Definition set_x (v : Q) (c : Circle) : Circle :=
  {| element := element c; x := v; y := y c; radius := radius c;
     growth := growth c; clicks := clicks c; driftX := driftX c;
     driftY := driftY c; type := type c; fuseTimeLeft := fuseTimeLeft c |}.

Definition set_y (v : Q) (c : Circle) : Circle :=
  {| element := element c; x := x c; y := v; radius := radius c;
     growth := growth c; clicks := clicks c; driftX := driftX c;
     driftY := driftY c; type := type c; fuseTimeLeft := fuseTimeLeft c |}.

Definition set_clicks (v : Z) (c : Circle) : Circle :=
  {| element := element c; x := x c; y := y c; radius := radius c;
     growth := growth c; clicks := v; driftX := driftX c;
     driftY := driftY c; type := type c; fuseTimeLeft := fuseTimeLeft c |}.

Definition set_driftX (v : Q) (c : Circle) : Circle :=
  {| element := element c; x := x c; y := y c; radius := radius c;
     growth := growth c; clicks := clicks c; driftX := v;
     driftY := driftY c; type := type c; fuseTimeLeft := fuseTimeLeft c |}.

Definition set_driftY (v : Q) (c : Circle) : Circle :=
  {| element := element c; x := x c; y := y c; radius := radius c;
     growth := growth c; clicks := clicks c; driftX := driftX c;
     driftY := v; type := type c; fuseTimeLeft := fuseTimeLeft c |}.

Definition set_type (v : circle_type) (c : Circle) : Circle :=
  {| element := element c; x := x c; y := y c; radius := radius c;
     growth := growth c; clicks := clicks c; driftX := driftX c;
     driftY := driftY c; type := v; fuseTimeLeft := fuseTimeLeft c |}.

Definition set_fuseTimeLeft (v : option Q) (c : Circle) : Circle :=
  {| element := element c; x := x c; y := y c; radius := radius c;
     growth := growth c; clicks := clicks c; driftX := driftX c;
     driftY := driftY c; type := type c; fuseTimeLeft := v |}.

Definition set_circles (v : list Circle) (g : Game) : Game :=
  {| circles := v; spawnTimeoutId := spawnTimeoutId g;
     animationFrameId := animationFrameId g; gameRunning := gameRunning g;
     paused := paused g; currentLevel := currentLevel g; timeLeft := timeLeft g;
     baseSpawnInterval := baseSpawnInterval g; spawnInterval := spawnInterval g;
     spawnAcceleration := spawnAcceleration g; lastUpdateTime := lastUpdateTime g;
     score := score g; warpActive := warpActive g; nextWarpAt := nextWarpAt g;
     warpEndAt := warpEndAt g; resumeAfterHelp := resumeAfterHelp g;
     elements := elements g; randomCalls := randomCalls g;
     lostTimeouts := lostTimeouts g; lostFrames := lostFrames g |}.

Definition set_spawnTimeoutId (v : option Q) (g : Game) : Game :=
  {| circles := circles g; spawnTimeoutId := v;
     animationFrameId := animationFrameId g; gameRunning := gameRunning g;
     paused := paused g; currentLevel := currentLevel g; timeLeft := timeLeft g;
     baseSpawnInterval := baseSpawnInterval g; spawnInterval := spawnInterval g;
     spawnAcceleration := spawnAcceleration g; lastUpdateTime := lastUpdateTime g;
     score := score g; warpActive := warpActive g; nextWarpAt := nextWarpAt g;
     warpEndAt := warpEndAt g; resumeAfterHelp := resumeAfterHelp g;
     elements := elements g; randomCalls := randomCalls g;
     lostTimeouts := lostTimeouts g; lostFrames := lostFrames g |}.

Definition set_animationFrameId (v : bool) (g : Game) : Game :=
  {| circles := circles g; spawnTimeoutId := spawnTimeoutId g;
     animationFrameId := v; gameRunning := gameRunning g;
     paused := paused g; currentLevel := currentLevel g; timeLeft := timeLeft g;
     baseSpawnInterval := baseSpawnInterval g; spawnInterval := spawnInterval g;
     spawnAcceleration := spawnAcceleration g; lastUpdateTime := lastUpdateTime g;
     score := score g; warpActive := warpActive g; nextWarpAt := nextWarpAt g;
     warpEndAt := warpEndAt g; resumeAfterHelp := resumeAfterHelp g;
     elements := elements g; randomCalls := randomCalls g;
     lostTimeouts := lostTimeouts g; lostFrames := lostFrames g |}.

Definition set_gameRunning (v : bool) (g : Game) : Game :=
  {| circles := circles g; spawnTimeoutId := spawnTimeoutId g;
     animationFrameId := animationFrameId g; gameRunning := v;
     paused := paused g; currentLevel := currentLevel g; timeLeft := timeLeft g;
     baseSpawnInterval := baseSpawnInterval g; spawnInterval := spawnInterval g;
     spawnAcceleration := spawnAcceleration g; lastUpdateTime := lastUpdateTime g;
     score := score g; warpActive := warpActive g; nextWarpAt := nextWarpAt g;
     warpEndAt := warpEndAt g; resumeAfterHelp := resumeAfterHelp g;
     elements := elements g; randomCalls := randomCalls g;
     lostTimeouts := lostTimeouts g; lostFrames := lostFrames g |}.

Definition set_paused (v : bool) (g : Game) : Game :=
  {| circles := circles g; spawnTimeoutId := spawnTimeoutId g;
     animationFrameId := animationFrameId g; gameRunning := gameRunning g;
     paused := v; currentLevel := currentLevel g; timeLeft := timeLeft g;
     baseSpawnInterval := baseSpawnInterval g; spawnInterval := spawnInterval g;
     spawnAcceleration := spawnAcceleration g; lastUpdateTime := lastUpdateTime g;
     score := score g; warpActive := warpActive g; nextWarpAt := nextWarpAt g;
     warpEndAt := warpEndAt g; resumeAfterHelp := resumeAfterHelp g;
     elements := elements g; randomCalls := randomCalls g;
     lostTimeouts := lostTimeouts g; lostFrames := lostFrames g |}.

Definition set_currentLevel (v : Z) (g : Game) : Game :=
  {| circles := circles g; spawnTimeoutId := spawnTimeoutId g;
     animationFrameId := animationFrameId g; gameRunning := gameRunning g;
     paused := paused g; currentLevel := v; timeLeft := timeLeft g;
     baseSpawnInterval := baseSpawnInterval g; spawnInterval := spawnInterval g;
     spawnAcceleration := spawnAcceleration g; lastUpdateTime := lastUpdateTime g;
     score := score g; warpActive := warpActive g; nextWarpAt := nextWarpAt g;
     warpEndAt := warpEndAt g; resumeAfterHelp := resumeAfterHelp g;
     elements := elements g; randomCalls := randomCalls g;
     lostTimeouts := lostTimeouts g; lostFrames := lostFrames g |}.

Definition set_timeLeft (v : Q) (g : Game) : Game :=
  {| circles := circles g; spawnTimeoutId := spawnTimeoutId g;
     animationFrameId := animationFrameId g; gameRunning := gameRunning g;
     paused := paused g; currentLevel := currentLevel g; timeLeft := v;
     baseSpawnInterval := baseSpawnInterval g; spawnInterval := spawnInterval g;
     spawnAcceleration := spawnAcceleration g; lastUpdateTime := lastUpdateTime g;
     score := score g; warpActive := warpActive g; nextWarpAt := nextWarpAt g;
     warpEndAt := warpEndAt g; resumeAfterHelp := resumeAfterHelp g;
     elements := elements g; randomCalls := randomCalls g;
     lostTimeouts := lostTimeouts g; lostFrames := lostFrames g |}.

Definition set_baseSpawnInterval (v : Q) (g : Game) : Game :=
  {| circles := circles g; spawnTimeoutId := spawnTimeoutId g;
     animationFrameId := animationFrameId g; gameRunning := gameRunning g;
     paused := paused g; currentLevel := currentLevel g; timeLeft := timeLeft g;
     baseSpawnInterval := v; spawnInterval := spawnInterval g;
     spawnAcceleration := spawnAcceleration g; lastUpdateTime := lastUpdateTime g;
     score := score g; warpActive := warpActive g; nextWarpAt := nextWarpAt g;
     warpEndAt := warpEndAt g; resumeAfterHelp := resumeAfterHelp g;
     elements := elements g; randomCalls := randomCalls g;
     lostTimeouts := lostTimeouts g; lostFrames := lostFrames g |}.

Definition set_spawnInterval (v : Q) (g : Game) : Game :=
  {| circles := circles g; spawnTimeoutId := spawnTimeoutId g;
     animationFrameId := animationFrameId g; gameRunning := gameRunning g;
     paused := paused g; currentLevel := currentLevel g; timeLeft := timeLeft g;
     baseSpawnInterval := baseSpawnInterval g; spawnInterval := v;
     spawnAcceleration := spawnAcceleration g; lastUpdateTime := lastUpdateTime g;
     score := score g; warpActive := warpActive g; nextWarpAt := nextWarpAt g;
     warpEndAt := warpEndAt g; resumeAfterHelp := resumeAfterHelp g;
     elements := elements g; randomCalls := randomCalls g;
     lostTimeouts := lostTimeouts g; lostFrames := lostFrames g |}.

Definition set_spawnAcceleration (v : Q) (g : Game) : Game :=
  {| circles := circles g; spawnTimeoutId := spawnTimeoutId g;
     animationFrameId := animationFrameId g; gameRunning := gameRunning g;
     paused := paused g; currentLevel := currentLevel g; timeLeft := timeLeft g;
     baseSpawnInterval := baseSpawnInterval g; spawnInterval := spawnInterval g;
     spawnAcceleration := v; lastUpdateTime := lastUpdateTime g;
     score := score g; warpActive := warpActive g; nextWarpAt := nextWarpAt g;
     warpEndAt := warpEndAt g; resumeAfterHelp := resumeAfterHelp g;
     elements := elements g; randomCalls := randomCalls g;
     lostTimeouts := lostTimeouts g; lostFrames := lostFrames g |}.

Definition set_lastUpdateTime (v : Q) (g : Game) : Game :=
  {| circles := circles g; spawnTimeoutId := spawnTimeoutId g;
     animationFrameId := animationFrameId g; gameRunning := gameRunning g;
     paused := paused g; currentLevel := currentLevel g; timeLeft := timeLeft g;
     baseSpawnInterval := baseSpawnInterval g; spawnInterval := spawnInterval g;
     spawnAcceleration := spawnAcceleration g; lastUpdateTime := v;
     score := score g; warpActive := warpActive g; nextWarpAt := nextWarpAt g;
     warpEndAt := warpEndAt g; resumeAfterHelp := resumeAfterHelp g;
     elements := elements g; randomCalls := randomCalls g;
     lostTimeouts := lostTimeouts g; lostFrames := lostFrames g |}.

Definition set_score (v : Z) (g : Game) : Game :=
  {| circles := circles g; spawnTimeoutId := spawnTimeoutId g;
     animationFrameId := animationFrameId g; gameRunning := gameRunning g;
     paused := paused g; currentLevel := currentLevel g; timeLeft := timeLeft g;
     baseSpawnInterval := baseSpawnInterval g; spawnInterval := spawnInterval g;
     spawnAcceleration := spawnAcceleration g; lastUpdateTime := lastUpdateTime g;
     score := v; warpActive := warpActive g; nextWarpAt := nextWarpAt g;
     warpEndAt := warpEndAt g; resumeAfterHelp := resumeAfterHelp g;
     elements := elements g; randomCalls := randomCalls g;
     lostTimeouts := lostTimeouts g; lostFrames := lostFrames g |}.

Definition set_warpActive (v : bool) (g : Game) : Game :=
  {| circles := circles g; spawnTimeoutId := spawnTimeoutId g;
     animationFrameId := animationFrameId g; gameRunning := gameRunning g;
     paused := paused g; currentLevel := currentLevel g; timeLeft := timeLeft g;
     baseSpawnInterval := baseSpawnInterval g; spawnInterval := spawnInterval g;
     spawnAcceleration := spawnAcceleration g; lastUpdateTime := lastUpdateTime g;
     score := score g; warpActive := v; nextWarpAt := nextWarpAt g;
     warpEndAt := warpEndAt g; resumeAfterHelp := resumeAfterHelp g;
     elements := elements g; randomCalls := randomCalls g;
     lostTimeouts := lostTimeouts g; lostFrames := lostFrames g |}.

Definition set_nextWarpAt (v : Q) (g : Game) : Game :=
  {| circles := circles g; spawnTimeoutId := spawnTimeoutId g;
     animationFrameId := animationFrameId g; gameRunning := gameRunning g;
     paused := paused g; currentLevel := currentLevel g; timeLeft := timeLeft g;
     baseSpawnInterval := baseSpawnInterval g; spawnInterval := spawnInterval g;
     spawnAcceleration := spawnAcceleration g; lastUpdateTime := lastUpdateTime g;
     score := score g; warpActive := warpActive g; nextWarpAt := v;
     warpEndAt := warpEndAt g; resumeAfterHelp := resumeAfterHelp g;
     elements := elements g; randomCalls := randomCalls g;
     lostTimeouts := lostTimeouts g; lostFrames := lostFrames g |}.

Definition set_warpEndAt (v : Q) (g : Game) : Game :=
  {| circles := circles g; spawnTimeoutId := spawnTimeoutId g;
     animationFrameId := animationFrameId g; gameRunning := gameRunning g;
     paused := paused g; currentLevel := currentLevel g; timeLeft := timeLeft g;
     baseSpawnInterval := baseSpawnInterval g; spawnInterval := spawnInterval g;
     spawnAcceleration := spawnAcceleration g; lastUpdateTime := lastUpdateTime g;
     score := score g; warpActive := warpActive g; nextWarpAt := nextWarpAt g;
     warpEndAt := v; resumeAfterHelp := resumeAfterHelp g;
     elements := elements g; randomCalls := randomCalls g;
     lostTimeouts := lostTimeouts g; lostFrames := lostFrames g |}.

Definition set_resumeAfterHelp (v : bool) (g : Game) : Game :=
  {| circles := circles g; spawnTimeoutId := spawnTimeoutId g;
     animationFrameId := animationFrameId g; gameRunning := gameRunning g;
     paused := paused g; currentLevel := currentLevel g; timeLeft := timeLeft g;
     baseSpawnInterval := baseSpawnInterval g; spawnInterval := spawnInterval g;
     spawnAcceleration := spawnAcceleration g; lastUpdateTime := lastUpdateTime g;
     score := score g; warpActive := warpActive g; nextWarpAt := nextWarpAt g;
     warpEndAt := warpEndAt g; resumeAfterHelp := v;
     elements := elements g; randomCalls := randomCalls g;
     lostTimeouts := lostTimeouts g; lostFrames := lostFrames g |}.

Definition set_elements (v : nat) (g : Game) : Game :=
  {| circles := circles g; spawnTimeoutId := spawnTimeoutId g;
     animationFrameId := animationFrameId g; gameRunning := gameRunning g;
     paused := paused g; currentLevel := currentLevel g; timeLeft := timeLeft g;
     baseSpawnInterval := baseSpawnInterval g; spawnInterval := spawnInterval g;
     spawnAcceleration := spawnAcceleration g; lastUpdateTime := lastUpdateTime g;
     score := score g; warpActive := warpActive g; nextWarpAt := nextWarpAt g;
     warpEndAt := warpEndAt g; resumeAfterHelp := resumeAfterHelp g;
     elements := v; randomCalls := randomCalls g;
     lostTimeouts := lostTimeouts g; lostFrames := lostFrames g |}.

Definition set_randomCalls (v : nat) (g : Game) : Game :=
  {| circles := circles g; spawnTimeoutId := spawnTimeoutId g;
     animationFrameId := animationFrameId g; gameRunning := gameRunning g;
     paused := paused g; currentLevel := currentLevel g; timeLeft := timeLeft g;
     baseSpawnInterval := baseSpawnInterval g; spawnInterval := spawnInterval g;
     spawnAcceleration := spawnAcceleration g; lastUpdateTime := lastUpdateTime g;
     score := score g; warpActive := warpActive g; nextWarpAt := nextWarpAt g;
     warpEndAt := warpEndAt g; resumeAfterHelp := resumeAfterHelp g;
     elements := elements g; randomCalls := v;
     lostTimeouts := lostTimeouts g; lostFrames := lostFrames g |}.

Definition set_lostTimeouts (v : list Q) (g : Game) : Game :=
  {| circles := circles g; spawnTimeoutId := spawnTimeoutId g;
     animationFrameId := animationFrameId g; gameRunning := gameRunning g;
     paused := paused g; currentLevel := currentLevel g; timeLeft := timeLeft g;
     baseSpawnInterval := baseSpawnInterval g; spawnInterval := spawnInterval g;
     spawnAcceleration := spawnAcceleration g; lastUpdateTime := lastUpdateTime g;
     score := score g; warpActive := warpActive g; nextWarpAt := nextWarpAt g;
     warpEndAt := warpEndAt g; resumeAfterHelp := resumeAfterHelp g;
     elements := elements g; randomCalls := randomCalls g;
     lostTimeouts := v; lostFrames := lostFrames g |}.

Definition set_lostFrames (v : nat) (g : Game) : Game :=
  {| circles := circles g; spawnTimeoutId := spawnTimeoutId g;
     animationFrameId := animationFrameId g; gameRunning := gameRunning g;
     paused := paused g; currentLevel := currentLevel g; timeLeft := timeLeft g;
     baseSpawnInterval := baseSpawnInterval g; spawnInterval := spawnInterval g;
     spawnAcceleration := spawnAcceleration g; lastUpdateTime := lastUpdateTime g;
     score := score g; warpActive := warpActive g; nextWarpAt := nextWarpAt g;
     warpEndAt := warpEndAt g; resumeAfterHelp := resumeAfterHelp g;
     elements := elements g; randomCalls := randomCalls g;
     lostTimeouts := lostTimeouts g; lostFrames := v |}.

(** ** Arrays of circle objects *)

(** [c === d] on circle objects: every circle owns the element created
    for it, so two circles are the same object when the nodes agree. *)
Definition same_object (c d : Circle) : bool :=
  Nat.eqb (node (element c)) (node (element d)).

(** [circles.indexOf(circle)] *)
Fixpoint indexOf (circle : Circle) (l : list Circle) : option nat :=
  match l with
  | [] => None
  | c :: l' =>
      if same_object c circle then Some O
      else match indexOf circle l' with
           | Some i => Some (S i)
           | None => None
           end
  end.

(** [circles.splice(idx, 1)] *)
Fixpoint splice1 (idx : nat) (l : list Circle) : list Circle :=
  match l, idx with
  | [], _ => []
  | _ :: l', O => l'
  | c :: l', S i => c :: splice1 i l'
  end.

(** The object at position [idx] after its fields have been assigned to:
    the array holds the mutated object at the same position. *)
Fixpoint assign (idx : nat) (c : Circle) (l : list Circle) : list Circle :=
  match l, idx with
  | [], _ => []
  | _ :: l', O => c :: l'
  | d :: l', S i => d :: assign i c l'
  end.

(** ** Operations that do not consult the host *)

Definition resetGame (g : Game) : Game :=
  let g := set_circles [] g in
  let g := set_timeLeft 30 g in
  let g := set_baseSpawnInterval
             (BASE_SPAWN_INTERVAL * Qpower 0.9 (currentLevel g - 1)) g in
  let g := set_spawnInterval (baseSpawnInterval g) g in
  let g := set_spawnAcceleration 0.9 g in
  let g := set_warpActive false g in
  let g := set_nextWarpAt timeWarpConfig.interval g in
  set_warpEndAt 0 g.

(** [spawnTimeoutId = setTimeout(..., spawnInterval)]: the host arms a
    new timeout with the current [spawnInterval] and the variable takes its
    id.  [setTimeout] clears nothing: a timeout that the variable held and
    that is still pending stays with the host, lost to the script. *)
Definition spawnNext (g : Game) : Game :=
  let g :=
    set_lostTimeouts
      match spawnTimeoutId g with
      | Some delay => lostTimeouts g ++ [delay]
      | None => lostTimeouts g
      end g in
  set_spawnTimeoutId (Some (spawnInterval g)) g.

(** [clearTimeout(spawnTimeoutId)]: clears the one timeout whose id the
    variable holds. *)
Definition clearTimeout (g : Game) : Game := set_spawnTimeoutId None g.

(** [cancelAnimationFrame(animationFrameId)] *)
Definition cancelAnimationFrame (g : Game) : Game := set_animationFrameId false g.

(** [animationFrameId = requestAnimationFrame(update)]: a request that the
    variable held and that is still pending stays with the host. *)
Definition requestAnimationFrame (g : Game) : Game :=
  let g :=
    set_lostFrames
      (if animationFrameId g then S (lostFrames g) else lostFrames g) g in
  set_animationFrameId true g.

Definition removeCircle (circle : Circle) (g : Game) : Game :=
  match indexOf circle (circles g) with
  | Some idx => set_circles (splice1 idx (circles g)) g
  | None => g
  end.

Definition handleFusePop (fuseCircle : Circle) (isGood : bool) (g : Game) : Game :=
  let factor := if isGood then 0.8 else 1.2 in
  set_circles
    (map (fun c =>
            if same_object c fuseCircle then c
            else set_radius (Qmax (radius c * factor) 5) c)
         (circles g))
    g.

Definition levelComplete (g : Game) : Game :=
  let g := clearTimeout g in
  let g := cancelAnimationFrame g in
  let g := set_circles [] g in
  let g := set_currentLevel (currentLevel g + 1) g in
  let g := set_timeLeft 30 g in
  let g := set_score 0 g in
  let g := set_baseSpawnInterval
             (BASE_SPAWN_INTERVAL * Qpower 0.9 (currentLevel g - 1)) g in
  let g := set_spawnInterval (baseSpawnInterval g) g in
  let g := set_spawnAcceleration 0.9 g in
  let g := set_warpActive false g in
  let g := set_nextWarpAt timeWarpConfig.interval g in
  set_warpEndAt 0 g.

Definition gameOver (g : Game) : Game :=
  let g := set_gameRunning false g in
  let g := clearTimeout g in
  let g := cancelAnimationFrame g in
  set_circles [] g.

(** *** The frame callback *)

(** The time-warp branch of [update]; [elapsed] is [30 - timeLeft]. *)
Definition update_warp (elapsed : Q) (g : Game) : Game :=
  if (6 <=? currentLevel g)%Z then
    if negb (warpActive g) && Qle_bool (nextWarpAt g) elapsed then
      let g := set_warpActive true g in
      let g := set_warpEndAt (nextWarpAt g + timeWarpConfig.duration) g in
      set_spawnInterval (baseSpawnInterval g * timeWarpConfig.factor) g
    else if warpActive g && Qle_bool (warpEndAt g) elapsed then
      let g := set_warpActive false g in
      let g := set_spawnInterval (baseSpawnInterval g) g in
      set_nextWarpAt (nextWarpAt g + timeWarpConfig.interval) g
    else g
  else g.

(** Growth and drift of one circle over [dt]. *)
Definition grow_and_move (dt : Q) (circle : Circle) : Circle :=
  let circle := set_radius (radius circle + growth circle * dt) circle in
  let circle := set_x (x circle + driftX circle * dt) circle in
  set_y (y circle + driftY circle * dt) circle.

(** The fuse countdown; the boolean tells whether the fuse has run out. *)
Definition fuse_countdown (dt : Q) (circle : Circle) : Circle * bool :=
  if circle_type_eqb (type circle) fuse then
    match fuseTimeLeft circle with
    | Some f =>
        let circle := set_fuseTimeLeft (Some (f - dt)) circle in
        (circle, Qle_bool (f - dt) 0)
    | None => (circle, false)
    end
  else (circle, false).

Definition bounce_x (rect : Rect) (circle : Circle) : Circle :=
  if Qlt_bool (x circle - radius circle) 0 then
    set_driftX (Qabs (driftX circle)) (set_x (radius circle) circle)
  else if Qlt_bool (width rect) (x circle + radius circle) then
    set_driftX (- Qabs (driftX circle)) (set_x (width rect - radius circle) circle)
  else circle.

Definition bounce_y (rect : Rect) (circle : Circle) : Circle :=
  if Qlt_bool (y circle - radius circle) 0 then
    set_driftY (Qabs (driftY circle)) (set_y (radius circle) circle)
  else if Qlt_bool (height rect) (y circle + radius circle) then
    set_driftY (- Qabs (driftY circle)) (set_y (height rect - radius circle) circle)
  else circle.

Definition bounce (rect : Rect) (circle : Circle) : Circle :=
  if negb (Qeq_bool (driftX circle) 0) || negb (Qeq_bool (driftY circle) 0)
  then bounce_y rect (bounce_x rect circle)
  else circle.

(** How one turn of the loop body leaves the loop: on to the next index
    ([continue] or the end of the body), or [return] after [gameOver()]. *)
Inductive body_result : Set :=
| next_index (g : Game)
| returned (g : Game).

(** The body of [for (const circle of circles)] for the object found at
    [index]. *)
Definition update_circle (dt : Q) (rect : Rect) (maxR : Q)
    (index : nat) (circle : Circle) (g : Game) : body_result :=
  let circle := grow_and_move dt circle in
  let (circle, exploded) := fuse_countdown dt circle in
  if exploded then
    let g := set_circles (assign index circle (circles g)) g in
    let g := handleFusePop circle false g in
    let g := removeCircle circle g in
    next_index g
  else
    let circle := bounce rect circle in
    let g := set_circles (assign index circle (circles g)) g in
    if Qle_bool maxR (radius circle) then returned (gameOver g)
    else next_index g.

Inductive loop_result : Set :=
| loop_done (g : Game)
| loop_returned (g : Game)
| loop_unfinished.

(** [for (const circle of circles)]: the array iterator keeps an index and
    at every turn compares it with the current length of the array, so a
    removal during the loop shifts the later objects under the index.
    [fuel] bounds the number of turns; [update] passes the length of the
    array, which is enough ([update_circles_finishes]). *)
Fixpoint update_circles (fuel : nat) (dt : Q) (rect : Rect) (maxR : Q)
    (index : nat) (g : Game) : loop_result :=
  match nth_error (circles g) index with
  | None => loop_done g
  | Some circle =>
      match fuel with
      | O => loop_unfinished
      | S fuel' =>
          match update_circle dt rect maxR index circle g with
          | next_index g' => update_circles fuel' dt rect maxR (S index) g'
          | returned g' => loop_returned g'
          end
      end
  end.

(** Which way a call of [update] went. *)
Inductive outcome : Set :=
| not_running      (* [if (!gameRunning) return] *)
| frame_paused     (* the [paused] branch *)
| level_completed  (* [levelComplete(); return] *)
| game_over        (* [gameOver(); return] *)
| frame_done       (* the end of the function *)
| frame_unfinished.

Definition update (timestamp : Q) (rect : Rect) (g : Game) : outcome * Game :=
  if negb (gameRunning g) then (not_running, g)
  else if paused g then (frame_paused, requestAnimationFrame g)
  else
    let dt := (timestamp - lastUpdateTime g) / 1000 in
    let g := set_lastUpdateTime timestamp g in
    let g := set_timeLeft (timeLeft g - dt) g in
    if Qle_bool (timeLeft g) 0 then (level_completed, levelComplete g)
    else
      let elapsed := 30 - timeLeft g in
      let g := update_warp elapsed g in
      let maxR := Qmin (width rect) (height rect) / 2 in
      match update_circles (length (circles g)) dt rect maxR 0 g with
      | loop_done g' => (frame_done, requestAnimationFrame g')
      | loop_returned g' => (game_over, g')
      | loop_unfinished => (frame_unfinished, g)
      end.

(** *** Commands *)

Definition startLevel (now : Q) (g : Game) : Game :=
  let g := resetGame g in
  let g := set_gameRunning true g in
  let g := set_paused false g in
  let g := set_score 0 g in
  let g := set_lastUpdateTime now g in
  let g := spawnNext g in
  requestAnimationFrame g.

Definition restartLevel (now : Q) (g : Game) : Game :=
  let g := clearTimeout g in
  let g := cancelAnimationFrame g in
  let g := set_paused false g in
  let g := set_score 0 g in
  let g := resetGame g in
  let g := set_lastUpdateTime now g in
  let g := set_gameRunning true g in
  let g := spawnNext g in
  requestAnimationFrame g.

(** The click listener of [startBtn]. *)
Definition startBtn_click (now : Q) (g : Game) : Game := startLevel now g.

(** The click listener of [resumeBtn]: the pause/resume toggle. *)
Definition resumeBtn_click (now : Q) (g : Game) : Game :=
  if negb (gameRunning g) then g
  else
    let g := set_paused (negb (paused g)) g in
    if paused g then cancelAnimationFrame (clearTimeout g)
    else
      let g := set_lastUpdateTime now g in
      let g := spawnNext g in
      requestAnimationFrame g.

(** The click listener of [restartBtn]. *)
Definition restartBtn_click (now : Q) (g : Game) : Game :=
  if negb (gameRunning g) then g else restartLevel now g.

(** The click listener of [resetProgressBtn]. *)
Definition resetProgressBtn_click (g : Game) : Game :=
  let g := set_gameRunning false g in
  let g := set_paused false g in
  let g := clearTimeout g in
  let g := cancelAnimationFrame g in
  let g := resetGame g in
  let g := set_currentLevel 1 g in
  set_score 0 g.

(** The click listener of the debug button of level [level]. *)
Definition debugLevel_click (level : Z) (now : Q) (g : Game) : Game :=
  let g := set_currentLevel level g in
  let g := set_gameRunning false g in
  let g := set_paused false g in
  let g := clearTimeout g in
  let g := cancelAnimationFrame g in
  let g := resetGame g in
  startLevel now g.

Definition openHelp (g : Game) : Game :=
  if gameRunning g && negb (paused g) then
    let g := set_resumeAfterHelp true g in
    let g := set_paused true g in
    cancelAnimationFrame (clearTimeout g)
  else set_resumeAfterHelp false g.

Definition closeHelp (now : Q) (g : Game) : Game :=
  let g :=
    if resumeAfterHelp g && gameRunning g && paused g then
      let g := set_paused false g in
      let g := set_lastUpdateTime now g in
      let g := spawnNext g in
      requestAnimationFrame g
    else g in
  set_resumeAfterHelp false g.

(** ** Operations that consult the host *)

(** Computations that call [Math.random]: they take the number of calls
    made so far and return it advanced.  The [n]-th call returns
    [Math_random n], whatever the host's generator yields. *)
Definition rnd (A : Type) : Type := nat -> A * nat.

Definition ret {A : Type} (a : A) : rnd A := fun n => (a, n).

Definition bind {A B : Type} (m : rnd A) (k : A -> rnd B) : rnd B :=
  fun n => let (a, n') := m n in k a n'.

Notation "v <- m ;; k" := (bind m (fun v => k))
  (at level 61, m at next level, right associativity).

(** [b && m] with JavaScript's short circuit: [m] runs only when [b]. *)
Definition and_then (b : bool) (m : rnd bool) : rnd bool :=
  if b then m else ret false.

Section Host.

Variable Math_random : nat -> Q.
Variable Math_PI : Q.
Variables Math_cos Math_sin : Q -> Q.

Definition random : rnd Q := fun n => (Math_random n, S n).

(** [Math.random() < p] *)
Definition chance (p : Q) : rnd bool :=
  u <- random ;; ret (Qlt_bool u p).

(** The local variable [special] of [spawnCircle]. *)
Inductive special_type : Set := special_null | special_fuse | special_splitter.

(** The circle object built by [spawnCircle] at level [level] around the
    element [elem]. *)
Definition spawnCircle_object (rect : Rect) (level : Z) (elem : elem)
  : rnd Circle :=
  let initialRadius := 15 in
  u <- random ;;
  let x := u * (width rect - initialRadius * 2) + initialRadius in
  v <- random ;;
  let y := v * (height rect - initialRadius * 2) + initialRadius in
  let circle :=
    {| element := elem; x := x; y := y; radius := initialRadius;
       growth := 20; clicks := 1; driftX := 0; driftY := 0;
       type := normal; fuseTimeLeft := None |} in
  isFuse <- and_then (5 <=? level)%Z (chance 0.25) ;;
  special <-
    (if isFuse then ret special_fuse
     else
       isSplitter <- and_then (4 <=? level)%Z (chance 0.3) ;;
       ret (if isSplitter then special_splitter else special_null)) ;;
  match special with
  | special_fuse => ret (set_fuseTimeLeft (Some 3.5) (set_type fuse circle))
  | special_splitter => ret (set_type splitter circle)
  | special_null =>
      isArmored <- and_then (2 <=? level)%Z (chance 0.2) ;;
      let circle :=
        if isArmored then set_type armored (set_clicks 2 circle)
        else circle in
      isDrifter <- and_then (3 <=? level)%Z (chance 0.5) ;;
      if isDrifter then
        a <- random ;;
        let angle := a * Math_PI * 2 in
        let speed := 40 in
        ret (set_type drifter
               (set_driftY (Math_sin angle * speed)
                  (set_driftX (Math_cos angle * speed) circle)))
      else ret circle
  end.

Definition spawnCircle (rect : Rect) (g : Game) : Game :=
  let elem := {| node := elements g; onclick := circleListener |} in
  let g := set_elements (S (elements g)) g in
  let (circle, n) := spawnCircle_object rect (currentLevel g) elem (randomCalls g) in
  let g := set_randomCalls n g in
  set_circles (circles g ++ [circle]) g.

(** The [child] object built by one turn of the loop of
    [spawnSplitterChildren]. *)
Definition splitterChild_object (parent : Circle) (childElem : elem)
  : rnd Circle :=
  a <- random ;;
  let angle := a * Math_PI * 2 in
  let child :=
    {| element := childElem;
       x := x parent + Math_cos angle * radius parent;
       y := y parent + Math_sin angle * radius parent;
       radius := Qmax 10 (radius parent / 2);
       growth := growth parent * 1.2;
       clicks := 1; driftX := 0; driftY := 0;
       type := normal; fuseTimeLeft := None |} in
  isDrifter <- chance 0.5 ;;
  if isDrifter then
    b <- random ;;
    let driftAngle := b * Math_PI * 2 in
    let speed := 30 in
    ret (set_type drifter
           (set_driftY (Math_sin driftAngle * speed)
              (set_driftX (Math_cos driftAngle * speed) child)))
  else ret child.

(** One turn of the loop of [spawnSplitterChildren]. *)
Definition pushSplitterChild (parent : Circle) (g : Game) : Game :=
  let childElem := {| node := elements g; onclick := childListener |} in
  let g := set_elements (S (elements g)) g in
  let (child, n) := splitterChild_object parent childElem (randomCalls g) in
  let g := set_randomCalls n g in
  set_circles (circles g ++ [child]) g.

(** [for (let i = 0; i < 2; i++)] *)
Definition spawnSplitterChildren (parent : Circle) (g : Game) : Game :=
  pushSplitterChild parent (pushSplitterChild parent g).

(** The click listener installed by [spawnCircle], for the circle object
    it closes over; the object's fields are read from the array, where
    its mutations live. *)
Definition circle_click (circle : Circle) (index : nat) (g : Game) : Game :=
  if (1 <? clicks circle)%Z then
    set_circles
      (assign index (set_clicks (clicks circle - 1) circle) (circles g)) g
  else
    let g :=
      match type circle with
      | splitter => spawnSplitterChildren circle g
      | fuse => handleFusePop circle true g
      | _ => g
      end in
    let g := removeCircle circle g in
    set_score (score g + 1) g.

(** The click listener installed by [spawnSplitterChildren]. *)
Definition child_click (child : Circle) (g : Game) : Game :=
  let g := removeCircle child g in
  set_score (score g + 1) g.

(** Position of the circle whose element is node [n], with the circle. *)
Fixpoint lookup_node (n : nat) (l : list Circle) : option (nat * Circle) :=
  match l with
  | [] => None
  | c :: l' =>
      if Nat.eqb (node (element c)) n then Some (O, c)
      else match lookup_node n l' with
           | Some (i, d) => Some (S i, d)
           | None => None
           end
  end.

(** A click on the element with node [n].  Elements of removed circles
    are no longer in the document and receive no clicks. *)
Definition element_click (n : nat) (g : Game) : Game :=
  match lookup_node n (circles g) with
  | None => g
  | Some (index, circle) =>
      if negb (gameRunning g) || paused g then g
      else
        match onclick (element circle) with
        | circleListener => circle_click circle index g
        | childListener => child_click circle g
        end
  end.

(** The callback that [spawnNext] hands to [setTimeout]. *)
Definition spawnNext_timeout (rect : Rect) (g : Game) : Game :=
  let g := spawnCircle rect g in
  let g := set_baseSpawnInterval (baseSpawnInterval g * spawnAcceleration g) g in
  let g := set_baseSpawnInterval (Qmax (baseSpawnInterval g) MIN_SPAWN_INTERVAL) g in
  let g :=
    set_spawnInterval
      (if warpActive g then baseSpawnInterval g * timeWarpConfig.factor
       else baseSpawnInterval g) g in
  spawnNext g.

(** ** The event loop *)

(** What the host can deliver: timer and frame callbacks with the play
    area as measured at that moment, and the player's clicks with the
    reading of [performance.now()] where the listener takes one.
    [timeout_fires] and [frame] are the timeout and the frame request whose
    ids the script holds; [lost_timeout_fires k] is the [k]-th of the lost
    timeouts and [lost_frame] one of the lost frame requests. *)
Inductive event : Set :=
| timeout_fires (rect : Rect)
| frame (timestamp : Q) (rect : Rect)
| lost_timeout_fires (k : nat) (rect : Rect)
| lost_frame (timestamp : Q) (rect : Rect)
| click_element (n : nat)
| click_start (now : Q)
| click_resume (now : Q)
| click_restart (now : Q)
| click_resetProgress
| click_debugLevel (level : Z) (now : Q)
| click_help
| click_closeHelp (now : Q).

(** A callback runs when the host holds it, and it leaves the host as it
    runs: a cleared timeout does not fire and a cancelled frame request is
    not served, while the lost ones fire whatever the script has cleared
    since. *)
Definition step (e : event) (g : Game) : Game :=
  match e with
  | timeout_fires rect =>
      match spawnTimeoutId g with
      | Some _ => spawnNext_timeout rect (clearTimeout g)
      | None => g
      end
  | frame timestamp rect =>
      if animationFrameId g
      then snd (update timestamp rect (cancelAnimationFrame g))
      else g
  | lost_timeout_fires k rect =>
      match nth_error (lostTimeouts g) k with
      | Some _ =>
          spawnNext_timeout rect
            (set_lostTimeouts
               (firstn k (lostTimeouts g) ++ skipn (S k) (lostTimeouts g)) g)
      | None => g
      end
  | lost_frame timestamp rect =>
      match lostFrames g with
      | S n => snd (update timestamp rect (set_lostFrames n g))
      | O => g
      end
  | click_element n => element_click n g
  | click_start now => startBtn_click now g
  | click_resume now => resumeBtn_click now g
  | click_restart now => restartBtn_click now g
  | click_resetProgress => resetProgressBtn_click g
  | click_debugLevel level now => debugLevel_click level now g
  | click_help => openHelp g
  | click_closeHelp now => closeHelp now g
  end.

Definition run (es : list event) (g : Game) : Game :=
  fold_left (fun g e => step e g) es g.

End Host.

(** ** Auxiliary notions for the statements *)

(** [g'] differs from [g] in the array of circles at most. *)
Definition only_circles (g g' : Game) : Prop := g' = set_circles (circles g') g.

(** [dt] as [update] computes it from the timestamp of the frame. *)
Definition frame_dt (timestamp : Q) (g : Game) : Q :=
  (timestamp - lastUpdateTime g) / 1000.

(** The state in which the loop over the circles starts: clock and timer
    advanced by [dt], time warp switched. *)
Definition before_loop (timestamp : Q) (g : Game) : Game :=
  update_warp (30 - (timeLeft g - frame_dt timestamp g))
    (set_timeLeft (timeLeft g - frame_dt timestamp g)
       (set_lastUpdateTime timestamp g)).


(** ** Hosts and rounds for concrete runs *)

(** A host whose [Math.random] returns 0.5 at every call; at every level
    the circles it spawns are plain ones. *)
Definition steady_random : nat -> Q := fun _ => 0.5.

(** Stand-ins for [Math.cos] and [Math.sin] in concrete runs: every drift
    points along the first axis. *)
Definition along_x_cos : Q -> Q := fun _ => 1.
Definition along_x_sin : Q -> Q := fun _ => 0.

(** A play area of 800 by 600 pixels. *)
Definition area : Rect := {| width := 800; height := 600 |}.

(** The round right after the debug button of level 6 was clicked at time 0. *)
Definition level6 : Game := debugLevel_click 6 0 initial.

(** Level 6 entered at time 0; the spawn timeout fires ten times, as it is
    due to within the first eight seconds (the intervals 1181, 1063, ...,
    458 ms add up to 7692 ms); the frame at 8000 ms opens the time-warp
    window; the timeout, armed with 412 ms, fires once more. *)
Definition warp_spawn_trace : list event :=
  [click_debugLevel 6 0] ++ repeat (timeout_fires area) 10
  ++ [frame 8000 area; timeout_fires area].

(** ** The spawn rules in the words of the spec *)

(** One more roll is consumed for every rule whose level gate is open. *)
Definition rolls (open : bool) : nat := if open then 1%nat else 0%nat.

(** The spec's ordered rules for the circle spawned at level [level] when
    [n] calls of [Math.random] have been made: two rolls place the circle;
    at level 5 or more a roll below 0.25 makes it a fuse; else at level 4 or
    more a roll below 0.3 makes it a splitter; otherwise it is a plain
    circle that is armored (two clicks) at level 2 or more on a roll below
    0.2 and drifts at level 3 or more on a roll below 0.5, in the direction
    given by one further roll at speed 40.  Every rule has a roll of its
    own. *)
Definition spawn_rules (Math_random : nat -> Q) (Math_PI : Q)
    (Math_cos Math_sin : Q -> Q) (rect : Rect) (level : Z) (elem : elem)
    (n : nat) : Circle :=
  let roll k := Math_random (n + 2 + k)%nat in
  let at_splitter := rolls (5 <=? level)%Z in
  let at_armored := (at_splitter + rolls (4 <=? level)%Z)%nat in
  let at_drifter := (at_armored + rolls (2 <=? level)%Z)%nat in
  let isFuse := (5 <=? level)%Z && Qlt_bool (roll 0%nat) 0.25 in
  let isSplitter :=
    negb isFuse && (4 <=? level)%Z && Qlt_bool (roll at_splitter) 0.3 in
  let special := isFuse || isSplitter in
  let isArmored :=
    negb special && (2 <=? level)%Z && Qlt_bool (roll at_armored) 0.2 in
  let isDrifter :=
    negb special && (3 <=? level)%Z && Qlt_bool (roll at_drifter) 0.5 in
  let angle := roll (at_drifter + 1)%nat * Math_PI * 2 in
  {| element := elem;
     x := Math_random n * (width rect - 30) + 15;
     y := Math_random (n + 1)%nat * (height rect - 30) + 15;
     radius := 15;
     growth := 20;
     clicks := if isArmored then 2 else 1;
     driftX := if isDrifter then Math_cos angle * 40 else 0;
     driftY := if isDrifter then Math_sin angle * 40 else 0;
     type := if isFuse then fuse
             else if isSplitter then splitter
             else if isDrifter then drifter
             else if isArmored then armored
             else normal;
     fuseTimeLeft := if isFuse then Some 3.5 else None |}.

(** ** What the spec asks of the child of a splitter *)

(** [child] is a child of [parent] whose drift roll is the [k]-th call of
    [Math.random]: half the parent's radius but no less than 10, 1.2 times
    its growth, one click, no fuse, and a drifter at speed 30 exactly when
    the roll is below 0.5, a plain circle otherwise. *)
Definition splitter_child (Math_random : nat -> Q) (Math_PI : Q)
    (Math_cos Math_sin : Q -> Q) (parent child : Circle) (k : nat) : Prop :=
  radius child = Qmax 10 (radius parent / 2) /\
  10 <= radius child /\
  (10 <= radius parent / 2 -> radius child <= radius parent / 2) /\
  growth child = growth parent * 1.2 /\
  clicks child = 1%Z /\
  fuseTimeLeft child = None /\
  onclick (element child) = childListener /\
  (type child = normal \/ type child = drifter) /\
  (type child = drifter <-> Math_random k < 0.5) /\
  (Math_random k < 0.5 ->
     driftX child = Math_cos (Math_random (S k) * Math_PI * 2) * 30 /\
     driftY child = Math_sin (Math_random (S k) * Math_PI * 2) * 30) /\
  (0.5 <= Math_random k -> driftX child = 0 /\ driftY child = 0).

(** A splitter of radius 50 in the middle of [area], alone in a running
    round of level 4. *)
Definition a_splitter : Circle :=
  {| element := {| node := 0; onclick := circleListener |};
     x := 400; y := 300; radius := 50; growth := 20; clicks := 1;
     driftX := 0; driftY := 0; type := splitter; fuseTimeLeft := None |}.

Definition splitter_round : Game :=
  set_elements 1
    (set_circles [a_splitter] (debugLevel_click 4 0 initial)).

(** ** Object identity and the shockwave *)

(** The nodes of the elements of the circles of an array; the circles are
    distinct objects when no node occurs twice. *)
Definition nodes (l : list Circle) : list nat :=
  map (fun c => node (element c)) l.

(** What a shockwave does to a circle other than the fuse: the radius times
    [factor], but no less than 5. *)
Definition shockwave (factor : Q) (c : Circle) : Circle :=
  set_radius (Qmax (radius c * factor) 5) c.

(** A fuse with 0.1 s left, followed by two plain circles of the same
    size, in a running round of level 5. *)
Definition a_fuse : Circle :=
  {| element := {| node := 0; onclick := circleListener |};
     x := 100; y := 100; radius := 83; growth := 20; clicks := 1;
     driftX := 0; driftY := 0; type := fuse; fuseTimeLeft := Some 0.1 |}.

Definition plain_circle (n : nat) (x0 : Q) : Circle :=
  {| element := {| node := n; onclick := circleListener |};
     x := x0; y := 300; radius := 83; growth := 20; clicks := 1;
     driftX := 0; driftY := 0; type := normal; fuseTimeLeft := None |}.

Definition fuse_round : Game :=
  set_elements 3
    (set_circles [a_fuse; plain_circle 1 400; plain_circle 2 600]
       (debugLevel_click 5 0 initial)).

(** A host whose third call of [Math.random] returns 0 and every other
    call 0.5: at level 5 the first circle spawned is a fuse and the
    following ones are plain. *)
Definition fuse_first_random : nat -> Q :=
  fun n => if Nat.eqb n 2 then 0 else 0.5.

(** Level 5 entered at time 0 and three circles spawned (they are due at
    1312, 2493 and 3556 ms) before any frame is served, as happens while
    the page is hidden: a fuse followed by two plain circles, all of radius
    15 and growth 20. *)
Definition fuse_trace : list event :=
  [click_debugLevel 5 0; timeout_fires area; timeout_fires area;
   timeout_fires area].

(** Node, type and radius, the radius in lowest terms. *)
Definition summary (c : Circle) : nat * circle_type * Q :=
  (node (element c), type c, Qred (radius c)).

(** ** Frames in which no fuse runs out *)

(** Half the smaller side of the play area. *)
Definition lethal_radius (rect : Rect) : Q :=
  Qmin (width rect) (height rect) / 2.

(** The fuse of [c], if it is one, outlasts [dt]. *)
Definition fuse_lasts (dt : Q) (c : Circle) : Prop :=
  type c = fuse -> forall f, fuseTimeLeft c = Some f -> 0 < f - dt.

(** What a turn of the loop makes of a circle whose fuse does not run
    out: grown, moved, counted down and bounced. *)
Definition advance (dt : Q) (rect : Rect) (c : Circle) : Circle :=
  bounce rect (fst (fuse_countdown dt (grow_and_move dt c))).

(** The radius of [c], grown over [dt], is at or beyond [maxR]. *)
Definition breaches (maxR dt : Q) (c : Circle) : bool :=
  Qle_bool maxR (radius c + growth c * dt).

(** A round of level 1 started at time 0 with one circle spawned and a
    frame at 1000 ms: the circle has radius 35 and 29 s are left. *)
Definition one_circle_trace : list event :=
  [click_start 0; timeout_fires area; frame 1000 area].

(** The play area after the window was made 60 pixels high. *)
Definition low_area : Rect := {| width := 800; height := 60 |}.

(** [c] does not drift, or lies within the walls of the play area. *)
Definition at_rest_or_inside (rect : Rect) (c : Circle) : Prop :=
  (driftX c == 0 /\ driftY c == 0) \/
  (0 <= x c - radius c /\ x c + radius c <= width rect /\
   0 <= y c - radius c /\ y c + radius c <= height rect).

(** The round [one_circle_trace], paused at 1500 ms and resumed by a click
    whose listener reads 2000 ms from [performance.now()]. *)
Definition resumed_trace : list event :=
  one_circle_trace ++ [click_resume 1500; click_resume 2000].

(** ** The radius floor *)

(** A circle is sound when its radius is at least 5 and it does not
    shrink by itself. *)
Definition sound (c : Circle) : Prop := 5 <= radius c /\ 0 <= growth c.

(** The frame [e], if it is one, does not carry a timestamp earlier than
    the anchor of the frame clock: its [dt] is not negative. *)
Definition frame_forward (e : event) (g : Game) : bool :=
  match e with
  | frame timestamp _ | lost_frame timestamp _ =>
      Qle_bool (lastUpdateTime g) timestamp
  | _ => true
  end.

(** No frame of the run [es] from [g] has a negative [dt]. *)
Fixpoint frames_forward (Math_random : nat -> Q) (Math_PI : Q)
    (Math_cos Math_sin : Q -> Q) (es : list event) (g : Game) : bool :=
  match es with
  | [] => true
  | e :: es' =>
      frame_forward e g
      && frames_forward Math_random Math_PI Math_cos Math_sin es'
           (step Math_random Math_PI Math_cos Math_sin e g)
  end.

(** A host under which, at level 5, the first circle spawned is plain and
    the following ones are fuses: the rolls that decide on a fuse are the
    calls 8, 11, 14, ... of [Math.random]. *)
Definition plain_then_fuses_random : nat -> Q :=
  fun n => if (6 <=? n)%nat && (Nat.eqb (n mod 3) 2) then 0 else 0.5.

(** Level 5 entered at time 0; a plain circle and five fuses are spawned;
    the five fuses are popped, which shrinks the plain circle from 15 to
    the floor 5; the round is paused and then resumed by a click that reads
    200 ms from [performance.now()]. *)
Definition shrunk_trace : list event :=
  [click_debugLevel 5 0] ++ repeat (timeout_fires area) 6
  ++ [click_element 1; click_element 2; click_element 3; click_element 4;
      click_element 5; click_resume 100; click_resume 200].

(** ** Distinct objects *)

(** The circles of [g] are distinct objects, and each owns an element
    that [document.createElement] has already handed out. *)
Definition distinct_objects (g : Game) : Prop :=
  NoDup (nodes (circles g)) /\
  Forall (fun c => (node (element c) < elements g)%nat) (circles g).


(** ** Rounds for further concrete runs *)

(** An armored drifter, as [spawnCircle] makes them from level 3 on, alone
    in a running round of level 3. *)
Definition an_armored : Circle :=
  {| element := {| node := 0; onclick := circleListener |};
     x := 400; y := 300; radius := 20; growth := 20; clicks := 2;
     driftX := 40; driftY := 0; type := drifter; fuseTimeLeft := None |}.

Definition armored_round : Game :=
  set_elements 1 (set_circles [an_armored] (debugLevel_click 3 0 initial)).

(** [c] lies within the walls of the play area. *)
Definition inside (rect : Rect) (c : Circle) : Prop :=
  0 <= x c - radius c /\ x c + radius c <= width rect /\
  0 <= y c - radius c /\ y c + radius c <= height rect.

(** A drifter that has left the play area by its right and top walls. *)
Definition a_stray : Circle :=
  {| element := {| node := 0; onclick := circleListener |};
     x := 790; y := 10; radius := 20; growth := 20; clicks := 1;
     driftX := 40; driftY := -30; type := drifter; fuseTimeLeft := None |}.

(** The callbacks, whether the script holds their ids or has lost them,
    and the clicks on circles. *)
Definition callback_or_circle (e : event) : Prop :=
  match e with
  | timeout_fires _ | frame _ _ | lost_timeout_fires _ _ | lost_frame _ _
  | click_element _ => True
  | _ => False
  end.

(** The callbacks, the clicks on circles, and the clicks on the pause and
    restart buttons. *)
Definition no_way_back (e : event) : Prop :=
  match e with
  | timeout_fires _ | frame _ _ | lost_timeout_fires _ _ | lost_frame _ _
  | click_element _ | click_resume _ | click_restart _ => True
  | _ => False
  end.

(** A level completed by the frame at 31 s, the pause button clicked twice
    while the overlay is up, which arms a timeout and requests a frame,
    then the start button: the timeout and the frame request that were
    pending are lost to the script. *)
Definition lost_chain_trace : list event :=
  [click_start 0; frame 31000 area; click_resume 32000; click_resume 33000;
   click_start 34000].

Definition lost_chain_round : Game :=
  run steady_random 3 along_x_cos along_x_sin lost_chain_trace initial.

(** ** One spawn chain, one frame loop *)

(** The click on the start button, if [e] is one, finds no timeout and no
    frame request pending under the ids that the script holds. *)
Definition start_clear (e : event) (g : Game) : bool :=
  match e with
  | click_start _ =>
      match spawnTimeoutId g with
      | Some _ => false
      | None => negb (animationFrameId g)
      end
  | _ => true
  end.

(** Every click on the start button in the run [es] from [g] is clear. *)
Fixpoint starts_clear (Math_random : nat -> Q) (Math_PI : Q)
    (Math_cos Math_sin : Q -> Q) (es : list event) (g : Game) : bool :=
  match es with
  | [] => true
  | e :: es' =>
      start_clear e g
      && starts_clear Math_random Math_PI Math_cos Math_sin es'
           (step Math_random Math_PI Math_cos Math_sin e g)
  end.

(** Nothing is lost: the host holds no timeout and no frame request but
    those whose ids the script holds, and none at all while the round is
    paused. *)
Definition single_chain (g : Game) : Prop :=
  lostTimeouts g = [] /\ lostFrames g = 0%nat /\
  (paused g = true -> spawnTimeoutId g = None /\ animationFrameId g = false).

(** The timeout that the script holds fires again and again, each time
    with the play area as measured when it fires. *)
Definition spawn_timeouts (Math_random : nat -> Q) (Math_PI : Q)
    (Math_cos Math_sin : Q -> Q) (rects : list Rect) (g : Game) : Game :=
  fold_left
    (fun g rect =>
       spawnNext_timeout Math_random Math_PI Math_cos Math_sin rect
         (clearTimeout g))
    rects g.

(** The base interval with which level [level] starts. *)
Definition first_interval (level : Z) : Q :=
  baseSpawnInterval (startLevel 0 (set_currentLevel level initial)).

(** [g'] differs from [g] at most in the circles, the score and the
    counters of elements made and of calls of [Math.random]. *)
Definition keeps_round (g g' : Game) : Prop :=
  spawnTimeoutId g' = spawnTimeoutId g /\
  animationFrameId g' = animationFrameId g /\
  gameRunning g' = gameRunning g /\ paused g' = paused g /\
  currentLevel g' = currentLevel g /\ timeLeft g' = timeLeft g /\
  baseSpawnInterval g' = baseSpawnInterval g /\
  spawnInterval g' = spawnInterval g /\
  spawnAcceleration g' = spawnAcceleration g /\
  lastUpdateTime g' = lastUpdateTime g /\
  warpActive g' = warpActive g /\ nextWarpAt g' = nextWarpAt g /\
  warpEndAt g' = warpEndAt g /\ resumeAfterHelp g' = resumeAfterHelp g /\
  lostTimeouts g' = lostTimeouts g /\ lostFrames g' = lostFrames g.

(** * The page: heads-up display and stored best level

    [updateUI] writes the game's variables to the page and keeps the best
    level in [localStorage].  The game never reads either back, so they are
    kept beside the game state: a [Page] is the game together with the
    item ['bestLevel'] of [localStorage] ([None] while it is absent; the
    script only ever stores the decimal form of a level there) and the
    texts of the display, as the numbers they spell.  The overlays and the
    styles of the circles are left out. *)

Record Panel : Set := {
  levelSpan : Z;
  scoreSpan : Z;
  bestSpan : Z;
  timeLabel : Z;
  timerBar : Q    (* the width of the timer bar, in percent *)
}.

Record Page : Set := {
  game : Game;
  bestLevel : option Z;
  panel : Panel
}.

(** An assignment to, or an operation on, the game's variables. *)
Definition on_game (f : Game -> Game) (p : Page) : Page :=
  {| game := f (game p); bestLevel := bestLevel p; panel := panel p |}.

Definition set_bestLevel (v : option Z) (p : Page) : Page :=
  {| game := game p; bestLevel := v; panel := panel p |}.

Definition set_bestSpan (v : Z) (p : Page) : Page :=
  {| game := game p; bestLevel := bestLevel p;
     panel := {| levelSpan := levelSpan (panel p);
                 scoreSpan := scoreSpan (panel p);
                 bestSpan := v;
                 timeLabel := timeLabel (panel p);
                 timerBar := timerBar (panel p) |} |}.

(** [parseInt(localStorage.getItem('bestLevel') || '0', 10)] *)
Definition stored_best (p : Page) : Z :=
  match bestLevel p with
  | Some b => b
  | None => 0%Z
  end.

Definition updateUI (p : Page) : Page :=
  let g := game p in
  let best := stored_best p in
  let p :=
    if (best <? currentLevel g)%Z
    then set_bestLevel (Some (currentLevel g)) p
    else p in
  let best := if (best <? currentLevel g)%Z then currentLevel g else best in
  {| game := g;
     bestLevel := bestLevel p;
     panel := {| levelSpan := currentLevel g;
                 scoreSpan := score g;
                 bestSpan := best;
                 timeLabel := Z.max 0 (Qceiling (timeLeft g));
                 timerBar := timeLeft g / 30 * 100 |} |}.

(** [resetGame], with its call of [updateUI] where the source has it. *)
Definition page_resetGame (p : Page) : Page :=
  let p := on_game (set_circles []) p in
  let p := on_game (set_timeLeft 30) p in
  let p := on_game (fun g => set_baseSpawnInterval
                     (BASE_SPAWN_INTERVAL * Qpower 0.9 (currentLevel g - 1)) g) p in
  let p := on_game (fun g => set_spawnInterval (baseSpawnInterval g) g) p in
  let p := on_game (set_spawnAcceleration 0.9) p in
  let p := updateUI p in
  let p := on_game (set_warpActive false) p in
  let p := on_game (set_nextWarpAt timeWarpConfig.interval) p in
  on_game (set_warpEndAt 0) p.

Definition page_levelComplete (p : Page) : Page :=
  let p := on_game clearTimeout p in
  let p := on_game cancelAnimationFrame p in
  let p := on_game (set_circles []) p in
  let p := on_game (fun g => set_currentLevel (currentLevel g + 1) g) p in
  let p := on_game (set_timeLeft 30) p in
  let p := on_game (set_score 0) p in
  let p := on_game (fun g => set_baseSpawnInterval
                     (BASE_SPAWN_INTERVAL * Qpower 0.9 (currentLevel g - 1)) g) p in
  let p := on_game (fun g => set_spawnInterval (baseSpawnInterval g) g) p in
  let p := on_game (set_spawnAcceleration 0.9) p in
  let p := updateUI p in
  let p := on_game (set_warpActive false) p in
  let p := on_game (set_nextWarpAt timeWarpConfig.interval) p in
  on_game (set_warpEndAt 0) p.

(** [update]: the display is written once, after the loop over the
    circles, when the loop has not returned. *)
Definition page_update (timestamp : Q) (rect : Rect) (p : Page)
  : outcome * Page :=
  if negb (gameRunning (game p)) then (not_running, p)
  else if paused (game p) then (frame_paused, on_game requestAnimationFrame p)
  else
    let dt := (timestamp - lastUpdateTime (game p)) / 1000 in
    let p := on_game (set_lastUpdateTime timestamp) p in
    let p := on_game (fun g => set_timeLeft (timeLeft g - dt) g) p in
    if Qle_bool (timeLeft (game p)) 0
    then (level_completed, page_levelComplete p)
    else
      let elapsed := 30 - timeLeft (game p) in
      let p := on_game (update_warp elapsed) p in
      let maxR := Qmin (width rect) (height rect) / 2 in
      match update_circles (length (circles (game p))) dt rect maxR 0 (game p) with
      | loop_done g' =>
          let p := on_game (fun _ => g') p in
          let p := updateUI p in
          (frame_done, on_game requestAnimationFrame p)
      | loop_returned g' => (game_over, on_game (fun _ => g') p)
      | loop_unfinished => (frame_unfinished, p)
      end.

Definition page_startLevel (now : Q) (p : Page) : Page :=
  let p := page_resetGame p in
  let p := on_game (set_gameRunning true) p in
  let p := on_game (set_paused false) p in
  let p := on_game (set_score 0) p in
  let p := on_game (set_lastUpdateTime now) p in
  let p := on_game spawnNext p in
  on_game requestAnimationFrame p.

Definition page_restartLevel (now : Q) (p : Page) : Page :=
  let p := on_game clearTimeout p in
  let p := on_game cancelAnimationFrame p in
  let p := on_game (set_paused false) p in
  let p := on_game (set_score 0) p in
  let p := page_resetGame p in
  let p := on_game (set_lastUpdateTime now) p in
  let p := on_game (set_gameRunning true) p in
  let p := on_game spawnNext p in
  on_game requestAnimationFrame p.

Definition page_restartBtn_click (now : Q) (p : Page) : Page :=
  if negb (gameRunning (game p)) then p else page_restartLevel now p.

(** The click listener of [resetProgressBtn], from
    [localStorage.removeItem('bestLevel')] on. *)
Definition page_resetProgressBtn_click (p : Page) : Page :=
  let p := set_bestLevel None p in
  let p := set_bestSpan 0 p in
  let p := on_game (set_gameRunning false) p in
  let p := on_game (set_paused false) p in
  let p := on_game clearTimeout p in
  let p := on_game cancelAnimationFrame p in
  let p := page_resetGame p in
  let p := on_game (set_currentLevel 1) p in
  on_game (set_score 0) p.

Definition page_debugLevel_click (level : Z) (now : Q) (p : Page) : Page :=
  let p := on_game (set_currentLevel level) p in
  let p := on_game (set_gameRunning false) p in
  let p := on_game (set_paused false) p in
  let p := on_game clearTimeout p in
  let p := on_game cancelAnimationFrame p in
  let p := page_resetGame p in
  page_startLevel now p.

Section HostPage.

Variable Math_random : nat -> Q.
Variable Math_PI : Q.
Variables Math_cos Math_sin : Q -> Q.

(** The click listener installed by [spawnCircle]: the display is written
    when the circle is destroyed. *)
Definition page_circle_click (circle : Circle) (index : nat) (p : Page) : Page :=
  if (1 <? clicks circle)%Z then
    on_game (fun g => set_circles
                        (assign index (set_clicks (clicks circle - 1) circle)
                           (circles g)) g) p
  else
    let p :=
      match type circle with
      | splitter =>
          on_game (spawnSplitterChildren Math_random Math_PI Math_cos Math_sin
                     circle) p
      | fuse => on_game (handleFusePop circle true) p
      | _ => p
      end in
    let p := on_game (removeCircle circle) p in
    let p := on_game (fun g => set_score (score g + 1) g) p in
    updateUI p.

Definition page_child_click (child : Circle) (p : Page) : Page :=
  let p := on_game (removeCircle child) p in
  let p := on_game (fun g => set_score (score g + 1) g) p in
  updateUI p.

Definition page_element_click (n : nat) (p : Page) : Page :=
  match lookup_node n (circles (game p)) with
  | None => p
  | Some (index, circle) =>
      if negb (gameRunning (game p)) || paused (game p) then p
      else
        match onclick (element circle) with
        | circleListener => page_circle_click circle index p
        | childListener => page_child_click circle p
        end
  end.

(** The event loop over the page. *)
Definition page_step (e : event) (p : Page) : Page :=
  match e with
  | timeout_fires rect =>
      match spawnTimeoutId (game p) with
      | Some _ =>
          on_game
            (fun g => spawnNext_timeout Math_random Math_PI Math_cos Math_sin
                        rect (clearTimeout g)) p
      | None => p
      end
  | frame timestamp rect =>
      if animationFrameId (game p)
      then snd (page_update timestamp rect (on_game cancelAnimationFrame p))
      else p
  | lost_timeout_fires k rect =>
      match nth_error (lostTimeouts (game p)) k with
      | Some _ =>
          on_game
            (fun g =>
               spawnNext_timeout Math_random Math_PI Math_cos Math_sin rect
                 (set_lostTimeouts
                    (firstn k (lostTimeouts g) ++ skipn (S k) (lostTimeouts g))
                    g)) p
      | None => p
      end
  | lost_frame timestamp rect =>
      match lostFrames (game p) with
      | S n => snd (page_update timestamp rect (on_game (set_lostFrames n) p))
      | O => p
      end
  | click_element n => page_element_click n p
  | click_start now => page_startLevel now p
  | click_resume now => on_game (resumeBtn_click now) p
  | click_restart now => page_restartBtn_click now p
  | click_resetProgress => page_resetProgressBtn_click p
  | click_debugLevel level now => page_debugLevel_click level now p
  | click_help => on_game openHelp p
  | click_closeHelp now => on_game (closeHelp now) p
  end.

Definition page_run (es : list event) (p : Page) : Page :=
  fold_left (fun p e => page_step e p) es p.

End HostPage.

(** The page when the script is loaded: the game's variables as
    initialised, whatever the storage holds and the document shows. *)
Definition initial_page (stored : option Z) (shown : Panel) : Page :=
  {| game := initial; bestLevel := stored; panel := shown |}.

(** A display showing nothing yet. *)
Definition blank_panel : Panel :=
  {| levelSpan := 0; scoreSpan := 0; bestSpan := 0; timeLabel := 0;
     timerBar := 0 |}.

(** The debug buttons that the script creates are those of levels 1 to 6. *)
Definition button_exists (e : event) : Prop :=
  match e with
  | click_debugLevel level _ => (1 <= level <= 6)%Z
  | _ => True
  end.


(** * The first version of the game

    The second script of script.js is the game as it was first written:
    a start, a pause and a restart button, levels that follow one another
    without a stop, and plain, armored and drifting circles only.  It is
    modelled in the same way, in a module of its own.  Its host keeps the
    tables of pending timeouts and of requested frames entry by entry,
    each under its id: [setTimeout] and [requestAnimationFrame] enter a
    callback under a fresh id, [clearTimeout] and [cancelAnimationFrame]
    remove the entry with the id they are given, and every entry of a
    table can fire, whether or not the script still holds its id.  The
    display, the state of the buttons and the [alert] of [gameOver] are
    left out. *)

Module Legacy.

(** A circle object; [element] is the node of its DOM element, which
    tells the objects apart. *)
Record Circle : Set := {
  element : nat;
  x : Q;
  y : Q;
  radius : Q;
  growth : Q;
  clicks : Z;
  driftX : Q;
  driftY : Q
}.

(** The module-level variables, followed by the host's tables: the
    pending timeouts with their delays, the requested frames, and the
    numbers of ids, of elements and of calls of [Math.random] handed out
    so far. *)
Record Game : Set := {
  circles : list Circle;
  spawnTimeoutId : option nat;
  animationFrameId : option nat;
  gameRunning : bool;
  paused : bool;
  currentLevel : Z;
  timeLeft : Q;
  spawnInterval : Q;
  spawnAcceleration : Q;
  lastUpdateTime : Q;
  timeouts : list (nat * Q);
  frames : list nat;
  timeoutIds : nat;
  frameIds : nat;
  elements : nat;
  randomCalls : nat
}.

(** The variables as initialised when the script is loaded. *)
Definition initial : Game := {|
  circles := [];
  spawnTimeoutId := None;
  animationFrameId := None;
  gameRunning := false;
  paused := false;
  currentLevel := 1;
  timeLeft := 30;
  spawnInterval := 2000;
  spawnAcceleration := 0.9;
  lastUpdateTime := 0;
  timeouts := [];
  frames := [];
  timeoutIds := 0;
  frameIds := 0;
  elements := 0;
  randomCalls := 0
|}.

(** *** Assignments to single fields *)

Definition set_x (v : Q) (c : Circle) : Circle :=
  {| element := element c; x := v; y := y c; radius := radius c;
     growth := growth c; clicks := clicks c; driftX := driftX c;
     driftY := driftY c |}.

Definition set_y (v : Q) (c : Circle) : Circle :=
  {| element := element c; x := x c; y := v; radius := radius c;
     growth := growth c; clicks := clicks c; driftX := driftX c;
     driftY := driftY c |}.

Definition set_radius (v : Q) (c : Circle) : Circle :=
  {| element := element c; x := x c; y := y c; radius := v;
     growth := growth c; clicks := clicks c; driftX := driftX c;
     driftY := driftY c |}.

Definition set_clicks (v : Z) (c : Circle) : Circle :=
  {| element := element c; x := x c; y := y c; radius := radius c;
     growth := growth c; clicks := v; driftX := driftX c;
     driftY := driftY c |}.

Definition set_driftX (v : Q) (c : Circle) : Circle :=
  {| element := element c; x := x c; y := y c; radius := radius c;
     growth := growth c; clicks := clicks c; driftX := v;
     driftY := driftY c |}.

Definition set_driftY (v : Q) (c : Circle) : Circle :=
  {| element := element c; x := x c; y := y c; radius := radius c;
     growth := growth c; clicks := clicks c; driftX := driftX c;
     driftY := v |}.

Definition set_circles (v : list Circle) (g : Game) : Game :=
  {| circles := v; spawnTimeoutId := spawnTimeoutId g;
     animationFrameId := animationFrameId g; gameRunning := gameRunning g;
     paused := paused g; currentLevel := currentLevel g;
     timeLeft := timeLeft g; spawnInterval := spawnInterval g;
     spawnAcceleration := spawnAcceleration g;
     lastUpdateTime := lastUpdateTime g; timeouts := timeouts g;
     frames := frames g; timeoutIds := timeoutIds g; frameIds := frameIds g;
     elements := elements g; randomCalls := randomCalls g |}.

Definition set_spawnTimeoutId (v : option nat) (g : Game) : Game :=
  {| circles := circles g; spawnTimeoutId := v;
     animationFrameId := animationFrameId g; gameRunning := gameRunning g;
     paused := paused g; currentLevel := currentLevel g;
     timeLeft := timeLeft g; spawnInterval := spawnInterval g;
     spawnAcceleration := spawnAcceleration g;
     lastUpdateTime := lastUpdateTime g; timeouts := timeouts g;
     frames := frames g; timeoutIds := timeoutIds g; frameIds := frameIds g;
     elements := elements g; randomCalls := randomCalls g |}.

Definition set_animationFrameId (v : option nat) (g : Game) : Game :=
  {| circles := circles g; spawnTimeoutId := spawnTimeoutId g;
     animationFrameId := v; gameRunning := gameRunning g; paused := paused g;
     currentLevel := currentLevel g; timeLeft := timeLeft g;
     spawnInterval := spawnInterval g;
     spawnAcceleration := spawnAcceleration g;
     lastUpdateTime := lastUpdateTime g; timeouts := timeouts g;
     frames := frames g; timeoutIds := timeoutIds g; frameIds := frameIds g;
     elements := elements g; randomCalls := randomCalls g |}.

Definition set_gameRunning (v : bool) (g : Game) : Game :=
  {| circles := circles g; spawnTimeoutId := spawnTimeoutId g;
     animationFrameId := animationFrameId g; gameRunning := v;
     paused := paused g; currentLevel := currentLevel g;
     timeLeft := timeLeft g; spawnInterval := spawnInterval g;
     spawnAcceleration := spawnAcceleration g;
     lastUpdateTime := lastUpdateTime g; timeouts := timeouts g;
     frames := frames g; timeoutIds := timeoutIds g; frameIds := frameIds g;
     elements := elements g; randomCalls := randomCalls g |}.

Definition set_paused (v : bool) (g : Game) : Game :=
  {| circles := circles g; spawnTimeoutId := spawnTimeoutId g;
     animationFrameId := animationFrameId g; gameRunning := gameRunning g;
     paused := v; currentLevel := currentLevel g; timeLeft := timeLeft g;
     spawnInterval := spawnInterval g;
     spawnAcceleration := spawnAcceleration g;
     lastUpdateTime := lastUpdateTime g; timeouts := timeouts g;
     frames := frames g; timeoutIds := timeoutIds g; frameIds := frameIds g;
     elements := elements g; randomCalls := randomCalls g |}.

Definition set_currentLevel (v : Z) (g : Game) : Game :=
  {| circles := circles g; spawnTimeoutId := spawnTimeoutId g;
     animationFrameId := animationFrameId g; gameRunning := gameRunning g;
     paused := paused g; currentLevel := v; timeLeft := timeLeft g;
     spawnInterval := spawnInterval g;
     spawnAcceleration := spawnAcceleration g;
     lastUpdateTime := lastUpdateTime g; timeouts := timeouts g;
     frames := frames g; timeoutIds := timeoutIds g; frameIds := frameIds g;
     elements := elements g; randomCalls := randomCalls g |}.

Definition set_timeLeft (v : Q) (g : Game) : Game :=
  {| circles := circles g; spawnTimeoutId := spawnTimeoutId g;
     animationFrameId := animationFrameId g; gameRunning := gameRunning g;
     paused := paused g; currentLevel := currentLevel g; timeLeft := v;
     spawnInterval := spawnInterval g;
     spawnAcceleration := spawnAcceleration g;
     lastUpdateTime := lastUpdateTime g; timeouts := timeouts g;
     frames := frames g; timeoutIds := timeoutIds g; frameIds := frameIds g;
     elements := elements g; randomCalls := randomCalls g |}.

Definition set_spawnInterval (v : Q) (g : Game) : Game :=
  {| circles := circles g; spawnTimeoutId := spawnTimeoutId g;
     animationFrameId := animationFrameId g; gameRunning := gameRunning g;
     paused := paused g; currentLevel := currentLevel g;
     timeLeft := timeLeft g; spawnInterval := v;
     spawnAcceleration := spawnAcceleration g;
     lastUpdateTime := lastUpdateTime g; timeouts := timeouts g;
     frames := frames g; timeoutIds := timeoutIds g; frameIds := frameIds g;
     elements := elements g; randomCalls := randomCalls g |}.

Definition set_spawnAcceleration (v : Q) (g : Game) : Game :=
  {| circles := circles g; spawnTimeoutId := spawnTimeoutId g;
     animationFrameId := animationFrameId g; gameRunning := gameRunning g;
     paused := paused g; currentLevel := currentLevel g;
     timeLeft := timeLeft g; spawnInterval := spawnInterval g;
     spawnAcceleration := v; lastUpdateTime := lastUpdateTime g;
     timeouts := timeouts g; frames := frames g; timeoutIds := timeoutIds g;
     frameIds := frameIds g; elements := elements g;
     randomCalls := randomCalls g |}.

Definition set_lastUpdateTime (v : Q) (g : Game) : Game :=
  {| circles := circles g; spawnTimeoutId := spawnTimeoutId g;
     animationFrameId := animationFrameId g; gameRunning := gameRunning g;
     paused := paused g; currentLevel := currentLevel g;
     timeLeft := timeLeft g; spawnInterval := spawnInterval g;
     spawnAcceleration := spawnAcceleration g; lastUpdateTime := v;
     timeouts := timeouts g; frames := frames g; timeoutIds := timeoutIds g;
     frameIds := frameIds g; elements := elements g;
     randomCalls := randomCalls g |}.

Definition set_timeouts (v : list (nat * Q)) (g : Game) : Game :=
  {| circles := circles g; spawnTimeoutId := spawnTimeoutId g;
     animationFrameId := animationFrameId g; gameRunning := gameRunning g;
     paused := paused g; currentLevel := currentLevel g;
     timeLeft := timeLeft g; spawnInterval := spawnInterval g;
     spawnAcceleration := spawnAcceleration g;
     lastUpdateTime := lastUpdateTime g; timeouts := v; frames := frames g;
     timeoutIds := timeoutIds g; frameIds := frameIds g;
     elements := elements g; randomCalls := randomCalls g |}.

Definition set_frames (v : list nat) (g : Game) : Game :=
  {| circles := circles g; spawnTimeoutId := spawnTimeoutId g;
     animationFrameId := animationFrameId g; gameRunning := gameRunning g;
     paused := paused g; currentLevel := currentLevel g;
     timeLeft := timeLeft g; spawnInterval := spawnInterval g;
     spawnAcceleration := spawnAcceleration g;
     lastUpdateTime := lastUpdateTime g; timeouts := timeouts g; frames := v;
     timeoutIds := timeoutIds g; frameIds := frameIds g;
     elements := elements g; randomCalls := randomCalls g |}.

Definition set_timeoutIds (v : nat) (g : Game) : Game :=
  {| circles := circles g; spawnTimeoutId := spawnTimeoutId g;
     animationFrameId := animationFrameId g; gameRunning := gameRunning g;
     paused := paused g; currentLevel := currentLevel g;
     timeLeft := timeLeft g; spawnInterval := spawnInterval g;
     spawnAcceleration := spawnAcceleration g;
     lastUpdateTime := lastUpdateTime g; timeouts := timeouts g;
     frames := frames g; timeoutIds := v; frameIds := frameIds g;
     elements := elements g; randomCalls := randomCalls g |}.

Definition set_frameIds (v : nat) (g : Game) : Game :=
  {| circles := circles g; spawnTimeoutId := spawnTimeoutId g;
     animationFrameId := animationFrameId g; gameRunning := gameRunning g;
     paused := paused g; currentLevel := currentLevel g;
     timeLeft := timeLeft g; spawnInterval := spawnInterval g;
     spawnAcceleration := spawnAcceleration g;
     lastUpdateTime := lastUpdateTime g; timeouts := timeouts g;
     frames := frames g; timeoutIds := timeoutIds g; frameIds := v;
     elements := elements g; randomCalls := randomCalls g |}.

Definition set_elements (v : nat) (g : Game) : Game :=
  {| circles := circles g; spawnTimeoutId := spawnTimeoutId g;
     animationFrameId := animationFrameId g; gameRunning := gameRunning g;
     paused := paused g; currentLevel := currentLevel g;
     timeLeft := timeLeft g; spawnInterval := spawnInterval g;
     spawnAcceleration := spawnAcceleration g;
     lastUpdateTime := lastUpdateTime g; timeouts := timeouts g;
     frames := frames g; timeoutIds := timeoutIds g; frameIds := frameIds g;
     elements := v; randomCalls := randomCalls g |}.

Definition set_randomCalls (v : nat) (g : Game) : Game :=
  {| circles := circles g; spawnTimeoutId := spawnTimeoutId g;
     animationFrameId := animationFrameId g; gameRunning := gameRunning g;
     paused := paused g; currentLevel := currentLevel g;
     timeLeft := timeLeft g; spawnInterval := spawnInterval g;
     spawnAcceleration := spawnAcceleration g;
     lastUpdateTime := lastUpdateTime g; timeouts := timeouts g;
     frames := frames g; timeoutIds := timeoutIds g; frameIds := frameIds g;
     elements := elements g; randomCalls := v |}.

(** ** Arrays of circle objects *)

Definition same_object (c d : Circle) : bool :=
  Nat.eqb (element c) (element d).

(** [circles.indexOf(circle)] *)
Fixpoint indexOf (circle : Circle) (l : list Circle) : option nat :=
  match l with
  | [] => None
  | c :: l' =>
      if same_object c circle then Some O
      else match indexOf circle l' with
           | Some i => Some (S i)
           | None => None
           end
  end.

(** [circles.splice(idx, 1)] *)
Fixpoint splice1 (idx : nat) (l : list Circle) : list Circle :=
  match l, idx with
  | [], _ => []
  | _ :: l', O => l'
  | c :: l', S i => c :: splice1 i l'
  end.

(** The object at position [idx] after its fields have been assigned to. *)
Fixpoint assign (idx : nat) (c : Circle) (l : list Circle) : list Circle :=
  match l, idx with
  | [], _ => []
  | _ :: l', O => c :: l'
  | d :: l', S i => d :: assign i c l'
  end.

(** ** The host's timers and frame requests *)

(** [setTimeout(callback, delay)]: the id of the new timeout. *)
Definition setTimeout (delay : Q) (g : Game) : nat * Game :=
  let id := timeoutIds g in
  (id, set_timeoutIds (S id) (set_timeouts (timeouts g ++ [(id, delay)]) g)).

(** [clearTimeout(id)]; [null] and the ids of timeouts that have fired or
    were cleared before are ignored. *)
Definition clearTimeout (id : option nat) (g : Game) : Game :=
  match id with
  | Some i =>
      set_timeouts (filter (fun t => negb (Nat.eqb (fst t) i)) (timeouts g)) g
  | None => g
  end.

(** [requestAnimationFrame(update)]: the id of the request. *)
Definition requestAnimationFrame (g : Game) : nat * Game :=
  let id := frameIds g in
  (id, set_frameIds (S id) (set_frames (frames g ++ [id]) g)).

(** [cancelAnimationFrame(id)] *)
Definition cancelAnimationFrame (id : option nat) (g : Game) : Game :=
  match id with
  | Some i => set_frames (filter (fun f => negb (Nat.eqb f i)) (frames g)) g
  | None => g
  end.

(** ** Operations that do not consult the host's generator *)

Definition resetGame (g : Game) : Game :=
  let g := set_circles [] g in
  let g := set_timeLeft 30 g in
  let g := set_currentLevel 1 g in
  let g := set_spawnInterval 2000 g in
  set_spawnAcceleration 0.9 g.

(** [spawnNext]: hands the callback to [setTimeout] with the current
    [spawnInterval] and keeps the id. *)
Definition spawnNext (g : Game) : Game :=
  let (id, g) := setTimeout (spawnInterval g) g in
  set_spawnTimeoutId (Some id) g.

(** [animationFrameId = requestAnimationFrame(update)] *)
Definition requestUpdate (g : Game) : Game :=
  let (id, g) := requestAnimationFrame g in
  set_animationFrameId (Some id) g.

Definition removeCircle (circle : Circle) (g : Game) : Game :=
  match indexOf circle (circles g) with
  | Some idx => set_circles (splice1 idx (circles g)) g
  | None => g
  end.

(** [now] is the reading of [performance.now()]. *)
Definition levelComplete (now : Q) (g : Game) : Game :=
  let g := clearTimeout (spawnTimeoutId g) g in
  let g := cancelAnimationFrame (animationFrameId g) g in
  let g := set_circles [] g in
  let g := set_currentLevel (currentLevel g + 1) g in
  let g := set_timeLeft 30 g in
  let g := set_spawnInterval (2000 * Qpower 0.9 (currentLevel g - 1)) g in
  let g := set_spawnAcceleration 0.9 g in
  let g := set_lastUpdateTime now g in
  let g := spawnNext g in
  requestUpdate g.

Definition gameOver (g : Game) : Game :=
  let g := set_gameRunning false g in
  let g := clearTimeout (spawnTimeoutId g) g in
  let g := cancelAnimationFrame (animationFrameId g) g in
  set_circles [] g.

(** *** The frame callback *)

Definition grow_and_move (dt : Q) (circle : Circle) : Circle :=
  let circle := set_radius (radius circle + growth circle * dt) circle in
  let circle := set_x (x circle + driftX circle * dt) circle in
  set_y (y circle + driftY circle * dt) circle.

Definition bounce_x (rect : Rect) (circle : Circle) : Circle :=
  if Qlt_bool (x circle - radius circle) 0 then
    set_driftX (Qabs (driftX circle)) (set_x (radius circle) circle)
  else if Qlt_bool (width rect) (x circle + radius circle) then
    set_driftX (- Qabs (driftX circle)) (set_x (width rect - radius circle) circle)
  else circle.

Definition bounce_y (rect : Rect) (circle : Circle) : Circle :=
  if Qlt_bool (y circle - radius circle) 0 then
    set_driftY (Qabs (driftY circle)) (set_y (radius circle) circle)
  else if Qlt_bool (height rect) (y circle + radius circle) then
    set_driftY (- Qabs (driftY circle)) (set_y (height rect - radius circle) circle)
  else circle.

Definition bounce (rect : Rect) (circle : Circle) : Circle :=
  if negb (Qeq_bool (driftX circle) 0) || negb (Qeq_bool (driftY circle) 0)
  then bounce_y rect (bounce_x rect circle)
  else circle.

Inductive body_result : Set :=
| next_index (g : Game)
| returned (g : Game).

(** The body of [for (const circle of circles)] for the object found at
    [index]. *)
Definition update_circle (dt : Q) (rect : Rect) (maxR : Q)
    (index : nat) (circle : Circle) (g : Game) : body_result :=
  let circle := grow_and_move dt circle in
  let circle := bounce rect circle in
  let g := set_circles (assign index circle (circles g)) g in
  if Qle_bool maxR (radius circle) then returned (gameOver g)
  else next_index g.

Inductive loop_result : Set :=
| loop_done (g : Game)
| loop_returned (g : Game)
| loop_unfinished.

(** [for (const circle of circles)], by index as the array iterator
    goes; [fuel] bounds the number of turns, and [update] passes the
    length of the array. *)
Fixpoint update_circles (fuel : nat) (dt : Q) (rect : Rect) (maxR : Q)
    (index : nat) (g : Game) : loop_result :=
  match nth_error (circles g) index with
  | None => loop_done g
  | Some circle =>
      match fuel with
      | O => loop_unfinished
      | S fuel' =>
          match update_circle dt rect maxR index circle g with
          | next_index g' => update_circles fuel' dt rect maxR (S index) g'
          | returned g' => loop_returned g'
          end
      end
  end.

(** [update(timestamp)]; [now] is what [performance.now()] reads should
    [levelComplete] be called. *)
Definition update (timestamp now : Q) (rect : Rect) (g : Game)
  : outcome * Game :=
  if negb (gameRunning g) then (not_running, g)
  else if paused g then (frame_paused, requestUpdate g)
  else
    let dt := (timestamp - lastUpdateTime g) / 1000 in
    let g := set_lastUpdateTime timestamp g in
    let g := set_timeLeft (timeLeft g - dt) g in
    if Qle_bool (timeLeft g) 0 then (level_completed, levelComplete now g)
    else
      let maxR := Qmin (width rect) (height rect) / 2 in
      match update_circles (length (circles g)) dt rect maxR 0 g with
      | loop_done g' => (frame_done, requestUpdate g')
      | loop_returned g' => (game_over, g')
      | loop_unfinished => (frame_unfinished, g)
      end.

(** *** The buttons *)

Definition startBtn_click (now : Q) (g : Game) : Game :=
  if gameRunning g then g
  else
    let g := resetGame g in
    let g := set_gameRunning true g in
    let g := set_paused false g in
    let g := set_lastUpdateTime now g in
    let g := spawnNext g in
    requestUpdate g.

Definition pauseBtn_click (now : Q) (g : Game) : Game :=
  if negb (gameRunning g) then g
  else
    let g := set_paused (negb (paused g)) g in
    if paused g then
      let g := clearTimeout (spawnTimeoutId g) g in
      cancelAnimationFrame (animationFrameId g) g
    else
      let g := set_lastUpdateTime now g in
      let g := spawnNext g in
      requestUpdate g.

Definition restartBtn_click (g : Game) : Game :=
  if negb (gameRunning g) then g
  else
    let g := clearTimeout (spawnTimeoutId g) g in
    let g := cancelAnimationFrame (animationFrameId g) g in
    let g := set_gameRunning false g in
    let g := set_paused false g in
    resetGame g.

(** The click listener of a circle's element, for the circle object it
    closes over, found at [index] of the array. *)
Definition circle_click (circle : Circle) (index : nat) (g : Game) : Game :=
  if negb (gameRunning g) || paused g then g
  else if (1 <? clicks circle)%Z then
    set_circles
      (assign index (set_clicks (clicks circle - 1) circle) (circles g)) g
  else removeCircle circle g.

(** Position of the circle whose element is node [n], with the circle. *)
Fixpoint lookup_node (n : nat) (l : list Circle) : option (nat * Circle) :=
  match l with
  | [] => None
  | c :: l' =>
      if Nat.eqb (element c) n then Some (O, c)
      else match lookup_node n l' with
           | Some (i, d) => Some (S i, d)
           | None => None
           end
  end.

(** A click on the element with node [n].  Elements of removed circles
    are no longer in the document and receive no clicks. *)
Definition element_click (n : nat) (g : Game) : Game :=
  match lookup_node n (circles g) with
  | None => g
  | Some (index, circle) => circle_click circle index g
  end.

(** ** Operations that consult the host's generator *)

Section Host.

Variable Math_random : nat -> Q.
Variable Math_PI : Q.
Variables Math_cos Math_sin : Q -> Q.

(** The circle object built by [spawnCircle] at level [level] around the
    element with node [elem]. *)
Definition spawnCircle_object (rect : Rect) (level : Z) (elem : nat)
  : rnd Circle :=
  let initialRadius := 15 in
  u <- random Math_random ;;
  let x := u * (width rect - initialRadius * 2) + initialRadius in
  v <- random Math_random ;;
  let y := v * (height rect - initialRadius * 2) + initialRadius in
  let circle :=
    {| element := elem; x := x; y := y; radius := initialRadius;
       growth := 20; clicks := 1; driftX := 0; driftY := 0 |} in
  isArmored <- and_then (2 <=? level)%Z (chance Math_random 0.2) ;;
  let circle := if isArmored then set_clicks 2 circle else circle in
  isDrifter <- and_then (3 <=? level)%Z (chance Math_random 0.5) ;;
  if isDrifter then
    a <- random Math_random ;;
    let angle := a * Math_PI * 2 in
    let speed := 40 in
    ret (set_driftY (Math_sin angle * speed)
           (set_driftX (Math_cos angle * speed) circle))
  else ret circle.

Definition spawnCircle (rect : Rect) (g : Game) : Game :=
  let elem := elements g in
  let g := set_elements (S (elements g)) g in
  let (circle, n) :=
    spawnCircle_object rect (currentLevel g) elem (randomCalls g) in
  let g := set_randomCalls n g in
  set_circles (circles g ++ [circle]) g.

(** The callback that [spawnNext] hands to [setTimeout]. *)
Definition spawnNext_timeout (rect : Rect) (g : Game) : Game :=
  let g := spawnCircle rect g in
  let g := set_spawnInterval (spawnInterval g * spawnAcceleration g) g in
  let g := set_spawnInterval (Qmax (spawnInterval g) 300) g in
  spawnNext g.

(** ** The event loop *)

(** What the host can deliver: the timeout or the frame request with a
    given id, and the player's clicks. *)
Inductive event : Set :=
| timeout_fires (id : nat) (rect : Rect)
| frame (id : nat) (timestamp now : Q) (rect : Rect)
| click_element (n : nat)
| click_start (now : Q)
| click_pause (now : Q)
| click_restart.

(** A callback runs when its entry is in the host's table, and the entry
    leaves the table as it runs. *)
Definition step (e : event) (g : Game) : Game :=
  match e with
  | timeout_fires id rect =>
      if existsb (fun t => Nat.eqb (fst t) id) (timeouts g)
      then spawnNext_timeout rect (clearTimeout (Some id) g)
      else g
  | frame id timestamp now rect =>
      if existsb (Nat.eqb id) (frames g)
      then snd (update timestamp now rect (cancelAnimationFrame (Some id) g))
      else g
  | click_element n => element_click n g
  | click_start now => startBtn_click now g
  | click_pause now => pauseBtn_click now g
  | click_restart => restartBtn_click g
  end.

Definition run (es : list event) (g : Game) : Game :=
  fold_left (fun g e => step e g) es g.

End Host.

(** ** Auxiliary notions for the statements *)

(** The spawn chain and the frame loop are single and the script holds
    their ids: while the game runs and is not paused, one timeout is
    pending, with the current [spawnInterval] as its delay, and one frame
    is requested; otherwise nothing is pending. *)
Definition one_chain (g : Game) : Prop :=
  if gameRunning g && negb (paused g) then
    (exists id, timeouts g = [(id, spawnInterval g)]
                /\ spawnTimeoutId g = Some id) /\
    (exists id, frames g = [id] /\ animationFrameId g = Some id)
  else timeouts g = [] /\ frames g = [].

(** The pace of the spawns is within its bounds: the level is 1 or more,
    the acceleration is 0.9, and the spawn interval is positive, at most
    2000 and, up to level 19, at least 300. *)
Definition paced (g : Game) : Prop :=
  (1 <= currentLevel g)%Z /\ spawnAcceleration g = 0.9 /\
  0 < spawnInterval g /\ spawnInterval g <= 2000 /\
  ((currentLevel g <= 19)%Z -> 300 <= spawnInterval g).

(** What a turn of the loop makes of a circle: grown, moved, bounced. *)
Definition advance (dt : Q) (rect : Rect) (c : Circle) : Circle :=
  bounce rect (grow_and_move dt c).

(** The rules of [spawnCircle] for the circle spawned at level [level]
    when [n] calls of [Math.random] have been made: two rolls place it; at
    level 2 or more a roll below 0.2 armors it; at level 3 or more a
    further roll below 0.5 makes it drift, in the direction given by one
    more roll, at speed 40.  The result comes with the number of calls
    made afterwards. *)
Definition spawn_rules (Math_random : nat -> Q) (Math_PI : Q)
    (Math_cos Math_sin : Q -> Q) (rect : Rect) (level : Z) (elem : nat)
    (n : nat) : Circle * nat :=
  let at_drifter := (n + 2 + rolls (2 <=? level)%Z)%nat in
  let isArmored := (2 <=? level)%Z && Qlt_bool (Math_random (n + 2)%nat) 0.2 in
  let isDrifter := (3 <=? level)%Z && Qlt_bool (Math_random at_drifter) 0.5 in
  let angle := Math_random (S at_drifter) * Math_PI * 2 in
  ({| element := elem;
      x := Math_random n * (width rect - 15 * 2) + 15;
      y := Math_random (S n) * (height rect - 15 * 2) + 15;
      radius := 15;
      growth := 20;
      clicks := if isArmored then 2 else 1;
      driftX := if isDrifter then Math_cos angle * 40 else 0;
      driftY := if isDrifter then Math_sin angle * 40 else 0 |},
   (at_drifter + rolls (3 <=? level)%Z + rolls isDrifter)%nat).

(** A game of level 1 started at time 0 in which the first timeout has
    fired: one circle of radius 15 in the middle of [area]. *)
Definition one_circle : Game :=
  run steady_random 3 along_x_cos along_x_sin
    [click_start 0; timeout_fires 0 area] initial.

(** The radius of [c], grown over [dt], is at or beyond [maxR]. *)
Definition breaches (maxR dt : Q) (c : Circle) : bool :=
  Qle_bool maxR (radius c + growth c * dt).

End Legacy.
(** * Properties *)

(** ** Comparisons *)

Lemma Qlt_bool_iff (a b : Q) : Qlt_bool a b = true <-> a < b.
Proof.
  unfold Qlt_bool. rewrite negb_true_iff. split; intro H.
  - apply Qnot_le_lt. intro L. apply Qle_bool_iff in L. congruence.
  - destruct (Qle_bool b a) eqn:E; [|reflexivity].
    apply Qle_bool_iff in E. exfalso. apply (Qlt_not_le _ _ H E).
Qed.

Lemma Qlt_bool_false (a b : Q) : Qlt_bool a b = false <-> b <= a.
Proof.
  unfold Qlt_bool. rewrite negb_false_iff. apply Qle_bool_iff.
Qed.

Lemma Qle_bool_false (a b : Q) : Qle_bool a b = false <-> b < a.
Proof.
  split; intro H.
  - apply Qnot_le_lt. intro L. apply Qle_bool_iff in L. congruence.
  - destruct (Qle_bool a b) eqn:E; [|reflexivity].
    apply Qle_bool_iff in E. exfalso. apply (Qlt_not_le _ _ H E).
Qed.

(** ** Reading fields of assigned states *)

Ltac game_fields :=
  cbn [circles spawnTimeoutId animationFrameId gameRunning paused currentLevel
       timeLeft baseSpawnInterval spawnInterval spawnAcceleration
       lastUpdateTime score warpActive nextWarpAt warpEndAt resumeAfterHelp
       elements randomCalls lostTimeouts lostFrames
       set_circles set_spawnTimeoutId set_animationFrameId set_gameRunning
       set_paused set_currentLevel set_timeLeft set_baseSpawnInterval
       set_spawnInterval set_spawnAcceleration set_lastUpdateTime set_score
       set_warpActive set_nextWarpAt set_warpEndAt set_resumeAfterHelp
       set_elements set_randomCalls set_lostTimeouts set_lostFrames
       spawnNext clearTimeout cancelAnimationFrame requestAnimationFrame] in *.

Ltac circle_fields :=
  cbn [element x y radius growth clicks driftX driftY type fuseTimeLeft
       set_radius set_x set_y set_clicks set_driftX set_driftY set_type
       set_fuseTimeLeft] in *.

(** ** Arming a timeout and requesting a frame *)

Lemma set_lostTimeouts_same (g : Game) : set_lostTimeouts (lostTimeouts g) g = g.
Proof. destruct g; reflexivity. Qed.

Lemma set_lostFrames_same (g : Game) : set_lostFrames (lostFrames g) g = g.
Proof. destruct g; reflexivity. Qed.

(** With nothing pending under the id that the variable holds, nothing is
    lost. *)
Lemma spawnNext_free (g : Game) :
  spawnTimeoutId g = None ->
  spawnNext g = set_spawnTimeoutId (Some (spawnInterval g)) g.
Proof.
  unfold spawnNext. intros ->. cbv zeta. rewrite set_lostTimeouts_same.
  reflexivity.
Qed.

Lemma requestAnimationFrame_free (g : Game) :
  animationFrameId g = false ->
  requestAnimationFrame g = set_animationFrameId true g.
Proof.
  unfold requestAnimationFrame. intros ->. cbv zeta.
  rewrite set_lostFrames_same. reflexivity.
Qed.

(** Splits on what is pending where a timeout is armed or a frame
    requested. *)
Ltac pending_cases :=
  unfold spawnNext, requestAnimationFrame; cbv zeta;
  repeat match goal with
    | |- context [if animationFrameId ?g then _ else _] =>
        destruct (animationFrameId g)
    | |- context [match spawnTimeoutId ?g with _ => _ end] =>
        destruct (spawnTimeoutId g)
    end.

(** ** The loop of [update] touches the array only *)

Lemma only_circles_refl (g : Game) : only_circles g g.
Proof. destruct g; reflexivity. Qed.

Lemma only_circles_set (l : list Circle) (g : Game) :
  only_circles g (set_circles l g).
Proof. destruct g; reflexivity. Qed.

Lemma only_circles_trans (g1 g2 g3 : Game) :
  only_circles g1 g2 -> only_circles g2 g3 -> only_circles g1 g3.
Proof.
  unfold only_circles. intros H12 H23. rewrite H23, H12.
  destruct g1; reflexivity.
Qed.

Lemma removeCircle_only_circles (c : Circle) (g : Game) :
  only_circles g (removeCircle c g).
Proof.
  unfold removeCircle. destruct (indexOf c (circles g)).
  - apply only_circles_set.
  - apply only_circles_refl.
Qed.

Lemma handleFusePop_only_circles (c : Circle) (isGood : bool) (g : Game) :
  only_circles g (handleFusePop c isGood g).
Proof. apply only_circles_set. Qed.

Lemma gameOver_only_circles (g g' : Game) :
  only_circles g g' -> gameOver g' = gameOver g.
Proof.
  unfold only_circles. intros ->. destruct g; reflexivity.
Qed.

Lemma update_circle_next (dt : Q) (rect : Rect) (maxR : Q) (i : nat)
    (c : Circle) (g g' : Game) :
  update_circle dt rect maxR i c g = next_index g' -> only_circles g g'.
Proof.
  unfold update_circle.
  destruct (fuse_countdown dt (grow_and_move dt c)) as [c' exploded].
  destruct exploded.
  - intros [= <-].
    eapply only_circles_trans; [|apply removeCircle_only_circles].
    eapply only_circles_trans; [|apply handleFusePop_only_circles].
    apply only_circles_set.
  - destruct (Qle_bool maxR (radius (bounce rect c'))); [discriminate|].
    intros [= <-]. apply only_circles_set.
Qed.

Lemma update_circle_returned (dt : Q) (rect : Rect) (maxR : Q) (i : nat)
    (c : Circle) (g g' : Game) :
  update_circle dt rect maxR i c g = returned g' -> g' = gameOver g.
Proof.
  unfold update_circle.
  destruct (fuse_countdown dt (grow_and_move dt c)) as [c' exploded].
  destruct exploded; [discriminate|].
  destruct (Qle_bool maxR (radius (bounce rect c'))); [|discriminate].
  intros [= <-]. apply gameOver_only_circles, only_circles_set.
Qed.

Lemma update_circles_done (fuel : nat) (dt : Q) (rect : Rect) (maxR : Q) :
  forall (i : nat) (g g' : Game),
    update_circles fuel dt rect maxR i g = loop_done g' -> only_circles g g'.
Proof.
  induction fuel as [|fuel IH]; intros i g g'; simpl;
    destruct (nth_error (circles g) i) as [c|];
    try discriminate; try (intros [= <-]; apply only_circles_refl).
  destruct (update_circle dt rect maxR i c g) as [g1|g1] eqn:E; [|discriminate].
  intro H. eapply only_circles_trans.
  - eapply update_circle_next, E.
  - eapply IH, H.
Qed.

Lemma update_circles_returned (fuel : nat) (dt : Q) (rect : Rect) (maxR : Q) :
  forall (i : nat) (g g' : Game),
    update_circles fuel dt rect maxR i g = loop_returned g' -> g' = gameOver g.
Proof.
  induction fuel as [|fuel IH]; intros i g g'; simpl;
    destruct (nth_error (circles g) i) as [c|]; try discriminate.
  destruct (update_circle dt rect maxR i c g) as [g1|g1] eqn:E.
  - intro H. rewrite (IH _ _ _ H).
    apply gameOver_only_circles. eapply update_circle_next, E.
  - intros [= <-]. eapply update_circle_returned, E.
Qed.

(** ** The loop of [update] ends *)

Lemma length_assign (i : nat) (c : Circle) (l : list Circle) :
  length (assign i c l) = length l.
Proof.
  revert i; induction l as [|d l IH]; intros [|i]; simpl; auto.
Qed.

Lemma length_splice1 (i : nat) (l : list Circle) :
  (length (splice1 i l) <= length l)%nat.
Proof.
  revert i; induction l as [|d l IH]; intros [|i]; simpl; auto.
  apply le_n_S, IH.
Qed.

Lemma length_removeCircle (c : Circle) (g : Game) :
  (length (circles (removeCircle c g)) <= length (circles g))%nat.
Proof.
  unfold removeCircle. destruct (indexOf c (circles g)); simpl; auto.
  apply length_splice1.
Qed.

Lemma update_circle_length (dt : Q) (rect : Rect) (maxR : Q) (i : nat)
    (c : Circle) (g g' : Game) :
  update_circle dt rect maxR i c g = next_index g' ->
  (length (circles g') <= length (circles g))%nat.
Proof.
  unfold update_circle.
  destruct (fuse_countdown dt (grow_and_move dt c)) as [c' exploded].
  destruct exploded.
  - intros [= <-]. eapply Nat.le_trans; [apply length_removeCircle|].
    simpl. rewrite length_map, length_assign. auto.
  - destruct (Qle_bool maxR (radius (bounce rect c'))); [discriminate|].
    intros [= <-]. simpl. rewrite length_assign. auto.
Qed.

(** With as many turns as objects from [index] on, the loop reaches its
    end or its [return]. *)
Lemma update_circles_finishes (fuel : nat) (dt : Q) (rect : Rect) (maxR : Q) :
  forall (i : nat) (g : Game),
    (length (circles g) - i <= fuel)%nat ->
    update_circles fuel dt rect maxR i g <> loop_unfinished.
Proof.
  induction fuel as [|fuel IH]; intros i g Hfuel; simpl;
    destruct (nth_error (circles g) i) as [c|] eqn:Hc; try discriminate.
  - assert (Hi : (i < length (circles g))%nat)
      by (apply nth_error_Some; congruence).
    lia.
  - destruct (update_circle dt rect maxR i c g) as [g1|g1] eqn:E;
      [|discriminate].
    apply IH. apply update_circle_length in E. lia.
Qed.

Lemma update_finishes (timestamp : Q) (rect : Rect) (g : Game) :
  fst (update timestamp rect g) <> frame_unfinished.
Proof.
  unfold update.
  destruct (negb (gameRunning g)); [discriminate|].
  destruct (paused g); [discriminate|].
  match goal with |- context [if ?b then _ else _] => destruct b end;
    [discriminate|].
  match goal with |- context [update_circles ?f ?d ?r ?m ?i ?h] =>
    pose proof (update_circles_finishes f d r m i h) as Hfin;
    destruct (update_circles f d r m i h) end;
    try discriminate.
  exfalso. apply Hfin; [lia|reflexivity].
Qed.

(** ** The shape of a frame of a running round *)

Lemma update_running (timestamp : Q) (rect : Rect) (g : Game) :
  gameRunning g = true -> paused g = false ->
  0 < timeLeft g - (timestamp - lastUpdateTime g) / 1000 ->
  (exists l,
      update timestamp rect g =
      (frame_done, requestAnimationFrame (set_circles l (before_loop timestamp g))))
  \/ update timestamp rect g = (game_over, gameOver (before_loop timestamp g)).
Proof.
  intros Hrun Hpaused Htime.
  pose proof (update_finishes timestamp rect g) as Hfin.
  apply Qle_bool_false in Htime.
  unfold update in Hfin |- *. rewrite Hrun in Hfin |- *.
  rewrite Hpaused in Hfin |- *. simpl negb in Hfin |- *.
  cbv beta iota zeta in Hfin |- *.
  change (timeLeft (set_timeLeft ?v ?h)) with v in Hfin |- *.
  change (timeLeft (set_lastUpdateTime ?v ?h)) with (timeLeft h) in Hfin |- *.
  rewrite Htime in Hfin |- *.
  fold (frame_dt timestamp g) in Hfin |- *.
  fold (before_loop timestamp g) in Hfin |- *.
  destruct (update_circles _ _ _ _ _ _) as [g'|g'|] eqn:E.
  - left. exists (circles g').
    apply update_circles_done in E. rewrite <- E. reflexivity.
  - right. apply update_circles_returned in E. rewrite E. reflexivity.
  - exfalso. apply Hfin. reflexivity.
Qed.

(** Fields that neither the loop over the circles nor [gameOver] assigns. *)
Lemma update_running_fields (timestamp : Q) (rect : Rect) (g : Game) :
  gameRunning g = true -> paused g = false ->
  0 < timeLeft g - (timestamp - lastUpdateTime g) / 1000 ->
  let g' := snd (update timestamp rect g) in
  let b := before_loop timestamp g in
  warpActive g' = warpActive b /\ nextWarpAt g' = nextWarpAt b /\
  warpEndAt g' = warpEndAt b /\ spawnInterval g' = spawnInterval b /\
  baseSpawnInterval g' = baseSpawnInterval b /\ timeLeft g' = timeLeft b /\
  score g' = score b /\ currentLevel g' = currentLevel b.
Proof.
  intros Hrun Hpaused Htime.
  destruct (update_running timestamp rect g Hrun Hpaused Htime) as [[l E]|E];
    rewrite E; cbn [snd]; pending_cases; cbn; repeat split; reflexivity.
Qed.

(** ** Time warp *)

(** C8.  In a running round at level 6 or more the time warp is a window
    that opens at [nextWarpAt] and not before.  While the warp is off and
    the elapsed time [30 - timeLeft] is short of [nextWarpAt], a frame
    leaves the warp off and the effective spawn interval as it is; the
    frame at which the elapsed time has reached [nextWarpAt] switches the
    warp on, sets its end to [nextWarpAt + 3] and the effective spawn
    interval to [baseSpawnInterval * 0.5]; while the warp is on and the
    elapsed time is short of [warpEndAt] nothing changes; the frame at
    which the elapsed time has reached [warpEndAt] switches the warp off,
    restores the effective interval to the base interval and moves
    [nextWarpAt] on by 8 from its own value, whatever the elapsed time of
    that frame is.  No frame changes the base interval. *)
Theorem time_warp_window (timestamp : Q) (rect : Rect) (g : Game) :
  gameRunning g = true -> paused g = false -> (6 <= currentLevel g)%Z ->
  0 < timeLeft g - (timestamp - lastUpdateTime g) / 1000 ->
  let elapsed := 30 - (timeLeft g - (timestamp - lastUpdateTime g) / 1000) in
  let g' := snd (update timestamp rect g) in
  (warpActive g = false -> elapsed < nextWarpAt g ->
     warpActive g' = false /\
     warpEndAt g' = warpEndAt g /\
     spawnInterval g' = spawnInterval g /\
     nextWarpAt g' = nextWarpAt g) /\
  (warpActive g = false -> nextWarpAt g <= elapsed ->
     warpActive g' = true /\
     warpEndAt g' = nextWarpAt g + 3 /\
     spawnInterval g' = baseSpawnInterval g * 0.5 /\
     nextWarpAt g' = nextWarpAt g) /\
  (warpActive g = true -> elapsed < warpEndAt g ->
     warpActive g' = true /\
     warpEndAt g' = warpEndAt g /\
     spawnInterval g' = spawnInterval g /\
     nextWarpAt g' = nextWarpAt g) /\
  (warpActive g = true -> warpEndAt g <= elapsed ->
     warpActive g' = false /\
     warpEndAt g' = warpEndAt g /\
     spawnInterval g' = baseSpawnInterval g /\
     nextWarpAt g' = nextWarpAt g + 8) /\
  baseSpawnInterval g' = baseSpawnInterval g.
Proof.
  intros Hrun Hpaused Hlevel Htime elapsed g'.
  destruct (update_running_fields timestamp rect g Hrun Hpaused Htime)
    as (Hw & Hn & He & Hs & Hb & _).
  fold g' in Hw, Hn, He, Hs, Hb. rewrite Hw, Hn, He, Hs, Hb.
  unfold before_loop, update_warp, frame_dt. fold elapsed.
  change (currentLevel (set_timeLeft ?v ?h)) with (currentLevel g).
  apply Z.leb_le in Hlevel. rewrite Hlevel.
  change (warpActive (set_timeLeft ?v ?h)) with (warpActive g).
  change (nextWarpAt (set_timeLeft ?v ?h)) with (nextWarpAt g).
  change (warpEndAt (set_timeLeft ?v ?h)) with (warpEndAt g).
  split; [|split; [|split; [|split]]];
    try (intros Hactive Helapsed; rewrite Hactive; simpl negb; simpl andb).
  - apply Qle_bool_false in Helapsed. rewrite Helapsed.
    repeat apply conj; try reflexivity. exact Hactive.
  - apply Qle_bool_iff in Helapsed. rewrite Helapsed.
    repeat apply conj; reflexivity.
  - apply Qle_bool_false in Helapsed. rewrite Helapsed.
    repeat apply conj; try reflexivity. exact Hactive.
  - apply Qle_bool_iff in Helapsed. rewrite Helapsed.
    repeat apply conj; reflexivity.
  - repeat match goal with |- context [if ?b then _ else _] => destruct b end;
      reflexivity.
Qed.

Lemma time_warp_window_witness :
  let g0 := snd (update 4000 area level6) in
  let g1 := snd (update 8000 area g0) in
  let g2 := snd (update 9000 area g1) in
  let g3 := snd (update 11500 area g2) in
  (warpActive g0 = false /\ warpEndAt g0 = warpEndAt level6 /\
   spawnInterval g0 = spawnInterval level6 /\
   nextWarpAt g0 = nextWarpAt level6) /\
  (warpActive g1 = true /\ warpEndAt g1 = nextWarpAt g0 + 3 /\
   spawnInterval g1 = baseSpawnInterval g0 * 0.5 /\
   nextWarpAt g1 = nextWarpAt g0) /\
  (warpActive g2 = true /\ warpEndAt g2 = warpEndAt g1 /\
   spawnInterval g2 = spawnInterval g1 /\
   nextWarpAt g2 = nextWarpAt g1) /\
  (warpActive g3 = false /\ warpEndAt g3 = warpEndAt g2 /\
   spawnInterval g3 = baseSpawnInterval g2 /\
   nextWarpAt g3 = nextWarpAt g2 + 8).
Proof.
  split; [|split; [|split]].
  - refine (proj1 (time_warp_window 4000 area level6 _ _ _ _) _ _);
      vm_compute; solve [reflexivity | discriminate].
  - refine (proj1 (proj2 (time_warp_window 8000 area
                            (snd (update 4000 area level6)) _ _ _ _)) _ _);
      vm_compute; solve [reflexivity | discriminate].
  - refine (proj1 (proj2 (proj2
              (time_warp_window 9000 area
                 (snd (update 8000 area (snd (update 4000 area level6))))
                 _ _ _ _))) _ _);
      vm_compute; solve [reflexivity | discriminate].
  - refine (proj1 (proj2 (proj2 (proj2
              (time_warp_window 11500 area
                 (snd (update 9000 area
                         (snd (update 8000 area
                                 (snd (update 4000 area level6))))))
                 _ _ _ _)))) _ _);
      vm_compute; solve [reflexivity | discriminate].
Defined.

(** ** The spawn interval *)

Lemma spawnCircle_fields (Math_random : nat -> Q) (Math_PI : Q)
    (Math_cos Math_sin : Q -> Q) (rect : Rect) (g : Game) :
  let g' := spawnCircle Math_random Math_PI Math_cos Math_sin rect g in
  baseSpawnInterval g' = baseSpawnInterval g /\
  spawnInterval g' = spawnInterval g /\
  spawnAcceleration g' = spawnAcceleration g /\
  warpActive g' = warpActive g /\
  gameRunning g' = gameRunning g /\ paused g' = paused g /\
  score g' = score g /\ currentLevel g' = currentLevel g /\
  timeLeft g' = timeLeft g.
Proof.
  unfold spawnCircle.
  destruct (spawnCircle_object _ _ _ _ _ _ _ _) as [c n].
  repeat apply conj; reflexivity.
Qed.

(** C2, as the code has it.  Whatever the state in which the spawn timeout
    fires, afterwards the base interval is at least 300 ms and the next
    timeout is armed with the effective interval: the base interval outside
    a time-warp window, hence at least 300 ms, and the base interval times
    0.5 inside one, hence at least 150 ms (and below 300 ms as soon as the
    base interval is below 600 ms). *)
Theorem spawn_interval_floor (Math_random : nat -> Q) (Math_PI : Q)
    (Math_cos Math_sin : Q -> Q) (rect : Rect) (g : Game) :
  let g' := spawnNext_timeout Math_random Math_PI Math_cos Math_sin rect g in
  MIN_SPAWN_INTERVAL <= baseSpawnInterval g' /\
  spawnTimeoutId g' = Some (spawnInterval g') /\
  warpActive g' = warpActive g /\
  (warpActive g = false ->
     spawnInterval g' = baseSpawnInterval g' /\
     MIN_SPAWN_INTERVAL <= spawnInterval g') /\
  (warpActive g = true ->
     spawnInterval g' = baseSpawnInterval g' * 0.5 /\
     MIN_SPAWN_INTERVAL * 0.5 <= spawnInterval g' /\
     (baseSpawnInterval g' < 600 -> spawnInterval g' < MIN_SPAWN_INTERVAL)).
Proof.
  unfold spawnNext_timeout.
  destruct (spawnCircle_fields Math_random Math_PI Math_cos Math_sin rect g)
    as (_ & _ & _ & Hw & _).
  set (g1 := spawnCircle Math_random Math_PI Math_cos Math_sin rect g) in *.
  clearbody g1.
  destruct g1 as [? pending ? ? ? ? ? ? ? ? ? ? ? ? ? ? ? ? ? ?].
  destruct pending; game_fields; rewrite Hw;
    match goal with |- context [Qmax ?a ?b] =>
      set (base := Qmax a b); assert (Hfloor : MIN_SPAWN_INTERVAL <= base)
        by apply Q.le_max_r end;
    unfold MIN_SPAWN_INTERVAL, timeWarpConfig.factor in *;
    (split; [exact Hfloor|]); (split; [reflexivity|]);
    (split; [reflexivity|]);
    (split; intros Hw'; rewrite Hw'; (split; [reflexivity|]);
     [exact Hfloor | split; [lra|intro; lra]]).
Qed.

Lemma spawn_interval_floor_witness :
  let g' := spawnNext_timeout steady_random 3 along_x_cos along_x_sin area
              (snd (update 8000 area level6)) in
  spawnInterval g' = baseSpawnInterval g' * 0.5 /\
  MIN_SPAWN_INTERVAL * 0.5 <= spawnInterval g' /\
  (baseSpawnInterval g' < 600 -> spawnInterval g' < MIN_SPAWN_INTERVAL).
Proof.
  refine (proj2 (proj2 (proj2 (proj2
            (spawn_interval_floor steady_random 3 along_x_cos along_x_sin area
               (snd (update 8000 area level6)))))) _).
  vm_compute. reflexivity.
Defined.

(** C2, as the spec has it, fails: in the round [warp_spawn_trace] the
    last timeout arms the next one with about 185.3 ms, the base interval
    of about 370.6 ms halved by the open time-warp window. *)
Lemma spawn_interval_below_minimum :
  let g := run steady_random 3 along_x_cos along_x_sin warp_spawn_trace initial in
  gameRunning g = true /\ warpActive g = true /\
  exists delay, spawnTimeoutId g = Some delay /\ delay < MIN_SPAWN_INTERVAL.
Proof.
  vm_compute. repeat apply conj; try reflexivity.
  eexists. split; reflexivity.
Qed.

(** ** Spawning *)

(** C6.  The circle that [spawnCircle] builds is the one the spec's rules
    give: fuse before splitter before the armored and drifter modifiers,
    each behind its level gate and on a roll of its own, and no modifier on
    a fuse or a splitter. *)
Theorem spawn_type_selection (Math_random : nat -> Q) (Math_PI : Q)
    (Math_cos Math_sin : Q -> Q) (rect : Rect) (level : Z) (elem : elem)
    (n : nat) :
  fst (spawnCircle_object Math_random Math_PI Math_cos Math_sin
         rect level elem n)
  = spawn_rules Math_random Math_PI Math_cos Math_sin rect level elem n.
Proof.
  unfold spawnCircle_object, spawn_rules, bind, and_then, chance, random, ret,
    rolls, bind.
  replace (n + 1)%nat with (S n) by lia.
  replace (n + 2 + 0)%nat with (S (S n)) by lia.
  destruct (5 <=? level)%Z, (4 <=? level)%Z, (2 <=? level)%Z, (3 <=? level)%Z;
    cbn [Nat.add andb orb negb fst];
    repeat match goal with
      | |- context [(?a + ?b)%nat] =>
          let t := eval cbn in (a + b)%nat in
          progress change (a + b)%nat with t
      | |- context [(n + ?k)%nat] => 
          progress replace (n + k)%nat with (Nat.iter k S n)
            by (cbn [Nat.iter nat_rect]; lia); cbn [Nat.iter nat_rect]
      end;
    repeat match goal with
      | |- context [Qlt_bool (Math_random ?k) ?p] =>
          destruct (Qlt_bool (Math_random k) p);
          cbn [andb orb negb fst]
      end;
    reflexivity.
Qed.

(** ** Arrays *)

Lemma lookup_node_spec (n : nat) (l : list Circle) :
  forall (i : nat) (c : Circle),
    lookup_node n l = Some (i, c) ->
    nth_error l i = Some c /\ node (element c) = n /\ indexOf c l = Some i.
Proof.
  induction l as [|d l IH]; intros i c; simpl; [discriminate|].
  destruct (Nat.eqb (node (element d)) n) eqn:E.
  - intros [= <- <-]. apply Nat.eqb_eq in E. simpl.
    unfold same_object. rewrite Nat.eqb_refl. auto.
  - destruct (lookup_node n l) as [[j e]|]; [|discriminate].
    intros [= <- <-]. destruct (IH j e eq_refl) as (Hn & He & Hi).
    simpl. unfold same_object. rewrite He, E, Hi. auto.
Qed.

Lemma indexOf_app (c : Circle) (l l' : list Circle) (i : nat) :
  indexOf c l = Some i -> indexOf c (l ++ l') = Some i.
Proof.
  revert i; induction l as [|d l IH]; intros i; simpl; [discriminate|].
  destruct (same_object d c); [auto|].
  destruct (indexOf c l) as [j|]; [|discriminate].
  intros [= <-]. rewrite (IH j eq_refl). reflexivity.
Qed.

Lemma indexOf_length (c : Circle) (l : list Circle) (i : nat) :
  indexOf c l = Some i -> (i < length l)%nat.
Proof.
  revert i; induction l as [|d l IH]; intros i; simpl; [discriminate|].
  destruct (same_object d c).
  - intros [= <-]. lia.
  - destruct (indexOf c l) as [j|]; [|discriminate].
    intros [= <-]. specialize (IH j eq_refl). lia.
Qed.

Lemma splice1_app (i : nat) (l l' : list Circle) :
  (i < length l)%nat -> splice1 i (l ++ l') = splice1 i l ++ l'.
Proof.
  revert i; induction l as [|d l IH]; intros [|i] Hi; simpl in *; try lia.
  - reflexivity.
  - rewrite IH by lia. reflexivity.
Qed.

(** ** Splitters *)

Lemma splitterChild_object_spec (Math_random : nat -> Q) (Math_PI : Q)
    (Math_cos Math_sin : Q -> Q) (parent : Circle) (node : nat) (n : nat) :
  let childElem := {| node := node; onclick := childListener |} in
  let r := splitterChild_object Math_random Math_PI Math_cos Math_sin
             parent childElem n in
  splitter_child Math_random Math_PI Math_cos Math_sin parent (fst r) (S n) /\
  (n < snd r)%nat.
Proof.
  intros childElem r. subst r childElem. unfold splitter_child.
  cbv [splitterChild_object bind chance random ret].
  destruct (Qlt_bool (Math_random (S n)) 0.5) eqn:E; cbn [fst snd];
    circle_fields.
  - apply Qlt_bool_iff in E.
    repeat apply conj;
      try solve [ reflexivity | lia | auto | apply Q.le_max_l
                | intro H; apply Q.max_lub; [exact H|apply Qle_refl]
                | split; auto
                | intro H; exfalso; apply (Qlt_not_le _ _ E H) ].
  - apply Qlt_bool_false in E.
    repeat apply conj;
      try solve [ reflexivity | lia | auto | apply Q.le_max_l
                | intro H; apply Q.max_lub; [exact H|apply Qle_refl]
                | discriminate
                | intro H; exfalso; apply (Qlt_not_le _ _ H E) ].
Qed.

Lemma pushSplitterChild_spec (Math_random : nat -> Q) (Math_PI : Q)
    (Math_cos Math_sin : Q -> Q) (parent : Circle) (g : Game) :
  exists (child : Circle) (n : nat),
    pushSplitterChild Math_random Math_PI Math_cos Math_sin parent g
    = set_circles (circles g ++ [child])
        (set_randomCalls n (set_elements (S (elements g)) g)) /\
    splitter_child Math_random Math_PI Math_cos Math_sin parent child
      (S (randomCalls g)) /\
    (randomCalls g < n)%nat.
Proof.
  pose proof (splitterChild_object_spec Math_random Math_PI Math_cos Math_sin
                parent (elements g) (randomCalls g)) as H.
  cbv zeta in H. unfold pushSplitterChild. game_fields.
  destruct (splitterChild_object Math_random Math_PI Math_cos Math_sin parent
              {| node := elements g; onclick := childListener |}
              (randomCalls g)) as [child n].
  exists child, n. cbn [fst snd] in H. destruct H as [Hchild Hn].
  split; [reflexivity|split; [exact Hchild|exact Hn]].
Qed.

(** ** Pause and resume *)

(** C7, as the code has it.  The pause command is a toggle: from a running
    round the first command pauses (both callbacks disarmed, nothing else
    changed) and the second one resumes: the round is running again, the
    frame clock is re-anchored at the time of the command, the spawn timeout
    is armed afresh with the current interval and a frame is requested;
    circles, timer, score, level, spawn intervals and time-warp state are
    those of the paused state. *)
Theorem pause_twice_resumes (now1 now2 : Q) (g : Game) :
  gameRunning g = true -> paused g = false ->
  let g1 := resumeBtn_click now1 g in
  let g2 := resumeBtn_click now2 g1 in
  g1 = set_animationFrameId false (set_spawnTimeoutId None (set_paused true g)) /\
  g2 = set_animationFrameId true
         (set_spawnTimeoutId (Some (spawnInterval g))
            (set_lastUpdateTime now2 g)).
Proof.
  intros Hrun Hpaused g1 g2. subst g2 g1. unfold resumeBtn_click.
  rewrite Hrun. cbn [negb]. game_fields. rewrite Hpaused. cbn [negb].
  game_fields. rewrite Hrun. cbn [negb].
  destruct g. game_fields. subst. split; reflexivity.
Qed.

Lemma pause_twice_resumes_witness :
  let g := startBtn_click 0 initial in
  let g1 := resumeBtn_click 1000 g in
  let g2 := resumeBtn_click 2000 g1 in
  g1 = set_animationFrameId false (set_spawnTimeoutId None (set_paused true g)) /\
  g2 = set_animationFrameId true
         (set_spawnTimeoutId (Some (spawnInterval g))
            (set_lastUpdateTime 2000 g)).
Proof.
  apply (pause_twice_resumes 1000 2000 (startBtn_click 0 initial));
    reflexivity.
Defined.

(** C7, as the spec has it, fails: a round started at time 0 and given the
    pause command at 1000 ms is paused with both callbacks disarmed; given
    the command again at 2000 ms it is running, with the timeout armed and a
    frame requested. *)
Lemma pause_twice_differs_from_pause_once :
  let g := startBtn_click 0 initial in
  let once := resumeBtn_click 1000 g in
  let twice := resumeBtn_click 2000 once in
  gameRunning g = true /\ paused g = false /\
  paused once = true /\ paused twice = false /\
  spawnTimeoutId once = None /\ spawnTimeoutId twice = Some 2000 /\
  animationFrameId once = false /\ animationFrameId twice = true /\
  twice <> once.
Proof.
  cbv zeta. repeat apply conj; try reflexivity.
  intro H. apply (f_equal paused) in H. discriminate H.
Qed.

(** ** A fuse that runs out *)

Lemma same_object_false (c d : Circle) :
  node (element c) <> node (element d) -> same_object c d = false.
Proof. intro H. apply Nat.eqb_neq, H. Qed.

Lemma nth_error_nodes (l : list Circle) (i : nat) (c : Circle) :
  nth_error l i = Some c -> In (node (element c)) (nodes l).
Proof.
  intro H. apply nth_error_In in H.
  apply (in_map (fun c => node (element c))), H.
Qed.

(** The array after [handleFusePop] and [removeCircle] for the object at
    [i], whose fields were assigned to before. *)
Lemma explode_array (F : Circle -> Circle) (c' : Circle) :
  forall (l : list Circle) (i : nat) (c : Circle),
    NoDup (nodes l) -> nth_error l i = Some c ->
    node (element c') = node (element c) ->
    splice1 i (map (fun d => if same_object d c' then d else F d)
                 (assign i c' l))
    = map F (splice1 i l).
Proof.
  induction l as [|d l IH]; intros [|i] c Hnodup Hnth Hnode;
    simpl in Hnth; try discriminate; inversion Hnodup as [|? ? Hd Hl]; subst.
  - injection Hnth as ->. simpl. apply map_ext_in. intros e He.
    rewrite same_object_false; [reflexivity|].
    rewrite Hnode. intro E. apply Hd. rewrite <- E.
    apply (in_map (fun c => node (element c))), He.
  - simpl. rewrite same_object_false.
    + f_equal. apply (IH i c); assumption.
    + rewrite Hnode. intro E. apply Hd. rewrite E.
      eapply nth_error_nodes, Hnth.
Qed.

Lemma indexOf_assign (c' : Circle) (F : Circle -> Circle)
    (HF : forall d, element (F d) = element d) :
  forall (l : list Circle) (i : nat) (c : Circle),
    NoDup (nodes l) -> nth_error l i = Some c ->
    node (element c') = node (element c) ->
    indexOf c' (map (fun d => if same_object d c' then d else F d)
                  (assign i c' l)) = Some i.
Proof.
  induction l as [|d l IH]; intros [|i] c Hnodup Hnth Hnode;
    simpl in Hnth; try discriminate; inversion Hnodup as [|? ? Hd Hl]; subst.
  - simpl. unfold same_object at 1 2. rewrite Nat.eqb_refl.
    unfold same_object. rewrite Nat.eqb_refl. reflexivity.
  - assert (Hdc : same_object d c' = false).
    { apply same_object_false. rewrite Hnode. intro E. apply Hd. rewrite E.
      eapply nth_error_nodes, Hnth. }
    simpl. rewrite Hdc. rewrite (IH i c Hl Hnth Hnode).
    unfold same_object in *. rewrite HF, Hdc. reflexivity.
Qed.

Lemma handleFusePop_shockwave (c : Circle) (isGood : bool) (g : Game) :
  handleFusePop c isGood g
  = set_circles
      (map (fun d => if same_object d c then d
                     else shockwave (if isGood then 0.8 else 1.2) d)
         (circles g)) g.
Proof. reflexivity. Qed.

Lemma nodes_splice1 (l : list Circle) :
  forall (i : nat) (c : Circle),
    NoDup (nodes l) -> nth_error l i = Some c ->
    ~ In (node (element c)) (nodes (splice1 i l)).
Proof.
  induction l as [|d l IH]; intros [|i] c Hnodup Hnth;
    simpl in Hnth; try discriminate; inversion Hnodup as [|? ? Hd Hl]; subst.
  - injection Hnth as ->. exact Hd.
  - simpl. intros [E|Hin].
    + apply Hd. rewrite E. eapply nth_error_nodes, Hnth.
    + apply (IH i c Hl Hnth Hin).
Qed.

Lemma nodes_map_shockwave (factor : Q) (l : list Circle) :
  nodes (map (shockwave factor) l) = nodes l.
Proof. unfold nodes. rewrite map_map. reflexivity. Qed.

(** No frame adds to the score: it keeps it, or resets it when the level
    is complete. *)
Lemma update_score (timestamp : Q) (rect : Rect) (g : Game) :
  score (snd (update timestamp rect g)) = score g \/
  score (snd (update timestamp rect g)) = 0%Z.
Proof.
  destruct (gameRunning g) eqn:Hrun.
  2: { left. unfold update. rewrite Hrun. reflexivity. }
  destruct (paused g) eqn:Hpaused.
  1: { left. unfold update. rewrite Hrun, Hpaused. cbn [negb snd].
       pending_cases; reflexivity. }
  destruct (Qle_bool (timeLeft g - (timestamp - lastUpdateTime g) / 1000) 0)
    eqn:Htime.
  - right. unfold update. rewrite Hrun, Hpaused. cbn [negb]. cbv zeta.
    change (timeLeft (set_timeLeft ?v ?h)) with v.
    change (timeLeft (set_lastUpdateTime ?v ?h)) with (timeLeft h).
    change (lastUpdateTime (set_lastUpdateTime ?v ?h)) with v.
    rewrite Htime. reflexivity.
  - left. apply Qle_bool_false in Htime.
    destruct (update_running_fields timestamp rect g Hrun Hpaused Htime)
      as (_ & _ & _ & _ & _ & _ & Hs & _).
    rewrite Hs. unfold before_loop, update_warp.
    repeat match goal with |- context [if ?b then _ else _] => destruct b end;
      reflexivity.
Qed.

(** C5.  When the loop of [update] comes to a fuse whose countdown, less
    [dt], is at or below zero, the body removes that fuse from the array,
    applies the shockwave once to every other circle (radius times 1.2, no
    less than 5), leaves the score as it is and goes on to the next index;
    and no frame as a whole ever adds to the score. *)
Theorem fuse_runs_out (dt : Q) (rect : Rect) (maxR : Q) (index : nat)
    (circle : Circle) (g : Game) (f : Q) :
  NoDup (nodes (circles g)) ->
  nth_error (circles g) index = Some circle ->
  type circle = fuse -> fuseTimeLeft circle = Some f -> f - dt <= 0 ->
  (exists g',
      update_circle dt rect maxR index circle g = next_index g' /\
      circles g' = map (shockwave 1.2) (splice1 index (circles g)) /\
      ~ In (node (element circle)) (nodes (circles g')) /\
      score g' = score g /\ gameRunning g' = gameRunning g) /\
  (forall timestamp,
      score (snd (update timestamp rect g)) = score g \/
      score (snd (update timestamp rect g)) = 0%Z).
Proof.
  intros Hnodup Hnth Htype Hfuse Hout.
  split; [|intro; apply update_score].
  unfold update_circle, fuse_countdown, grow_and_move. circle_fields.
  rewrite Htype, Hfuse. cbn [circle_type_eqb].
  apply Qle_bool_iff in Hout. rewrite Hout.
  eexists. split; [reflexivity|].
  rewrite handleFusePop_shockwave. unfold removeCircle. game_fields.
  erewrite indexOf_assign; eauto.
  game_fields.
  erewrite explode_array; eauto.
  repeat apply conj; try reflexivity.
  rewrite nodes_map_shockwave. apply nodes_splice1; assumption.
Qed.

Lemma fuse_runs_out_witness :
  (exists g',
      update_circle 0.1 area 300 0 a_fuse fuse_round = next_index g' /\
      circles g' = map (shockwave 1.2) (splice1 0 (circles fuse_round)) /\
      ~ In (node (element a_fuse)) (nodes (circles g')) /\
      score g' = score fuse_round /\
      gameRunning g' = gameRunning fuse_round) /\
  (forall timestamp,
      score (snd (update timestamp area fuse_round)) = score fuse_round \/
      score (snd (update timestamp area fuse_round)) = 0%Z).
Proof.
  apply (fuse_runs_out 0.1 area 300 0 a_fuse fuse_round 0.1).
  - vm_compute. repeat constructor; cbn; intuition discriminate.
  - vm_compute. reflexivity.
  - reflexivity.
  - reflexivity.
  - vm_compute. discriminate.
Defined.

(** ** One turn of the loop for every circle? *)

(** C3 fails on the code.  In the round [fuse_trace] the first frame comes
    at 3600 ms, so [dt] is 3.6 s.  It finds the fuse at index 0 with its
    countdown of 3.5 s run out and removes it from the array inside the
    loop; the iterator moves on to index 1, where the circle with node 2 now
    is, and the circle with node 1 gets no turn: both plain circles had
    radius 15 and growth 20, and after the frame the one with node 1 has
    15 * 1.2 = 18 (the shockwave alone) while the one with node 2 has
    15 * 1.2 + 20 * 3.6 = 90. *)
Lemma successor_of_removed_fuse_gets_no_turn :
  let g := run fuse_first_random 3 along_x_cos along_x_sin fuse_trace initial in
  let r := update 3600 area g in
  map summary (circles g) = [(0%nat, fuse, 15); (1%nat, normal, 15);
                             (2%nat, normal, 15)] /\
  map growth (circles g) = [20; 20; 20] /\
  gameRunning g = true /\ paused g = false /\ animationFrameId g = true /\
  fst r = frame_done /\
  map summary (circles (snd r)) = [(1%nat, normal, 18); (2%nat, normal, 90)].
Proof. vm_compute. repeat apply conj; reflexivity. Qed.

(** ** The loop when no fuse runs out *)

Lemma skipn_nth_error (l : list Circle) :
  forall (i : nat) (c : Circle),
    nth_error l i = Some c -> skipn i l = c :: skipn (S i) l.
Proof.
  induction l as [|d l IH]; intros [|i] c H; simpl in H; try discriminate.
  - injection H as ->. reflexivity.
  - apply (IH i c H).
Qed.

Lemma skipn_assign (l : list Circle) :
  forall (i : nat) (c : Circle), skipn (S i) (assign i c l) = skipn (S i) l.
Proof.
  induction l as [|d l IH]; intros [|i] c; try reflexivity.
  apply (IH i c).
Qed.

Lemma firstn_assign (l : list Circle) :
  forall (i : nat) (c : Circle),
    (i < length l)%nat -> firstn (S i) (assign i c l) = firstn i l ++ [c].
Proof.
  induction l as [|d l IH]; intros [|i] c H; simpl in H; try lia.
  - reflexivity.
  - change (d :: firstn (S i) (assign i c l) = d :: (firstn i l ++ [c])).
    rewrite IH by lia. reflexivity.
Qed.

Lemma set_circles_twice (l l' : list Circle) (g : Game) :
  set_circles l (set_circles l' g) = set_circles l g.
Proof. reflexivity. Qed.

Lemma set_circles_same (g : Game) : set_circles (circles g) g = g.
Proof. destruct g; reflexivity. Qed.

Lemma radius_bounce (rect : Rect) (c : Circle) :
  radius (bounce rect c) = radius c.
Proof.
  unfold bounce, bounce_y, bounce_x.
  repeat match goal with |- context [if ?b then _ else _] => destruct b end;
    reflexivity.
Qed.

Lemma radius_fuse_countdown (dt : Q) (c : Circle) :
  radius (fst (fuse_countdown dt c)) = radius c.
Proof.
  unfold fuse_countdown.
  destruct (circle_type_eqb (type c) fuse); [|reflexivity].
  destruct (fuseTimeLeft c); reflexivity.
Qed.

Lemma radius_advance (dt : Q) (rect : Rect) (c : Circle) :
  radius (advance dt rect c) = radius c + growth c * dt.
Proof.
  unfold advance. rewrite radius_bounce, radius_fuse_countdown. reflexivity.
Qed.

Lemma circle_type_eqb_fuse (t : circle_type) :
  circle_type_eqb t fuse = true <-> t = fuse.
Proof. destruct t; simpl; split; congruence. Qed.

Lemma fuse_lasts_countdown (dt : Q) (c : Circle) :
  fuse_lasts dt c -> snd (fuse_countdown dt (grow_and_move dt c)) = false.
Proof.
  unfold fuse_lasts, fuse_countdown, grow_and_move. circle_fields.
  intro H. destruct (circle_type_eqb (type c) fuse) eqn:E; [|reflexivity].
  apply circle_type_eqb_fuse in E.
  destruct (fuseTimeLeft c) as [f|]; [|reflexivity].
  cbn [snd]. apply Qle_bool_false. apply (H E f eq_refl).
Qed.

(** A turn of the loop for a circle whose fuse lasts. *)
Lemma update_circle_plain (dt : Q) (rect : Rect) (maxR : Q) (i : nat)
    (c : Circle) (g : Game) :
  fuse_lasts dt c ->
  update_circle dt rect maxR i c g
  = if breaches maxR dt c then returned (gameOver g)
    else next_index (set_circles (assign i (advance dt rect c) (circles g)) g).
Proof.
  intro H. apply fuse_lasts_countdown in H.
  unfold update_circle, breaches. rewrite <- (radius_advance dt rect c).
  unfold advance.
  destruct (fuse_countdown dt (grow_and_move dt c)) as [c' exploded].
  cbn [fst snd] in *. subst exploded.
  destruct (Qle_bool maxR (radius (bounce rect c'))); reflexivity.
Qed.

Lemma update_circles_plain (dt : Q) (rect : Rect) (maxR : Q) (fuel : nat) :
  forall (i : nat) (g : Game),
    (length (circles g) - i <= fuel)%nat ->
    Forall (fuse_lasts dt) (skipn i (circles g)) ->
    update_circles fuel dt rect maxR i g
    = if existsb (breaches maxR dt) (skipn i (circles g))
      then loop_returned (gameOver g)
      else loop_done
             (set_circles
                (firstn i (circles g)
                 ++ map (advance dt rect) (skipn i (circles g))) g).
Proof.
  induction fuel as [|fuel IH]; intros i g Hfuel Hlast.
  - assert (Hlen : (length (circles g) <= i)%nat) by lia.
    assert (Hnone : nth_error (circles g) i = None)
      by (apply nth_error_None; exact Hlen).
    simpl. rewrite Hnone, (skipn_all2 _ Hlen), (firstn_all2 _ Hlen).
    simpl. rewrite app_nil_r, set_circles_same. reflexivity.
  - simpl. destruct (nth_error (circles g) i) as [c|] eqn:Hnth.
    + assert (Hi : (i < length (circles g))%nat)
        by (apply nth_error_Some; congruence).
      rewrite (skipn_nth_error _ _ _ Hnth) in Hlast |- *.
      inversion Hlast as [|? ? Hc Hrest]; subst.
      rewrite (update_circle_plain dt rect maxR i c g Hc).
      cbn [existsb map]. destruct (breaches maxR dt c); [reflexivity|].
      cbn [orb].
      rewrite IH;
        [ | cbn [circles set_circles]; rewrite length_assign; lia
          | cbn [circles set_circles]; rewrite skipn_assign; exact Hrest ].
      cbn [circles set_circles].
      rewrite skipn_assign, firstn_assign by exact Hi.
      destruct (existsb (breaches maxR dt) (skipn (S i) (circles g))).
      * reflexivity.
      * rewrite set_circles_twice, <- app_assoc. reflexivity.
    + assert (Hlen : (length (circles g) <= i)%nat)
        by (apply nth_error_None; exact Hnth).
      rewrite (skipn_all2 _ Hlen), (firstn_all2 _ Hlen).
      simpl. rewrite app_nil_r, set_circles_same. reflexivity.
Qed.

Lemma circles_before_loop (timestamp : Q) (g : Game) :
  circles (before_loop timestamp g) = circles g.
Proof.
  unfold before_loop, update_warp.
  repeat match goal with |- context [if ?b then _ else _] => destruct b end;
    reflexivity.
Qed.

Lemma gameRunning_before_loop (timestamp : Q) (g : Game) :
  gameRunning (before_loop timestamp g) = gameRunning g.
Proof.
  unfold before_loop, update_warp.
  repeat match goal with |- context [if ?b then _ else _] => destruct b end;
    reflexivity.
Qed.

Lemma timeLeft_before_loop (timestamp : Q) (g : Game) :
  timeLeft (before_loop timestamp g) = timeLeft g - frame_dt timestamp g.
Proof.
  unfold before_loop, update_warp.
  repeat match goal with |- context [if ?b then _ else _] => destruct b end;
    reflexivity.
Qed.

(** A frame of a running round in which the timer has run out. *)
Lemma update_level_complete (timestamp : Q) (rect : Rect) (g : Game) :
  gameRunning g = true -> paused g = false ->
  timeLeft g - frame_dt timestamp g <= 0 ->
  update timestamp rect g
  = (level_completed,
     levelComplete
       (set_timeLeft (timeLeft g - frame_dt timestamp g)
          (set_lastUpdateTime timestamp g))).
Proof.
  intros Hrun Hpaused Htime. apply Qle_bool_iff in Htime.
  unfold update. rewrite Hrun, Hpaused. cbn [negb]. cbv zeta.
  change (timeLeft (set_timeLeft ?v ?h)) with v.
  change (timeLeft (set_lastUpdateTime ?v ?h)) with (timeLeft h).
  fold (frame_dt timestamp g). rewrite Htime. reflexivity.
Qed.

(** A frame of a running round in which the timer has not run out and no
    fuse runs out. *)
Lemma update_plain (timestamp : Q) (rect : Rect) (g : Game) :
  gameRunning g = true -> paused g = false ->
  0 < timeLeft g - frame_dt timestamp g ->
  Forall (fuse_lasts (frame_dt timestamp g)) (circles g) ->
  update timestamp rect g
  = if existsb (breaches (lethal_radius rect) (frame_dt timestamp g)) (circles g)
    then (game_over, gameOver (before_loop timestamp g))
    else (frame_done,
          requestAnimationFrame
            (set_circles (map (advance (frame_dt timestamp g) rect) (circles g))
               (before_loop timestamp g))).
Proof.
  intros Hrun Hpaused Htime Hlast. apply Qle_bool_false in Htime.
  unfold update. rewrite Hrun, Hpaused. cbn [negb]. cbv zeta.
  change (timeLeft (set_timeLeft ?v ?h)) with v.
  change (timeLeft (set_lastUpdateTime ?v ?h)) with (timeLeft h).
  fold (frame_dt timestamp g). rewrite Htime.
  fold (before_loop timestamp g). fold (lethal_radius rect).
  rewrite update_circles_plain.
  - rewrite circles_before_loop. cbn [skipn firstn app].
    destruct (existsb _ _); reflexivity.
  - lia.
  - rewrite circles_before_loop. exact Hlast.
Qed.

(** ** Game over *)

(** C1, as the code has it.  In a frame of a running round the timer is
    looked at first: when it has run out the level is complete and no
    radius is compared.  Otherwise, in a frame in which no fuse runs out,
    the round is over exactly when some circle's radius, grown over that
    frame, is at or beyond half the smaller side of the play area as
    measured in that frame; then the round is stopped and the array is
    emptied, and else every circle has had its turn and the round goes on. *)
Theorem game_over_iff_lethal_radius (timestamp : Q) (rect : Rect) (g : Game) :
  gameRunning g = true -> paused g = false ->
  let dt := frame_dt timestamp g in
  let r := update timestamp rect g in
  (timeLeft g - dt <= 0 -> fst r = level_completed) /\
  (0 < timeLeft g - dt -> Forall (fuse_lasts dt) (circles g) ->
     (fst r = game_over <->
      exists c, In c (circles g) /\
                lethal_radius rect <= radius c + growth c * dt) /\
     (fst r = game_over ->
      gameRunning (snd r) = false /\ circles (snd r) = []) /\
     (fst r <> game_over ->
      fst r = frame_done /\ gameRunning (snd r) = true /\
      circles (snd r) = map (advance dt rect) (circles g))).
Proof.
  intros Hrun Hpaused dt r. split.
  - intro Htime. subst r.
    rewrite (update_level_complete timestamp rect g Hrun Hpaused Htime).
    reflexivity.
  - intros Htime Hlast. subst r.
    rewrite (update_plain timestamp rect g Hrun Hpaused Htime Hlast).
    fold dt.
    destruct (existsb (breaches (lethal_radius rect) dt) (circles g)) eqn:E;
      cbn [fst snd].
    + apply existsb_exists in E. destruct E as (c & Hin & Hc).
      apply Qle_bool_iff in Hc.
      split; [|split].
      * split; [intros _; exists c; auto|reflexivity].
      * intros _. split; reflexivity.
      * intro H. exfalso. apply H. reflexivity.
    + split; [|split].
      * split; [discriminate|].
        intros (c & Hin & Hc). apply Qle_bool_iff in Hc.
        assert (Ht : existsb (breaches (lethal_radius rect) dt) (circles g)
                     = true)
          by (apply existsb_exists; exists c; auto).
        congruence.
      * discriminate.
      * intros _. split; [reflexivity|].
        pending_cases; (split; [|reflexivity]);
          game_fields; rewrite gameRunning_before_loop; exact Hrun.
Qed.

Lemma game_over_iff_lethal_radius_witness :
  let g := run steady_random 3 along_x_cos along_x_sin one_circle_trace initial in
  let r := update 2000 low_area g in
  (fst r = game_over <->
   exists c, In c (circles g) /\
             lethal_radius low_area <= radius c + growth c * frame_dt 2000 g) /\
  (fst r = game_over ->
   gameRunning (snd r) = false /\ circles (snd r) = []) /\
  (fst r <> game_over ->
   fst r = frame_done /\ gameRunning (snd r) = true /\
   circles (snd r) = map (advance (frame_dt 2000 g) low_area) (circles g)).
Proof.
  refine (proj2 (game_over_iff_lethal_radius 2000 low_area
                   (run steady_random 3 along_x_cos along_x_sin
                      one_circle_trace initial) _ _) _ _).
  - vm_compute. reflexivity.
  - vm_compute. reflexivity.
  - vm_compute. reflexivity.
  - vm_compute. repeat constructor; discriminate.
Defined.

(** C1, as the spec has it, fails: in the round [one_circle_trace] the
    window is made lower, so that the circle of radius 35 is beyond the
    lethal radius 30, and the next frame comes at 31000 ms, when the timer
    has run out: the level is complete and the round is not over. *)
Lemma timer_expiry_preempts_game_over :
  let g := run steady_random 3 along_x_cos along_x_sin one_circle_trace initial in
  let r := update 31000 low_area g in
  gameRunning g = true /\ paused g = false /\
  map summary (circles g) = [(0%nat, normal, 35)] /\
  Qred (lethal_radius low_area) = 30 /\
  existsb (fun c => Qle_bool (lethal_radius low_area) (radius c)) (circles g)
  = true /\
  existsb (breaches (lethal_radius low_area) (frame_dt 31000 g)) (circles g)
  = true /\
  fst r = level_completed /\ gameRunning (snd r) = true.
Proof. vm_compute. repeat apply conj; reflexivity. Qed.

(** ** Frames with no or negative delta time *)

Lemma fuse_countdown_fields (dt : Q) (c : Circle) :
  let c' := fst (fuse_countdown dt c) in
  x c' = x c /\ y c' = y c /\ radius c' = radius c /\ growth c' = growth c /\
  driftX c' = driftX c /\ driftY c' = driftY c /\ element c' = element c /\
  type c' = type c /\ clicks c' = clicks c.
Proof.
  unfold fuse_countdown.
  destruct (circle_type_eqb (type c) fuse);
    [destruct (fuseTimeLeft c)|]; cbn [fst]; repeat apply conj; reflexivity.
Qed.

Lemma bounce_inside (rect : Rect) (c : Circle) :
  0 <= x c - radius c -> x c + radius c <= width rect ->
  0 <= y c - radius c -> y c + radius c <= height rect ->
  bounce rect c = c.
Proof.
  intros Hx0 Hx1 Hy0 Hy1. unfold bounce.
  assert (Ex : bounce_x rect c = c).
  { unfold bounce_x. apply Qlt_bool_false in Hx0, Hx1.
    rewrite Hx0, Hx1. reflexivity. }
  assert (Ey : bounce_y rect c = c).
  { unfold bounce_y. apply Qlt_bool_false in Hy0, Hy1.
    rewrite Hy0, Hy1. reflexivity. }
  rewrite Ex, Ey. destruct (_ || _); reflexivity.
Qed.

Lemma bounce_at_rest (rect : Rect) (c : Circle) :
  driftX c == 0 -> driftY c == 0 -> bounce rect c = c.
Proof.
  intros Hx Hy. unfold bounce.
  apply Qeq_eq_bool in Hx, Hy. rewrite Hx, Hy. reflexivity.
Qed.

Lemma position_advance_zero (dt : Q) (rect : Rect) (c : Circle) :
  dt == 0 -> at_rest_or_inside rect c ->
  x (advance dt rect c) == x c /\ y (advance dt rect c) == y c.
Proof.
  intros Hdt Hc. unfold advance.
  destruct (fuse_countdown_fields dt (grow_and_move dt c))
    as (Hx & Hy & Hr & _ & Hdx & Hdy & _).
  set (c' := fst (fuse_countdown dt (grow_and_move dt c))) in *.
  unfold grow_and_move in Hx, Hy, Hr, Hdx, Hdy. circle_fields.
  assert (Ex : x c' == x c) by (rewrite Hx, Hdt; ring).
  assert (Ey : y c' == y c) by (rewrite Hy, Hdt; ring).
  assert (Er : radius c' == radius c) by (rewrite Hr, Hdt; ring).
  assert (Eb : bounce rect c' = c').
  { destruct Hc as [[H1 H2]|(H1 & H2 & H3 & H4)].
    - apply bounce_at_rest; [rewrite Hdx|rewrite Hdy]; assumption.
    - apply bounce_inside; rewrite ?Ex, ?Ey, ?Er; assumption. }
  rewrite Eb. split; assumption.
Qed.

(** C9, as the code has it.  A frame of a running round is applied with
    the delta time as computed, whatever its sign.  When the round neither
    ends nor loses a fuse in the frame, the timer is lessened by [dt] and
    every circle's radius is increased by [growth * dt]; so a frame with
    [dt] zero leaves timer and radii as they were, and the position of every
    circle that does not drift or lies within the walls, while a frame with
    [dt] negative sets the timer forth and shrinks every growing circle. *)
Theorem frame_applies_delta_time (timestamp : Q) (rect : Rect) (g : Game) :
  gameRunning g = true -> paused g = false ->
  let dt := frame_dt timestamp g in
  0 < timeLeft g - dt ->
  Forall (fuse_lasts dt) (circles g) ->
  existsb (breaches (lethal_radius rect) dt) (circles g) = false ->
  let g' := snd (update timestamp rect g) in
  timeLeft g' = timeLeft g - dt /\
  circles g' = map (advance dt rect) (circles g) /\
  (forall c, radius (advance dt rect c) = radius c + growth c * dt) /\
  (dt == 0 ->
     timeLeft g' == timeLeft g /\
     forall c, In c (circles g) ->
       radius (advance dt rect c) == radius c /\
       (at_rest_or_inside rect c ->
        x (advance dt rect c) == x c /\ y (advance dt rect c) == y c)) /\
  (dt < 0 ->
     timeLeft g < timeLeft g' /\
     forall c, In c (circles g) -> 0 < growth c ->
       radius (advance dt rect c) < radius c).
Proof.
  intros Hrun Hpaused dt Htime Hlast Hsafe g'. subst g'.
  rewrite (update_plain timestamp rect g Hrun Hpaused Htime Hlast).
  fold dt. rewrite Hsafe. cbn [snd]. game_fields.
  rewrite timeLeft_before_loop. fold dt.
  split; [reflexivity|]. split; [reflexivity|].
  split; [intro c; apply radius_advance|]. split.
  - intro Hdt. split; [rewrite Hdt; ring|].
    intros c _. split.
    + rewrite radius_advance, Hdt. ring.
    + apply position_advance_zero, Hdt.
  - intro Hdt. split; [lra|].
    intros c _ Hgrowth. rewrite radius_advance.
    assert (growth c * dt < 0); [|lra].
    setoid_replace (growth c * dt) with (- (growth c * - dt)) by ring.
    assert (0 < growth c * - dt); [|lra].
    apply Qmult_lt_0_compat; lra.
Qed.

Lemma frame_applies_delta_time_witness :
  let g := run steady_random 3 along_x_cos along_x_sin resumed_trace initial in
  let dt := frame_dt 2000 g in
  let g' := snd (update 2000 area g) in
  timeLeft g' = timeLeft g - dt /\
  circles g' = map (advance dt area) (circles g) /\
  (forall c, radius (advance dt area c) = radius c + growth c * dt) /\
  (dt == 0 ->
     timeLeft g' == timeLeft g /\
     forall c, In c (circles g) ->
       radius (advance dt area c) == radius c /\
       (at_rest_or_inside area c ->
        x (advance dt area c) == x c /\ y (advance dt area c) == y c)) /\
  (dt < 0 ->
     timeLeft g < timeLeft g' /\
     forall c, In c (circles g) -> 0 < growth c ->
       radius (advance dt area c) < radius c).
Proof.
  apply (frame_applies_delta_time 2000 area
           (run steady_random 3 along_x_cos along_x_sin resumed_trace initial)).
  - vm_compute. reflexivity.
  - vm_compute. reflexivity.
  - vm_compute. reflexivity.
  - vm_compute. repeat constructor; discriminate.
  - vm_compute. reflexivity.
Defined.

(** C9, as the spec has it, fails: in the round [resumed_trace] the clock
    was anchored at 2000 ms by the resuming click; the frame that follows
    carries the timestamp 1995 ms, so [dt] is -0.005 s, and the frame is
    applied: the timer goes from 29 s to 29.005 s and the radius of the
    circle from 35 to 34.9. *)
Lemma negative_delta_time_is_applied :
  let g := run steady_random 3 along_x_cos along_x_sin resumed_trace initial in
  let r := update 1995 area g in
  gameRunning g = true /\ paused g = false /\ animationFrameId g = true /\
  frame_dt 1995 g < 0 /\
  Qred (timeLeft g) = 29 /\
  map summary (circles g) = [(0%nat, normal, 35)] /\
  fst r = frame_done /\
  Qred (timeLeft (snd r)) = Qred 29.005 /\
  map summary (circles (snd r)) = [(0%nat, normal, Qred 34.9)].
Proof. vm_compute. repeat apply conj; reflexivity. Qed.

(** ** The radius floor *)

Lemma Forall_assign (P : Circle -> Prop) (c : Circle) (l : list Circle) :
  forall i, Forall P l -> P c -> Forall P (assign i c l).
Proof.
  induction l as [|d l IH]; intros [|i] Hl Hc; simpl; auto;
    inversion Hl; subst; constructor; auto.
Qed.

Lemma Forall_splice1 (P : Circle -> Prop) (l : list Circle) :
  forall i, Forall P l -> Forall P (splice1 i l).
Proof.
  induction l as [|d l IH]; intros [|i] Hl; simpl; auto;
    inversion Hl; subst; auto.
Qed.

Lemma sound_grow_and_move (dt : Q) (c : Circle) :
  0 <= dt -> sound c -> sound (grow_and_move dt c).
Proof.
  intros Hdt [Hr Hg]. unfold sound, grow_and_move. circle_fields.
  split; [|exact Hg].
  assert (0 <= growth c * dt) by (apply Qmult_le_0_compat; assumption).
  lra.
Qed.

Lemma sound_fuse_countdown (dt : Q) (c : Circle) :
  sound c -> sound (fst (fuse_countdown dt c)).
Proof.
  unfold sound.
  destruct (fuse_countdown_fields dt c) as (_ & _ & Hr & Hg & _).
  rewrite Hr, Hg. auto.
Qed.

Lemma growth_bounce (rect : Rect) (c : Circle) :
  growth (bounce rect c) = growth c.
Proof.
  unfold bounce, bounce_y, bounce_x.
  repeat match goal with |- context [if ?b then _ else _] => destruct b end;
    reflexivity.
Qed.

Lemma sound_bounce (rect : Rect) (c : Circle) :
  sound c -> sound (bounce rect c).
Proof. unfold sound. rewrite radius_bounce, growth_bounce. auto. Qed.

Lemma sound_shockwave (factor : Q) (c : Circle) :
  sound c -> sound (shockwave factor c).
Proof.
  intros [_ Hg]. unfold sound, shockwave. circle_fields.
  split; [apply Q.le_max_r|exact Hg].
Qed.

Lemma sound_handleFusePop (c : Circle) (isGood : bool) (g : Game) :
  Forall sound (circles g) -> Forall sound (circles (handleFusePop c isGood g)).
Proof.
  intro H. rewrite handleFusePop_shockwave. game_fields.
  apply Forall_map. eapply Forall_impl; [|exact H].
  intros d Hd. destruct (same_object d c); [exact Hd|].
  apply sound_shockwave, Hd.
Qed.

Lemma sound_removeCircle (c : Circle) (g : Game) :
  Forall sound (circles g) -> Forall sound (circles (removeCircle c g)).
Proof.
  intro H. unfold removeCircle. destruct (indexOf c (circles g)); [|exact H].
  game_fields. apply Forall_splice1, H.
Qed.

Lemma sound_update_circle (dt : Q) (rect : Rect) (maxR : Q) (i : nat)
    (c : Circle) (g : Game) :
  0 <= dt -> Forall sound (circles g) -> sound c ->
  match update_circle dt rect maxR i c g with
  | next_index g' | returned g' => Forall sound (circles g')
  end.
Proof.
  intros Hdt Hg Hc. unfold update_circle.
  pose proof (sound_fuse_countdown dt _ (sound_grow_and_move dt c Hdt Hc)) as H.
  destruct (fuse_countdown dt (grow_and_move dt c)) as [c' exploded].
  cbn [fst] in H. destruct exploded.
  - apply sound_removeCircle, sound_handleFusePop. game_fields.
    apply Forall_assign; assumption.
  - destruct (Qle_bool maxR (radius (bounce rect c'))).
    + constructor.
    + game_fields. apply Forall_assign; [assumption|].
      apply sound_bounce, H.
Qed.

Lemma sound_update_circles (dt : Q) (rect : Rect) (maxR : Q) (fuel : nat) :
  forall (i : nat) (g : Game),
    0 <= dt -> Forall sound (circles g) ->
    match update_circles fuel dt rect maxR i g with
    | loop_done g' | loop_returned g' => Forall sound (circles g')
    | loop_unfinished => True
    end.
Proof.
  induction fuel as [|fuel IH]; intros i g Hdt Hg; simpl;
    destruct (nth_error (circles g) i) as [c|] eqn:Hnth; auto.
  assert (Hc : sound c).
  { apply nth_error_In in Hnth. rewrite Forall_forall in Hg. auto. }
  pose proof (sound_update_circle dt rect maxR i c g Hdt Hg Hc) as H.
  destruct (update_circle dt rect maxR i c g) as [g'|g'];
    [apply IH; assumption|exact H].
Qed.

Lemma sound_update (timestamp : Q) (rect : Rect) (g : Game) :
  lastUpdateTime g <= timestamp -> Forall sound (circles g) ->
  Forall sound (circles (snd (update timestamp rect g))).
Proof.
  intros Htime Hg. unfold update.
  destruct (negb (gameRunning g)); [exact Hg|].
  destruct (paused g); [exact Hg|]. cbv zeta.
  match goal with |- context [if ?b then _ else _] => destruct b end;
    [constructor|].
  match goal with |- context [update_circles ?f ?d ?r ?m ?i ?h] =>
    pose proof (sound_update_circles d r m f i h) as H;
    destruct (update_circles f d r m i h) end; cbn [snd]; game_fields.
  - apply H.
    + apply Qle_shift_div_l; [reflexivity|]. lra.
    + fold (frame_dt timestamp g). fold (before_loop timestamp g).
      rewrite circles_before_loop. exact Hg.
  - apply H.
    + apply Qle_shift_div_l; [reflexivity|]. lra.
    + fold (frame_dt timestamp g). fold (before_loop timestamp g).
      rewrite circles_before_loop. exact Hg.
  - change (timeLeft (set_lastUpdateTime ?v ?h)) with (timeLeft h).
    change (lastUpdateTime (set_lastUpdateTime ?v ?h)) with v.
    fold (frame_dt timestamp g). fold (before_loop timestamp g).
    rewrite circles_before_loop. exact Hg.
Qed.

Lemma sound_spawnCircle_object (Math_random : nat -> Q) (Math_PI : Q)
    (Math_cos Math_sin : Q -> Q) (rect : Rect) (level : Z) (elem : elem)
    (n : nat) :
  sound (fst (spawnCircle_object Math_random Math_PI Math_cos Math_sin
                rect level elem n)).
Proof.
  cbv [spawnCircle_object bind and_then chance random ret].
  repeat match goal with |- context [if ?b then _ else _] => destruct b end;
    unfold sound; cbn [fst]; circle_fields; split; lra.
Qed.

Lemma sound_spawnCircle (Math_random : nat -> Q) (Math_PI : Q)
    (Math_cos Math_sin : Q -> Q) (rect : Rect) (g : Game) :
  Forall sound (circles g) ->
  Forall sound (circles (spawnCircle Math_random Math_PI Math_cos Math_sin
                           rect g)).
Proof.
  intro H. unfold spawnCircle. game_fields.
  pose proof (sound_spawnCircle_object Math_random Math_PI Math_cos Math_sin
                rect (currentLevel g)
                {| node := elements g; onclick := circleListener |}
                (randomCalls g)) as Hc.
  destruct (spawnCircle_object _ _ _ _ _ _ _ _) as [c n]. game_fields.
  apply Forall_app. split; [exact H|]. constructor; [exact Hc|constructor].
Qed.

Lemma sound_spawnNext_timeout (Math_random : nat -> Q) (Math_PI : Q)
    (Math_cos Math_sin : Q -> Q) (rect : Rect) (g : Game) :
  Forall sound (circles g) ->
  Forall sound (circles (spawnNext_timeout Math_random Math_PI Math_cos
                           Math_sin rect g)).
Proof.
  intro H. unfold spawnNext_timeout. game_fields.
  apply sound_spawnCircle, H.
Qed.

Lemma sound_splitter_child (Math_random : nat -> Q) (Math_PI : Q)
    (Math_cos Math_sin : Q -> Q) (parent child : Circle) (k : nat) :
  sound parent ->
  splitter_child Math_random Math_PI Math_cos Math_sin parent child k ->
  sound child.
Proof.
  intros [_ Hg] (_ & Hr & _ & Hgrowth & _). unfold sound.
  rewrite Hgrowth. split; lra.
Qed.

Lemma sound_pushSplitterChild (Math_random : nat -> Q) (Math_PI : Q)
    (Math_cos Math_sin : Q -> Q) (parent : Circle) (g : Game) :
  sound parent -> Forall sound (circles g) ->
  Forall sound (circles (pushSplitterChild Math_random Math_PI Math_cos
                           Math_sin parent g)).
Proof.
  intros Hp H.
  destruct (pushSplitterChild_spec Math_random Math_PI Math_cos Math_sin
              parent g) as (child & n & E & Hchild & _).
  rewrite E. game_fields. apply Forall_app. split; [exact H|].
  constructor; [|constructor]. eapply sound_splitter_child; eassumption.
Qed.

Lemma sound_element_click (Math_random : nat -> Q) (Math_PI : Q)
    (Math_cos Math_sin : Q -> Q) (n : nat) (g : Game) :
  Forall sound (circles g) ->
  Forall sound (circles (element_click Math_random Math_PI Math_cos Math_sin
                           n g)).
Proof.
  intro H. unfold element_click.
  destruct (lookup_node n (circles g)) as [[i c]|] eqn:Hlookup; [|exact H].
  destruct (negb (gameRunning g) || paused g); [exact H|].
  assert (Hc : sound c).
  { apply lookup_node_spec in Hlookup. destruct Hlookup as (Hnth & _).
    apply nth_error_In in Hnth. rewrite Forall_forall in H. auto. }
  destruct (onclick (element c)).
  - unfold circle_click. destruct (1 <? clicks c)%Z.
    + game_fields. apply Forall_assign; [exact H|]. exact Hc.
    + game_fields. apply sound_removeCircle.
      destruct (type c); try exact H.
      * unfold spawnSplitterChildren.
        apply sound_pushSplitterChild; [exact Hc|].
        apply sound_pushSplitterChild; assumption.
      * apply sound_handleFusePop, H.
  - unfold child_click. game_fields. apply sound_removeCircle, H.
Qed.

(** Every event keeps the circles sound, a frame provided its timestamp is
    not earlier than the anchor of the frame clock. *)
Lemma sound_step (Math_random : nat -> Q) (Math_PI : Q)
    (Math_cos Math_sin : Q -> Q) (e : event) (g : Game) :
  frame_forward e g = true -> Forall sound (circles g) ->
  Forall sound (circles (step Math_random Math_PI Math_cos Math_sin e g)).
Proof.
  intros Hforward H. destruct e; cbn [step frame_forward] in *.
  - destruct (spawnTimeoutId g); [|exact H].
    apply sound_spawnNext_timeout, H.
  - destruct (animationFrameId g); [|exact H].
    apply sound_update; [|exact H].
    apply Qle_bool_iff in Hforward. exact Hforward.
  - destruct (nth_error (lostTimeouts g) k); [|exact H].
    apply sound_spawnNext_timeout, H.
  - destruct (lostFrames g); [exact H|].
    apply sound_update; [|exact H].
    apply Qle_bool_iff in Hforward. exact Hforward.
  - apply sound_element_click, H.
  - constructor.
  - unfold resumeBtn_click. destruct (negb (gameRunning g)); [exact H|].
    game_fields. destruct (negb (paused g)); exact H.
  - unfold restartBtn_click. destruct (negb (gameRunning g)); [exact H|].
    constructor.
  - constructor.
  - constructor.
  - unfold openHelp. destruct (gameRunning g && negb (paused g)); exact H.
  - unfold closeHelp.
    destruct (resumeAfterHelp g && gameRunning g && paused g); exact H.
Qed.

Lemma sound_run (Math_random : nat -> Q) (Math_PI : Q)
    (Math_cos Math_sin : Q -> Q) (es : list event) :
  forall g : Game,
    frames_forward Math_random Math_PI Math_cos Math_sin es g = true ->
    Forall sound (circles g) ->
    Forall sound (circles (run Math_random Math_PI Math_cos Math_sin es g)).
Proof.
  induction es as [|e es IH]; intros g Hforward H; [exact H|].
  cbn [frames_forward] in Hforward. apply andb_true_iff in Hforward.
  destruct Hforward as [He Hes].
  change (run Math_random Math_PI Math_cos Math_sin (e :: es) g)
    with (run Math_random Math_PI Math_cos Math_sin es
            (step Math_random Math_PI Math_cos Math_sin e g)).
  apply IH; [exact Hes|]. apply sound_step; assumption.
Qed.

(** C10, as the code has it.  In every round in which no frame carries a
    timestamp earlier than the anchor of the frame clock, so that no [dt]
    is negative, every circle in the array has radius at least 5 (and a
    growth that is not negative) after every event: spawns, frames, clicks
    on circles, both shockwaves, and the commands. *)
Theorem radius_floor (Math_random : nat -> Q) (Math_PI : Q)
    (Math_cos Math_sin : Q -> Q) (es : list event) :
  frames_forward Math_random Math_PI Math_cos Math_sin es initial = true ->
  forall c,
    In c (circles (run Math_random Math_PI Math_cos Math_sin es initial)) ->
    5 <= radius c.
Proof.
  intros Hforward c Hc.
  pose proof (sound_run Math_random Math_PI Math_cos Math_sin es initial
                Hforward (Forall_nil sound)) as H.
  rewrite Forall_forall in H. apply (H c Hc).
Qed.

Lemma radius_floor_witness :
  Forall (fun c => 5 <= radius c)
    (circles (run plain_then_fuses_random 3 along_x_cos along_x_sin
                (shrunk_trace ++ [frame 205 area]) initial)).
Proof.
  apply Forall_forall.
  apply (radius_floor plain_then_fuses_random 3 along_x_cos along_x_sin
           (shrunk_trace ++ [frame 205 area])).
  vm_compute. reflexivity.
Defined.

(** C10, as the spec has it, fails: in the round [shrunk_trace] the plain
    circle has been shrunk to the floor 5 and the clock is anchored at
    200 ms; the frame that follows carries the timestamp 195 ms, its [dt]
    is -0.005 s, and the circle is left with radius 5 - 20 * 0.005 = 4.9. *)
Lemma negative_delta_time_breaks_radius_floor :
  let g := run plain_then_fuses_random 3 along_x_cos along_x_sin
             shrunk_trace initial in
  let g' := step plain_then_fuses_random 3 along_x_cos along_x_sin
              (frame 195 area) g in
  map summary (circles g) = [(0%nat, normal, 5)] /\
  gameRunning g' = true /\
  map summary (circles g') = [(0%nat, normal, Qred 4.9)] /\
  existsb (fun c => Qlt_bool (radius c) 5) (circles g') = true.
Proof. vm_compute. repeat apply conj; reflexivity. Qed.

(** ** The circles of a round are distinct objects *)

Lemma nodes_assign (l : list Circle) :
  forall (i : nat) (c c' : Circle),
    nth_error l i = Some c -> element c' = element c ->
    nodes (assign i c' l) = nodes l.
Proof.
  induction l as [|d l IH]; intros [|i] c c' Hnth He;
    simpl in Hnth; try discriminate.
  - injection Hnth as ->. simpl. rewrite He. reflexivity.
  - simpl. f_equal. apply (IH i c c' Hnth He).
Qed.

Lemma NoDup_nodes_splice1 (l : list Circle) :
  forall i, NoDup (nodes l) -> NoDup (nodes (splice1 i l)).
Proof.
  induction l as [|d l IH]; intros [|i] H; simpl; auto;
    inversion H as [|? ? Hd Hl]; subst; auto.
  constructor; [|apply IH, Hl].
  intro Hin. apply Hd. clear - Hin.
  revert i Hin. induction l as [|e l IH]; intros [|i] Hin; simpl in *; auto.
  destruct Hin as [E|Hin]; [left; exact E|right; eapply IH, Hin].
Qed.

Lemma distinct_set_circles (l : list Circle) (g : Game) :
  NoDup (nodes l) ->
  Forall (fun c => (node (element c) < elements g)%nat) l ->
  distinct_objects (set_circles l g).
Proof. intros H1 H2. split; assumption. Qed.

Lemma distinct_removeCircle (c : Circle) (g : Game) :
  distinct_objects g -> distinct_objects (removeCircle c g).
Proof.
  intros [H1 H2]. unfold removeCircle.
  destruct (indexOf c (circles g)); [|split; assumption].
  apply distinct_set_circles;
    [apply NoDup_nodes_splice1, H1|apply Forall_splice1, H2].
Qed.

Lemma distinct_handleFusePop (c : Circle) (isGood : bool) (g : Game) :
  distinct_objects g -> distinct_objects (handleFusePop c isGood g).
Proof.
  intros [H1 H2]. rewrite handleFusePop_shockwave.
  apply distinct_set_circles.
  - unfold nodes in *. rewrite map_map.
    erewrite map_ext; [exact H1|].
    intro d. cbv beta. destruct (same_object d c); reflexivity.
  - apply Forall_map. eapply Forall_impl; [|exact H2].
    intros d Hd. cbv beta. destruct (same_object d c); exact Hd.
Qed.

Lemma distinct_assign (i : nat) (c c' : Circle) (g : Game) :
  nth_error (circles g) i = Some c -> element c' = element c ->
  distinct_objects g ->
  distinct_objects (set_circles (assign i c' (circles g)) g).
Proof.
  intros Hnth He [H1 H2]. apply distinct_set_circles.
  - rewrite (nodes_assign _ _ _ _ Hnth He). exact H1.
  - apply Forall_assign; [exact H2|]. rewrite He.
    apply nth_error_In in Hnth. rewrite Forall_forall in H2. auto.
Qed.

Lemma element_bounce (rect : Rect) (c : Circle) :
  element (bounce rect c) = element c.
Proof.
  unfold bounce, bounce_y, bounce_x.
  repeat match goal with |- context [if ?b then _ else _] => destruct b end;
    reflexivity.
Qed.

Lemma distinct_update_circle (dt : Q) (rect : Rect) (maxR : Q) (i : nat)
    (c : Circle) (g : Game) :
  nth_error (circles g) i = Some c -> distinct_objects g ->
  match update_circle dt rect maxR i c g with
  | next_index g' | returned g' => distinct_objects g'
  end.
Proof.
  intros Hnth Hg. unfold update_circle.
  destruct (fuse_countdown_fields dt (grow_and_move dt c))
    as (_ & _ & _ & _ & _ & _ & He & _).
  destruct (fuse_countdown dt (grow_and_move dt c)) as [c' exploded].
  cbn [fst] in He. change (element (grow_and_move dt c)) with (element c) in He.
  destruct exploded.
  - apply distinct_removeCircle, distinct_handleFusePop.
    apply (distinct_assign i c c' g Hnth He Hg).
  - destruct (Qle_bool maxR (radius (bounce rect c'))).
    + split; constructor.
    + apply (distinct_assign i c (bounce rect c') g Hnth); [|exact Hg].
      rewrite element_bounce. exact He.
Qed.

Lemma distinct_update_circles (dt : Q) (rect : Rect) (maxR : Q) (fuel : nat) :
  forall (i : nat) (g : Game),
    distinct_objects g ->
    match update_circles fuel dt rect maxR i g with
    | loop_done g' | loop_returned g' => distinct_objects g'
    | loop_unfinished => True
    end.
Proof.
  induction fuel as [|fuel IH]; intros i g Hg; simpl;
    destruct (nth_error (circles g) i) as [c|] eqn:Hnth; auto.
  pose proof (distinct_update_circle dt rect maxR i c g Hnth Hg) as H.
  destruct (update_circle dt rect maxR i c g) as [g'|g'];
    [apply IH; assumption|exact H].
Qed.

Lemma distinct_before_loop (timestamp : Q) (g : Game) :
  distinct_objects g -> distinct_objects (before_loop timestamp g).
Proof.
  unfold before_loop, update_warp.
  repeat match goal with |- context [if ?b then _ else _] => destruct b end;
    intro H; exact H.
Qed.

Lemma distinct_update (timestamp : Q) (rect : Rect) (g : Game) :
  distinct_objects g -> distinct_objects (snd (update timestamp rect g)).
Proof.
  intro Hg. unfold update.
  destruct (negb (gameRunning g)); [exact Hg|].
  destruct (paused g); [exact Hg|]. cbv zeta.
  match goal with |- context [if ?b then _ else _] => destruct b end;
    [split; constructor|].
  change (timeLeft (set_timeLeft ?v ?h)) with v.
  change (timeLeft (set_lastUpdateTime ?v ?h)) with (timeLeft h).
  fold (frame_dt timestamp g). fold (before_loop timestamp g).
  pose proof (distinct_before_loop timestamp g Hg) as Hb.
  match goal with |- context [update_circles ?f ?d ?r ?m ?i ?h] =>
    pose proof (distinct_update_circles d r m f i h Hb) as H;
    destruct (update_circles f d r m i h) end; cbn [snd]; auto.
Qed.

Lemma distinct_push (c : Circle) (n : nat) (g : Game) :
  node (element c) = elements g -> distinct_objects g ->
  distinct_objects
    (set_circles (circles g ++ [c])
       (set_randomCalls n (set_elements (S (elements g)) g))).
Proof.
  intros Hc [H1 H2]. split; game_fields.
  - unfold nodes in *. rewrite map_app. cbn [map].
    apply NoDup_app.
    + exact H1.
    + constructor; [intros []|constructor].
    + intros k Hk [E|[]]. rewrite Forall_forall in H2.
      apply in_map_iff in Hk. destruct Hk as (d & Hd & Hin).
      specialize (H2 d Hin). lia.
  - apply Forall_app. split.
    + eapply Forall_impl; [|exact H2]. intros d Hd. cbv beta in *. lia.
    + constructor; [lia|constructor].
Qed.

Lemma element_spawnCircle_object (Math_random : nat -> Q) (Math_PI : Q)
    (Math_cos Math_sin : Q -> Q) (rect : Rect) (level : Z) (elem : elem)
    (n : nat) :
  element (fst (spawnCircle_object Math_random Math_PI Math_cos Math_sin
                  rect level elem n)) = elem.
Proof.
  cbv [spawnCircle_object bind and_then chance random ret].
  repeat match goal with |- context [if ?b then _ else _] => destruct b end;
    reflexivity.
Qed.

Lemma element_splitterChild_object (Math_random : nat -> Q) (Math_PI : Q)
    (Math_cos Math_sin : Q -> Q) (parent : Circle) (childElem : elem)
    (n : nat) :
  element (fst (splitterChild_object Math_random Math_PI Math_cos Math_sin
                  parent childElem n)) = childElem.
Proof.
  cbv [splitterChild_object bind chance random ret].
  repeat match goal with |- context [if ?b then _ else _] => destruct b end;
    reflexivity.
Qed.

Lemma distinct_spawnCircle (Math_random : nat -> Q) (Math_PI : Q)
    (Math_cos Math_sin : Q -> Q) (rect : Rect) (g : Game) :
  distinct_objects g ->
  distinct_objects (spawnCircle Math_random Math_PI Math_cos Math_sin rect g).
Proof.
  intro H. unfold spawnCircle. game_fields.
  pose proof (element_spawnCircle_object Math_random Math_PI Math_cos Math_sin
                rect (currentLevel g)
                {| node := elements g; onclick := circleListener |}
                (randomCalls g)) as He.
  destruct (spawnCircle_object _ _ _ _ _ _ _ _) as [c n]. cbn [fst] in He.
  apply (distinct_push c n g); [rewrite He; reflexivity|exact H].
Qed.

Lemma distinct_pushSplitterChild (Math_random : nat -> Q) (Math_PI : Q)
    (Math_cos Math_sin : Q -> Q) (parent : Circle) (g : Game) :
  distinct_objects g ->
  distinct_objects (pushSplitterChild Math_random Math_PI Math_cos Math_sin
                      parent g).
Proof.
  intro H. unfold pushSplitterChild. game_fields.
  pose proof (element_splitterChild_object Math_random Math_PI Math_cos
                Math_sin parent
                {| node := elements g; onclick := childListener |}
                (randomCalls g)) as He.
  destruct (splitterChild_object _ _ _ _ _ _ _) as [c n]. cbn [fst] in He.
  apply (distinct_push c n g); [rewrite He; reflexivity|exact H].
Qed.

Lemma distinct_set_score (v : Z) (g : Game) :
  distinct_objects g -> distinct_objects (set_score v g).
Proof. intro H. exact H. Qed.

Lemma distinct_element_click (Math_random : nat -> Q) (Math_PI : Q)
    (Math_cos Math_sin : Q -> Q) (n : nat) (g : Game) :
  distinct_objects g ->
  distinct_objects (element_click Math_random Math_PI Math_cos Math_sin n g).
Proof.
  intro H. unfold element_click.
  destruct (lookup_node n (circles g)) as [[i c]|] eqn:Hlookup; [|exact H].
  destruct (negb (gameRunning g) || paused g); [exact H|].
  apply lookup_node_spec in Hlookup. destruct Hlookup as (Hnth & _).
  destruct (onclick (element c)).
  - unfold circle_click. destruct (1 <? clicks c)%Z.
    + apply (distinct_assign i c _ g Hnth); [reflexivity|exact H].
    + apply distinct_set_score, distinct_removeCircle.
      destruct (type c); try exact H.
      * unfold spawnSplitterChildren.
        apply distinct_pushSplitterChild, distinct_pushSplitterChild, H.
      * apply distinct_handleFusePop, H.
  - unfold child_click. apply distinct_set_score, distinct_removeCircle, H.
Qed.

Lemma distinct_step (Math_random : nat -> Q) (Math_PI : Q)
    (Math_cos Math_sin : Q -> Q) (e : event) (g : Game) :
  distinct_objects g ->
  distinct_objects (step Math_random Math_PI Math_cos Math_sin e g).
Proof.
  intro H. destruct e as [area_now| |k area_now| | | | | | | | |]; cbn [step].
  - destruct (spawnTimeoutId g); [|exact H].
    unfold spawnNext_timeout. cbv zeta.
    assert (H' : distinct_objects (clearTimeout g)) by exact H.
    apply (distinct_spawnCircle Math_random Math_PI Math_cos Math_sin area_now)
      in H'.
    exact H'.
  - destruct (animationFrameId g); [|exact H].
    apply distinct_update. exact H.
  - destruct (nth_error (lostTimeouts g) k); [|exact H].
    unfold spawnNext_timeout. cbv zeta.
    match goal with |- context [spawnCircle _ _ _ _ _ ?h] =>
      assert (H' : distinct_objects h) by exact H end.
    apply (distinct_spawnCircle Math_random Math_PI Math_cos Math_sin area_now)
      in H'.
    exact H'.
  - destruct (lostFrames g); [exact H|].
    apply distinct_update. exact H.
  - apply distinct_element_click, H.
  - split; constructor.
  - unfold resumeBtn_click. destruct (negb (gameRunning g)); [exact H|].
    game_fields. destruct (negb (paused g)); exact H.
  - unfold restartBtn_click. destruct (negb (gameRunning g)); [exact H|].
    split; constructor.
  - split; constructor.
  - split; constructor.
  - unfold openHelp. destruct (gameRunning g && negb (paused g)); exact H.
  - unfold closeHelp.
    destruct (resumeAfterHelp g && gameRunning g && paused g); exact H.
Qed.

(** In every round the circles in the array are distinct objects. *)
Lemma distinct_run (Math_random : nat -> Q) (Math_PI : Q)
    (Math_cos Math_sin : Q -> Q) (es : list event) :
  forall g : Game,
    distinct_objects g ->
    distinct_objects (run Math_random Math_PI Math_cos Math_sin es g).
Proof.
  induction es as [|e es IH]; intros g H; [exact H|].
  change (run Math_random Math_PI Math_cos Math_sin (e :: es) g)
    with (run Math_random Math_PI Math_cos Math_sin es
            (step Math_random Math_PI Math_cos Math_sin e g)).
  apply IH, distinct_step, H.
Qed.

Lemma distinct_initial : distinct_objects initial.
Proof. split; constructor. Qed.

(** X18.  From the load of the script on, whatever the events, the circles
    in the array are distinct objects: no circle is in the array twice and
    no two circles share an element. *)
Theorem round_has_distinct_objects (Math_random : nat -> Q) (Math_PI : Q)
    (Math_cos Math_sin : Q -> Q) (es : list event) :
  NoDup (nodes (circles (run Math_random Math_PI Math_cos Math_sin es initial))).
Proof.
  apply (distinct_run Math_random Math_PI Math_cos Math_sin es initial).
  apply distinct_initial.
Qed.

(** * Further properties of the code *)

(** ** Clicks on circles *)

Lemma assign_same (l : list Circle) :
  forall (i : nat) (c : Circle), nth_error l i = Some c -> assign i c l = l.
Proof.
  induction l as [|d l IH]; intros [|i] c H; simpl in H; try discriminate.
  - injection H as ->. reflexivity.
  - simpl. f_equal. apply (IH i c H).
Qed.

Lemma lookup_node_None (n : nat) (l : list Circle) :
  lookup_node n l = None <-> ~ In n (nodes l).
Proof.
  induction l as [|d l IH]; simpl.
  - split; [intros _ []|reflexivity].
  - destruct (Nat.eqb (node (element d)) n) eqn:E.
    + apply Nat.eqb_eq in E. split; [discriminate|]. intro H. exfalso. auto.
    + apply Nat.eqb_neq in E.
      destruct (lookup_node n l) as [[i c]|].
      * split; [discriminate|]. intro H. exfalso.
        assert (Hn : ~ In n (nodes l)) by (intro; apply H; auto).
        apply IH in Hn. discriminate.
      * split; [|reflexivity]. intros _ [H|H]; [auto|].
        destruct IH as [IH _]. apply (IH eq_refl H).
Qed.

Lemma lookup_node_assign (n : nat) (l : list Circle) :
  forall (i : nat) (c c' : Circle),
    lookup_node n l = Some (i, c) -> element c' = element c ->
    lookup_node n (assign i c' l) = Some (i, c').
Proof.
  induction l as [|d l IH]; intros i c c' H He; simpl in H; [discriminate|].
  destruct (Nat.eqb (node (element d)) n) eqn:E.
  - injection H as <- <-. simpl. rewrite He, E. reflexivity.
  - destruct (lookup_node n l) as [[j e]|] eqn:Hl; [|discriminate].
    injection H as <- <-. simpl. rewrite E, (IH j e c' eq_refl He).
    reflexivity.
Qed.

Lemma indexOf_spec (c : Circle) (l : list Circle) :
  forall i, indexOf c l = Some i ->
            exists d, nth_error l i = Some d /\
                      node (element d) = node (element c).
Proof.
  induction l as [|e l IH]; intros i H; simpl in H; [discriminate|].
  destruct (same_object e c) eqn:E.
  - injection H as <-. exists e. split; [reflexivity|].
    apply Nat.eqb_eq, E.
  - destruct (indexOf c l) as [j|]; [|discriminate].
    injection H as <-. apply (IH j eq_refl).
Qed.

Lemma indexOf_None (c : Circle) (l : list Circle) :
  indexOf c l = None -> ~ In (node (element c)) (nodes l).
Proof.
  induction l as [|e l IH]; simpl; [intros _ []|].
  destruct (same_object e c) eqn:E; [discriminate|].
  destruct (indexOf c l); [discriminate|].
  intros _ [H|H]; [|apply (IH eq_refl H)].
  unfold same_object in E. apply Nat.eqb_neq in E. auto.
Qed.

(** After [removeCircle(c)] no circle of the array owns the element of
    [c], the circles being distinct objects. *)
Lemma removeCircle_absent (c : Circle) (g : Game) :
  NoDup (nodes (circles g)) ->
  ~ In (node (element c)) (nodes (circles (removeCircle c g))).
Proof.
  intro Hnodup. unfold removeCircle.
  destruct (indexOf c (circles g)) as [i|] eqn:E.
  - destruct (indexOf_spec _ _ _ E) as (d & Hd & Hn). game_fields.
    rewrite <- Hn. apply nodes_splice1; assumption.
  - apply indexOf_None, E.
Qed.

(** The array after [handleFusePop] and [removeCircle] for the object at
    [i], read from the array as it is. *)
Lemma pop_array (F : Circle -> Circle)
    (HF : forall d, element (F d) = element d)
    (l : list Circle) (i : nat) (c : Circle) :
  NoDup (nodes l) -> nth_error l i = Some c ->
  indexOf c (map (fun d => if same_object d c then d else F d) l) = Some i /\
  splice1 i (map (fun d => if same_object d c then d else F d) l)
  = map F (splice1 i l).
Proof.
  intros Hnodup Hnth.
  pose proof (indexOf_assign c F HF l i c Hnodup Hnth eq_refl) as H1.
  pose proof (explode_array F c l i c Hnodup Hnth eq_refl) as H2.
  rewrite (assign_same _ _ _ Hnth) in H1, H2. split; assumption.
Qed.

(** ** The children of a splitter *)

Lemma pushSplitterChild_child (Math_random : nat -> Q) (Math_PI : Q)
    (Math_cos Math_sin : Q -> Q) (parent : Circle) (g : Game) :
  exists (child : Circle) (n : nat),
    pushSplitterChild Math_random Math_PI Math_cos Math_sin parent g
    = set_circles (circles g ++ [child])
        (set_randomCalls n (set_elements (S (elements g)) g)) /\
    splitter_child Math_random Math_PI Math_cos Math_sin parent child
      (S (randomCalls g)) /\
    (randomCalls g < n)%nat /\
    element child = {| node := elements g; onclick := childListener |}.
Proof.
  pose proof (splitterChild_object_spec Math_random Math_PI Math_cos Math_sin
                parent (elements g) (randomCalls g)) as H.
  pose proof (element_splitterChild_object Math_random Math_PI Math_cos
                Math_sin parent
                {| node := elements g; onclick := childListener |}
                (randomCalls g)) as He.
  cbv zeta in H. unfold pushSplitterChild. game_fields.
  destruct (splitterChild_object Math_random Math_PI Math_cos Math_sin parent
              {| node := elements g; onclick := childListener |}
              (randomCalls g)) as [child n].
  exists child, n. cbn [fst snd] in H, He. destruct H as [Hchild Hn].
  split; [reflexivity|]. split; [exact Hchild|]. split; [exact Hn|exact He].
Qed.

(** The first circle of an array that owns the node [n], when no circle
    before it does. *)
Lemma lookup_node_first (n : nat) (c : Circle) (l l' : list Circle) :
  Forall (fun d => node (element d) <> n) l -> node (element c) = n ->
  lookup_node n (l ++ c :: l') = Some (length l, c) /\
  indexOf c (l ++ c :: l') = Some (length l) /\
  splice1 (length l) (l ++ c :: l') = l ++ l'.
Proof.
  intros Hl Hc. induction Hl as [|d l Hd Hl IH]; simpl.
  - unfold same_object. rewrite Hc, Nat.eqb_refl. auto.
  - destruct IH as (I1 & I2 & I3). apply Nat.eqb_neq in Hd.
    unfold same_object. rewrite Hc, Hd, I1, I2, I3. auto.
Qed.

(** C4.  A click that destroys a splitter (it has one click left) removes
    it from the array, appends exactly two children and adds one to the
    score.  Each child has radius [max(10, parent.radius / 2)], so at
    least 10 and, where half the parent's radius is not below that floor,
    at most half the parent's radius; growth 1.2 times the parent's; one
    click; type normal or drifter; and it drifts exactly when its own roll
    of [Math.random] is below 0.5, the two rolls being different calls.
    One hit destroys a child: a click on the element of either child takes
    that child, and nothing else, out of the array and adds one to the
    score.  The circles are taken to own elements that
    [document.createElement] has handed out, as they do in every round. *)
Theorem splitter_hit_children (Math_random : nat -> Q) (Math_PI : Q)
    (Math_cos Math_sin : Q -> Q) (g : Game) (parent : Circle) (index : nat) :
  gameRunning g = true -> paused g = false ->
  distinct_objects g ->
  lookup_node (node (element parent)) (circles g) = Some (index, parent) ->
  onclick (element parent) = circleListener ->
  type parent = splitter -> (clicks parent <= 1)%Z ->
  let click := element_click Math_random Math_PI Math_cos Math_sin in
  let g' := click (node (element parent)) g in
  exists (child1 child2 : Circle) (k1 k2 : nat),
    circles g' = splice1 index (circles g) ++ [child1; child2] /\
    score g' = (score g + 1)%Z /\
    (k1 < k2)%nat /\
    splitter_child Math_random Math_PI Math_cos Math_sin parent child1 k1 /\
    splitter_child Math_random Math_PI Math_cos Math_sin parent child2 k2 /\
    circles (click (node (element child1)) g')
    = splice1 index (circles g) ++ [child2] /\
    score (click (node (element child1)) g') = (score g' + 1)%Z /\
    circles (click (node (element child2)) g')
    = splice1 index (circles g) ++ [child1] /\
    score (click (node (element child2)) g') = (score g' + 1)%Z.
Proof.
  intros Hrun Hpaused [_ Hfresh] Hlookup Hlistener Htype Hclicks click g'.
  destruct (lookup_node_spec _ _ _ _ Hlookup) as (_ & _ & Hindex).
  destruct (pushSplitterChild_child Math_random Math_PI Math_cos Math_sin
              parent g) as (child1 & n1 & E1 & Hchild1 & Hn1 & He1).
  destruct (pushSplitterChild_child Math_random Math_PI Math_cos Math_sin
              parent
              (set_circles (circles g ++ [child1])
                 (set_randomCalls n1 (set_elements (S (elements g)) g))))
    as (child2 & n2 & E2 & Hchild2 & Hn2 & He2).
  game_fields.
  set (rest := splice1 index (circles g)).
  assert (Eg : g' = set_score (score g + 1)
                      (set_circles (rest ++ [child1; child2])
                         (set_randomCalls n2
                            (set_elements (S (S (elements g))) g)))).
  { subst g' click. unfold element_click.
    rewrite Hlookup, Hrun, Hpaused. cbn [negb orb]. rewrite Hlistener.
    unfold circle_click. apply Z.ltb_ge in Hclicks. rewrite Hclicks, Htype.
    unfold spawnSplitterChildren. rewrite E1, E2. game_fields.
    unfold removeCircle. game_fields.
    rewrite <- app_assoc. cbn [app].
    rewrite (indexOf_app _ _ [child1; child2] _ Hindex). game_fields.
    rewrite splice1_app by (eapply indexOf_length, Hindex).
    reflexivity. }
  exists child1, child2, (S (randomCalls g)), (S n1).
  assert (Hrest : Forall (fun c => (node (element c) < elements g)%nat) rest)
    by (apply Forall_splice1, Hfresh).
  assert (H1 : Forall (fun d => node (element d) <> node (element child1)) rest).
  { rewrite He1. cbn [node]. eapply Forall_impl; [|exact Hrest].
    cbv beta. intros; lia. }
  assert (H2 : Forall (fun d => node (element d) <> node (element child2))
                 (rest ++ [child1])).
  { rewrite He2. cbn [node]. apply Forall_app. split.
    - eapply Forall_impl; [|exact Hrest]. cbv beta. intros; lia.
    - constructor; [|constructor]. rewrite He1. cbn [node]. lia. }
  destruct (lookup_node_first _ child1 rest [child2] H1 eq_refl)
    as (L1 & I1 & S1).
  destruct (lookup_node_first _ child2 (rest ++ [child1]) [] H2 eq_refl)
    as (L2 & I2 & S2).
  rewrite <- app_assoc in L2, I2, S2. cbn [app] in L2, I2, S2.
  rewrite app_nil_r in S2.
  rewrite Eg. subst click. unfold element_click. game_fields.
  rewrite L1, L2, Hrun, Hpaused. cbn [negb orb].
  rewrite He1, He2. cbn [onclick].
  unfold child_click, removeCircle. game_fields. rewrite I1, I2.
  game_fields. rewrite S1, S2.
  split; [reflexivity|]. split; [reflexivity|]. split; [lia|].
  split; [assumption|]. split; [assumption|].
  repeat apply conj; reflexivity.
Qed.

Lemma splitter_hit_children_witness :
  let click := element_click steady_random 3 along_x_cos along_x_sin in
  let g' := click 0%nat splitter_round in
  exists (child1 child2 : Circle) (k1 k2 : nat),
    circles g' = splice1 0 (circles splitter_round) ++ [child1; child2] /\
    score g' = (score splitter_round + 1)%Z /\
    (k1 < k2)%nat /\
    splitter_child steady_random 3 along_x_cos along_x_sin a_splitter child1 k1 /\
    splitter_child steady_random 3 along_x_cos along_x_sin a_splitter child2 k2 /\
    circles (click (node (element child1)) g')
    = splice1 0 (circles splitter_round) ++ [child2] /\
    score (click (node (element child1)) g') = (score g' + 1)%Z /\
    circles (click (node (element child2)) g')
    = splice1 0 (circles splitter_round) ++ [child1] /\
    score (click (node (element child2)) g') = (score g' + 1)%Z.
Proof.
  apply (splitter_hit_children steady_random 3 along_x_cos along_x_sin
           splitter_round a_splitter 0).
  - vm_compute. reflexivity.
  - vm_compute. reflexivity.
  - split; vm_compute; repeat constructor. intros [].
  - vm_compute. reflexivity.
  - vm_compute. reflexivity.
  - vm_compute. reflexivity.
  - vm_compute. discriminate.
Defined.

(** X2.  A click on a fuse that has one click left removes the fuse,
    shrinks the radius of every other circle to 0.8 times its value but no
    less than 5, and adds exactly one to the score. *)
Theorem fuse_hit_shrinks_others (Math_random : nat -> Q) (Math_PI : Q)
    (Math_cos Math_sin : Q -> Q) (g : Game) (c : Circle) (index : nat) :
  gameRunning g = true -> paused g = false ->
  NoDup (nodes (circles g)) ->
  lookup_node (node (element c)) (circles g) = Some (index, c) ->
  onclick (element c) = circleListener ->
  type c = fuse -> (clicks c <= 1)%Z ->
  let g' := element_click Math_random Math_PI Math_cos Math_sin
              (node (element c)) g in
  circles g' = map (shockwave 0.8) (splice1 index (circles g)) /\
  score g' = (score g + 1)%Z /\
  ~ In (node (element c)) (nodes (circles g')) /\
  (forall d, In d (circles g') -> 5 <= radius d).
Proof.
  intros Hrun Hpaused Hnodup Hlookup Hlistener Htype Hclicks g'.
  destruct (lookup_node_spec _ _ _ _ Hlookup) as (Hnth & _ & _).
  assert (E : circles g' = map (shockwave 0.8) (splice1 index (circles g))
              /\ score g' = (score g + 1)%Z).
  { subst g'. unfold element_click.
    rewrite Hlookup, Hrun, Hpaused. cbn [negb orb]. rewrite Hlistener.
    unfold circle_click. apply Z.ltb_ge in Hclicks. rewrite Hclicks, Htype.
    rewrite handleFusePop_shockwave. unfold removeCircle. game_fields.
    destruct (pop_array (shockwave 0.8) (fun d => eq_refl) (circles g)
                index c Hnodup Hnth) as [Hi Hs].
    rewrite Hi. game_fields. rewrite Hs. split; reflexivity. }
  destruct E as [Ec Es]. rewrite Ec. repeat apply conj.
  - reflexivity.
  - exact Es.
  - rewrite nodes_map_shockwave. apply nodes_splice1; assumption.
  - intros d Hd. apply in_map_iff in Hd. destruct Hd as (e & <- & _).
    unfold shockwave. circle_fields. apply Q.le_max_r.
Qed.

Lemma fuse_hit_shrinks_others_witness :
  let g' := element_click steady_random 3 along_x_cos along_x_sin 0
              fuse_round in
  circles g' = map (shockwave 0.8) (splice1 0 (circles fuse_round)) /\
  score g' = (score fuse_round + 1)%Z /\
  ~ In (node (element a_fuse)) (nodes (circles g')) /\
  (forall d, In d (circles g') -> 5 <= radius d).
Proof.
  apply (fuse_hit_shrinks_others steady_random 3 along_x_cos along_x_sin
           fuse_round a_fuse 0).
  - vm_compute. reflexivity.
  - vm_compute. reflexivity.
  - vm_compute. repeat constructor; cbn; intuition discriminate.
  - vm_compute. reflexivity.
  - reflexivity.
  - reflexivity.
  - vm_compute. discriminate.
Defined.

Lemma splice1_assign (l : list Circle) :
  forall (i : nat) (c : Circle), splice1 i (assign i c l) = splice1 i l.
Proof.
  induction l as [|d l IH]; intros [|i] c; simpl; try reflexivity.
  f_equal. apply IH.
Qed.

(** X3.  A circle with two clicks left that is neither a splitter nor a
    fuse survives the first click: it stays in the array with one click
    left and the score is as it was; the second click removes it and adds
    exactly one to the score. *)
Theorem armored_takes_two_clicks (Math_random : nat -> Q) (Math_PI : Q)
    (Math_cos Math_sin : Q -> Q) (g : Game) (c : Circle) (index : nat) :
  gameRunning g = true -> paused g = false ->
  lookup_node (node (element c)) (circles g) = Some (index, c) ->
  onclick (element c) = circleListener ->
  clicks c = 2%Z -> type c <> splitter -> type c <> fuse ->
  let click := element_click Math_random Math_PI Math_cos Math_sin
                 (node (element c)) in
  circles (click g) = assign index (set_clicks 1 c) (circles g) /\
  score (click g) = score g /\
  circles (click (click g)) = splice1 index (circles g) /\
  score (click (click g)) = (score g + 1)%Z.
Proof.
  intros Hrun Hpaused Hlookup Hlistener Hclicks Hs Hf click.
  assert (E1 : click g
               = set_circles (assign index (set_clicks 1 c) (circles g)) g).
  { subst click. unfold element_click.
    rewrite Hlookup, Hrun, Hpaused. cbn [negb orb]. rewrite Hlistener.
    unfold circle_click. rewrite Hclicks. reflexivity. }
  rewrite E1. game_fields. split; [reflexivity|]. split; [reflexivity|].
  pose proof (lookup_node_assign _ _ _ _ (set_clicks 1 c) Hlookup eq_refl)
    as Hlookup'.
  destruct (lookup_node_spec _ _ _ _ Hlookup') as (_ & _ & Hindex).
  cbn [element set_clicks] in Hlookup'.
  subst click. unfold element_click. game_fields.
  rewrite Hlookup', Hrun, Hpaused. cbn [negb orb].
  change (onclick (element (set_clicks 1 c))) with (onclick (element c)).
  rewrite Hlistener. unfold circle_click. circle_fields.
  cbn [Z.ltb Z.compare Pos.compare Pos.compare_cont].
  assert (Et : match type c with
               | splitter =>
                   spawnSplitterChildren Math_random Math_PI Math_cos Math_sin
                     (set_clicks 1 c)
                     (set_circles (assign index (set_clicks 1 c) (circles g)) g)
               | fuse =>
                   handleFusePop (set_clicks 1 c) true
                     (set_circles (assign index (set_clicks 1 c) (circles g)) g)
               | _ => set_circles (assign index (set_clicks 1 c) (circles g)) g
               end
               = set_circles (assign index (set_clicks 1 c) (circles g)) g)
    by (destruct (type c); congruence).
  rewrite Et. unfold removeCircle. game_fields. rewrite Hindex. game_fields.
  rewrite splice1_assign. split; reflexivity.
Qed.

Lemma armored_takes_two_clicks_witness :
  let click := element_click steady_random 3 along_x_cos along_x_sin 0 in
  circles (click armored_round)
  = assign 0 (set_clicks 1 an_armored) (circles armored_round) /\
  score (click armored_round) = score armored_round /\
  circles (click (click armored_round)) = splice1 0 (circles armored_round) /\
  score (click (click armored_round)) = (score armored_round + 1)%Z.
Proof.
  apply (armored_takes_two_clicks steady_random 3 along_x_cos along_x_sin
           armored_round an_armored 0);
    vm_compute; solve [reflexivity | discriminate].
Defined.

(** The state in which [removeCircle] is called by a click that destroys
    [c]: children pushed for a splitter, neighbours shrunk for a fuse. *)
Lemma distinct_before_remove (Math_random : nat -> Q) (Math_PI : Q)
    (Math_cos Math_sin : Q -> Q) (c : Circle) (g : Game) :
  distinct_objects g ->
  distinct_objects
    match type c with
    | splitter =>
        spawnSplitterChildren Math_random Math_PI Math_cos Math_sin c g
    | fuse => handleFusePop c true g
    | _ => g
    end.
Proof.
  intro H. destruct (type c); try exact H.
  - unfold spawnSplitterChildren.
    apply distinct_pushSplitterChild, distinct_pushSplitterChild, H.
  - apply distinct_handleFusePop, H.
Qed.

Lemma score_circle_click_last (Math_random : nat -> Q) (Math_PI : Q)
    (Math_cos Math_sin : Q -> Q) (c : Circle) (i : nat) (g : Game) :
  (clicks c <= 1)%Z ->
  score (circle_click Math_random Math_PI Math_cos Math_sin c i g)
  = (score g + 1)%Z.
Proof.
  intro Hclicks. unfold circle_click. apply Z.ltb_ge in Hclicks.
  rewrite Hclicks.
  set (g1 := match type c with
             | splitter => _ | fuse => _ | _ => _ end).
  game_fields. rewrite (removeCircle_only_circles c g1). game_fields.
  f_equal. subst g1. destruct (type c); try reflexivity.
  unfold spawnSplitterChildren.
  destruct (pushSplitterChild_spec Math_random Math_PI Math_cos
              Math_sin c g) as (c1 & n1 & E1 & _).
  rewrite E1.
  destruct (pushSplitterChild_spec Math_random Math_PI Math_cos
              Math_sin c
              (set_circles (circles g ++ [c1])
                 (set_randomCalls n1
                    (set_elements (S (elements g)) g))))
    as (c2 & n2 & E2 & _).
  rewrite E2. reflexivity.
Qed.

Lemma score_child_click (c : Circle) (g : Game) :
  score (child_click c g) = (score g + 1)%Z.
Proof.
  unfold child_click. game_fields.
  rewrite (removeCircle_only_circles c g). reflexivity.
Qed.

(** X4.  A click that destroys a circle (one click left) adds one to the
    score and takes the circle out of the array: no circle of the array
    owns its element afterwards.  The listener itself holds no test
    against a second run: were it run once more for the circle it has
    removed, it would add one to the score again.  What keeps a circle
    from being scored twice is [removeCircle], which takes the element out
    of the document, where no click reaches it. *)
Theorem destroyed_circle_scores_once (Math_random : nat -> Q) (Math_PI : Q)
    (Math_cos Math_sin : Q -> Q) (g : Game) (c : Circle) (index : nat) :
  distinct_objects g ->
  gameRunning g = true -> paused g = false ->
  lookup_node (node (element c)) (circles g) = Some (index, c) ->
  (clicks c <= 1)%Z ->
  let click := element_click Math_random Math_PI Math_cos Math_sin
                 (node (element c)) in
  let listener :=
    match onclick (element c) with
    | circleListener =>
        circle_click Math_random Math_PI Math_cos Math_sin c index
    | childListener => child_click c
    end in
  click g = listener g /\
  score (click g) = (score g + 1)%Z /\
  ~ In (node (element c)) (nodes (circles (click g))) /\
  score (listener (click g)) = (score g + 2)%Z.
Proof.
  intros Hdistinct Hrun Hpaused Hlookup Hclicks click listener.
  assert (E : click g = listener g).
  { subst click listener. unfold element_click.
    rewrite Hlookup, Hrun, Hpaused. cbn [negb orb].
    destruct (onclick (element c)); reflexivity. }
  assert (Hs : forall h, score (listener h) = (score h + 1)%Z).
  { intro h. subst listener. destruct (onclick (element c)).
    - apply score_circle_click_last, Hclicks.
    - apply score_child_click. }
  split; [exact E|]. split; [rewrite E; apply Hs|]. split.
  - rewrite E. subst listener. destruct (onclick (element c)).
    + unfold circle_click. apply Z.ltb_ge in Hclicks. rewrite Hclicks.
      pose proof (distinct_before_remove Math_random Math_PI Math_cos Math_sin
                    c g Hdistinct) as [Hnodup _].
      game_fields. apply removeCircle_absent, Hnodup.
    + unfold child_click. game_fields.
      apply removeCircle_absent, Hdistinct.
  - rewrite Hs, E, Hs. lia.
Qed.

Lemma destroyed_circle_scores_once_witness :
  let click := element_click steady_random 3 along_x_cos along_x_sin 0 in
  let listener := circle_click steady_random 3 along_x_cos along_x_sin
                    a_splitter 0 in
  click splitter_round = listener splitter_round /\
  score (click splitter_round) = (score splitter_round + 1)%Z /\
  ~ In 0%nat (nodes (circles (click splitter_round))) /\
  score (listener (click splitter_round)) = (score splitter_round + 2)%Z.
Proof.
  apply (destroyed_circle_scores_once steady_random 3 along_x_cos along_x_sin
           splitter_round a_splitter 0).
  - split; vm_compute; repeat constructor. intros [].
  - vm_compute. reflexivity.
  - vm_compute. reflexivity.
  - vm_compute. reflexivity.
  - vm_compute. discriminate.
Defined.

(** ** Where circles are *)

(** X5.  With [Math.random] in the unit interval and a play area of at
    least 30 by 30, every spawned circle, whatever its type, has radius 15
    and lies within the walls with its whole disc. *)
Theorem spawned_circle_fits (Math_random : nat -> Q) (Math_PI : Q)
    (Math_cos Math_sin : Q -> Q) (rect : Rect) (level : Z) (elem : elem)
    (n : nat) :
  0 <= Math_random n <= 1 -> 0 <= Math_random (S n) <= 1 ->
  30 <= width rect -> 30 <= height rect ->
  let c := fst (spawnCircle_object Math_random Math_PI Math_cos Math_sin
                  rect level elem n) in
  radius c = 15 /\ inside rect c.
Proof.
  intros [Hu0 Hu1] [Hv0 Hv1] Hw Hh.
  cbv [spawnCircle_object bind and_then chance random ret].
  repeat match goal with |- context [if ?b then _ else _] => destruct b end;
    unfold inside; cbn [fst]; circle_fields;
    (split; [reflexivity|]); repeat apply conj; nra.
Qed.

Lemma spawned_circle_fits_witness :
  let c := fst (spawnCircle_object steady_random 3 along_x_cos along_x_sin
                  area 6%Z {| node := 0%nat; onclick := circleListener |} 0%nat) in
  radius c = 15 /\ inside area c.
Proof.
  apply (spawned_circle_fits steady_random 3 along_x_cos along_x_sin area 6
           {| node := 0%nat; onclick := circleListener |} 0%nat);
    vm_compute; try split; discriminate.
Defined.

Lemma bounce_x_spec (rect : Rect) (c : Circle) :
  radius c * 2 <= width rect ->
  let c' := bounce_x rect c in
  0 <= x c' - radius c' /\ x c' + radius c' <= width rect /\
  y c' = y c /\ radius c' = radius c /\ driftY c' = driftY c /\
  Qabs (driftX c') == Qabs (driftX c) /\
  (x c - radius c < 0 -> 0 <= driftX c') /\
  (0 <= x c - radius c -> width rect < x c + radius c -> driftX c' <= 0).
Proof.
  intros Hfit. unfold bounce_x.
  destruct (Qlt_bool (x c - radius c) 0) eqn:E1.
  - apply Qlt_bool_iff in E1. circle_fields.
    repeat apply conj; try reflexivity; try lra.
    + rewrite Qabs_pos; [reflexivity|apply Qabs_nonneg].
    + intros _. apply Qabs_nonneg.
  - apply Qlt_bool_false in E1.
    destruct (Qlt_bool (width rect) (x c + radius c)) eqn:E2.
    + apply Qlt_bool_iff in E2. circle_fields.
      repeat apply conj; try reflexivity; try lra.
      * rewrite Qabs_opp, Qabs_pos; [reflexivity|apply Qabs_nonneg].
      * intros _ _. pose proof (Qabs_nonneg (driftX c)). lra.
    + apply Qlt_bool_false in E2.
      repeat apply conj; try reflexivity; try lra.
Qed.

Lemma bounce_y_spec (rect : Rect) (c : Circle) :
  radius c * 2 <= height rect ->
  let c' := bounce_y rect c in
  0 <= y c' - radius c' /\ y c' + radius c' <= height rect /\
  x c' = x c /\ radius c' = radius c /\ driftX c' = driftX c /\
  Qabs (driftY c') == Qabs (driftY c) /\
  (y c - radius c < 0 -> 0 <= driftY c') /\
  (0 <= y c - radius c -> height rect < y c + radius c -> driftY c' <= 0).
Proof.
  intros Hfit. unfold bounce_y.
  destruct (Qlt_bool (y c - radius c) 0) eqn:E1.
  - apply Qlt_bool_iff in E1. circle_fields.
    repeat apply conj; try reflexivity; try lra.
    + rewrite Qabs_pos; [reflexivity|apply Qabs_nonneg].
    + intros _. apply Qabs_nonneg.
  - apply Qlt_bool_false in E1.
    destruct (Qlt_bool (height rect) (y c + radius c)) eqn:E2.
    + apply Qlt_bool_iff in E2. circle_fields.
      repeat apply conj; try reflexivity; try lra.
      * rewrite Qabs_opp, Qabs_pos; [reflexivity|apply Qabs_nonneg].
      * intros _ _. pose proof (Qabs_nonneg (driftY c)). lra.
    + apply Qlt_bool_false in E2.
      repeat apply conj; try reflexivity; try lra.
Qed.

(** X6.  The wall bounce of [update], for a drifting circle whose disc fits
    the play area: afterwards the disc lies within the four walls, the
    radius is as before, each drift component has kept its magnitude, and
    a component that carried the circle through a wall now points back
    into the play area. *)
Theorem bounce_keeps_inside (rect : Rect) (c : Circle) :
  radius c * 2 <= width rect -> radius c * 2 <= height rect ->
  ~ driftX c == 0 \/ ~ driftY c == 0 ->
  let c' := bounce rect c in
  inside rect c' /\ radius c' = radius c /\
  Qabs (driftX c') == Qabs (driftX c) /\
  Qabs (driftY c') == Qabs (driftY c) /\
  (x c - radius c < 0 -> 0 <= driftX c') /\
  (0 <= x c - radius c -> width rect < x c + radius c -> driftX c' <= 0) /\
  (y c - radius c < 0 -> 0 <= driftY c') /\
  (0 <= y c - radius c -> height rect < y c + radius c -> driftY c' <= 0).
Proof.
  intros Hw Hh Hdrift c'. subst c'. unfold bounce.
  assert (E : negb (Qeq_bool (driftX c) 0) || negb (Qeq_bool (driftY c) 0)
              = true).
  { apply orb_true_iff. destruct Hdrift as [H|H]; [left|right];
      apply negb_true_iff; destruct (Qeq_bool _ 0) eqn:Eq; try reflexivity;
      exfalso; apply H, Qeq_bool_eq, Eq. }
  rewrite E.
  destruct (bounce_x_spec rect c Hw)
    as (Hx0 & Hx1 & Hy & Hr & Hdy & Hax & Hleft & Hright).
  set (c1 := bounce_x rect c) in *.
  assert (Hh1 : radius c1 * 2 <= height rect) by (rewrite Hr; exact Hh).
  destruct (bounce_y_spec rect c1 Hh1)
    as (Hy0 & Hy1 & Hx' & Hr' & Hdx' & Hay & Hbottom & Htop).
  set (c2 := bounce_y rect c1) in *.
  unfold inside. rewrite Hx', Hr', Hdx'. rewrite Hr' in Hy0, Hy1.
  rewrite Hy, Hr in Hbottom, Htop. rewrite Hdy in Hay.
  repeat apply conj; assumption.
Qed.

Lemma bounce_keeps_inside_witness :
  let c' := bounce area a_stray in
  inside area c' /\ radius c' = radius a_stray /\
  Qabs (driftX c') == Qabs (driftX a_stray) /\
  Qabs (driftY c') == Qabs (driftY a_stray) /\
  (x a_stray - radius a_stray < 0 -> 0 <= driftX c') /\
  (0 <= x a_stray - radius a_stray ->
   width area < x a_stray + radius a_stray -> driftX c' <= 0) /\
  (y a_stray - radius a_stray < 0 -> 0 <= driftY c') /\
  (0 <= y a_stray - radius a_stray ->
   height area < y a_stray + radius a_stray -> driftY c' <= 0).
Proof.
  apply (bounce_keeps_inside area a_stray).
  - vm_compute. discriminate.
  - vm_compute. discriminate.
  - left. vm_compute. discriminate.
Defined.

(** ** Rounds *)

(** X7.  A frame of a running round completes the level exactly when the
    timer, less [dt], is at or below zero; the level counter then goes up by
    one, timer, score, circles and time-warp state are reset, the spawn
    intervals are set to 2000 * 0.9 ^ (the level just completed), both
    callbacks are disarmed, and [gameRunning] stays set. *)
Theorem level_complete_iff_timer_out (timestamp : Q) (rect : Rect) (g : Game) :
  gameRunning g = true -> paused g = false ->
  let r := update timestamp rect g in
  (fst r = level_completed <-> timeLeft g - frame_dt timestamp g <= 0) /\
  (fst r = level_completed ->
   currentLevel (snd r) = (currentLevel g + 1)%Z /\
   timeLeft (snd r) = 30 /\ score (snd r) = 0%Z /\ circles (snd r) = [] /\
   baseSpawnInterval (snd r) = BASE_SPAWN_INTERVAL * 0.9 ^ currentLevel g /\
   spawnInterval (snd r) = baseSpawnInterval (snd r) /\
   warpActive (snd r) = false /\
   nextWarpAt (snd r) = timeWarpConfig.interval /\
   spawnTimeoutId (snd r) = None /\ animationFrameId (snd r) = false /\
   gameRunning (snd r) = true).
Proof.
  intros Hrun Hpaused r. subst r.
  destruct (Qle_bool (timeLeft g - frame_dt timestamp g) 0) eqn:E.
  - apply Qle_bool_iff in E.
    rewrite (update_level_complete timestamp rect g Hrun Hpaused E).
    cbn [fst snd]. split; [split; auto|]. intros _.
    unfold levelComplete. game_fields.
    replace (currentLevel g + 1 - 1)%Z with (currentLevel g) by lia.
    repeat apply conj; try reflexivity. exact Hrun.
  - apply Qle_bool_false in E.
    assert (Hne : fst (update timestamp rect g) <> level_completed).
    { destruct (update_running timestamp rect g Hrun Hpaused E) as [[l H]|H];
        rewrite H; discriminate. }
    split; [split|]; intro H.
    + exfalso. apply Hne, H.
    + exfalso. apply (Qlt_not_le _ _ E H).
    + exfalso. apply Hne, H.
Qed.

Lemma level_complete_iff_timer_out_witness :
  let g := run steady_random 3 along_x_cos along_x_sin one_circle_trace initial in
  let r := update 30000 area g in
  (fst r = level_completed <-> timeLeft g - frame_dt 30000 g <= 0) /\
  (fst r = level_completed ->
   currentLevel (snd r) = (currentLevel g + 1)%Z /\
   timeLeft (snd r) = 30 /\ score (snd r) = 0%Z /\ circles (snd r) = [] /\
   baseSpawnInterval (snd r) = BASE_SPAWN_INTERVAL * 0.9 ^ currentLevel g /\
   spawnInterval (snd r) = baseSpawnInterval (snd r) /\
   warpActive (snd r) = false /\
   nextWarpAt (snd r) = timeWarpConfig.interval /\
   spawnTimeoutId (snd r) = None /\ animationFrameId (snd r) = false /\
   gameRunning (snd r) = true).
Proof.
  apply (level_complete_iff_timer_out 30000 area
           (run steady_random 3 along_x_cos along_x_sin one_circle_trace
              initial));
    vm_compute; reflexivity.
Defined.

(** What the pause button leaves of a running round after it was clicked
    twice, at [now1] and at [now2]. *)
Lemma resume_after_pause (now1 now2 : Q) (g : Game) :
  gameRunning g = true -> paused g = false ->
  resumeBtn_click now2 (resumeBtn_click now1 g)
  = set_animationFrameId true
      (set_spawnTimeoutId (Some (spawnInterval g)) (set_lastUpdateTime now2 g)).
Proof.
  intros Hrun Hpaused. unfold resumeBtn_click.
  rewrite Hrun. cbn [negb]. game_fields. rewrite Hpaused. cbn [negb].
  game_fields. rewrite Hrun. cbn [negb].
  destruct g. game_fields. subst. reflexivity.
Qed.

(** X8.  The time a round spends paused is not taken off its timer: after
    a pause at [now1] and the resuming click at [now2], the next frame
    lessens the timer by the time since [now2] only, whatever [now1] and
    the clock reading before the pause were. *)
Theorem paused_time_is_not_counted (now1 now2 timestamp : Q) (rect : Rect)
    (g : Game) :
  gameRunning g = true -> paused g = false ->
  0 < timeLeft g - (timestamp - now2) / 1000 ->
  let g' := snd (update timestamp rect
                   (resumeBtn_click now2 (resumeBtn_click now1 g))) in
  timeLeft g' = timeLeft g - (timestamp - now2) / 1000.
Proof.
  intros Hrun Hpaused Htime g'. subst g'.
  rewrite (resume_after_pause now1 now2 g Hrun Hpaused).
  set (g2 := set_animationFrameId true _).
  destruct (update_running_fields timestamp rect g2 Hrun Hpaused Htime)
    as (_ & _ & _ & _ & _ & Ht & _).
  rewrite Ht, timeLeft_before_loop. reflexivity.
Qed.

Lemma paused_time_is_not_counted_witness :
  let g := run steady_random 3 along_x_cos along_x_sin one_circle_trace initial in
  let g' := snd (update 9100 area
                   (resumeBtn_click 9000 (resumeBtn_click 2000 g))) in
  timeLeft g' = timeLeft g - (9100 - 9000) / 1000.
Proof.
  apply (paused_time_is_not_counted 2000 9000 9100 area
           (run steady_random 3 along_x_cos along_x_sin one_circle_trace
              initial));
    vm_compute; reflexivity.
Defined.

Lemma step_paused (Math_random : nat -> Q) (Math_PI : Q)
    (Math_cos Math_sin : Q -> Q) (e : event) (g : Game) :
  paused g = true -> spawnTimeoutId g = None -> animationFrameId g = false ->
  lostTimeouts g = [] -> lostFrames g = 0%nat ->
  callback_or_circle e ->
  step Math_random Math_PI Math_cos Math_sin e g = g.
Proof.
  intros Hp Ht Hf Hlt Hlf He. destruct e; try contradiction; cbn [step].
  - rewrite Ht. reflexivity.
  - rewrite Hf. reflexivity.
  - rewrite Hlt. destruct k; reflexivity.
  - rewrite Hlf. reflexivity.
  - unfold element_click. rewrite Hp, orb_true_r.
    destruct (lookup_node n (circles g)) as [[i c]|]; reflexivity.
Qed.

(** The callback of a lost timeout looks neither at [gameRunning] nor at
    [paused]: whenever it fires it pushes a circle and arms a timeout. *)
Lemma lost_timeout_spawns (Math_random : nat -> Q) (Math_PI : Q)
    (Math_cos Math_sin : Q -> Q) (k : nat) (delay : Q) (rect : Rect)
    (g : Game) :
  nth_error (lostTimeouts g) k = Some delay ->
  let g' := step Math_random Math_PI Math_cos Math_sin
              (lost_timeout_fires k rect) g in
  length (circles g') = S (length (circles g)) /\
  spawnTimeoutId g' = Some (spawnInterval g') /\
  gameRunning g' = gameRunning g /\ paused g' = paused g.
Proof.
  intro H. cbn [step]. rewrite H. cbv zeta.
  unfold spawnNext_timeout, spawnCircle. game_fields.
  destruct (spawnCircle_object _ _ _ _ _ _ _ _) as [c n]. game_fields.
  rewrite length_app. cbn [length].
  split; [lia|]. repeat apply conj; reflexivity.
Qed.

(** X9.  A paused round is frozen so far as the script holds the ids of
    what is pending.  Once the pause button was clicked in a running round
    of which no timeout and no frame request has been lost, no callback
    and no click on a circle changes anything, however many of them the
    host delivers.  But the click clears only the timeout and the frame
    request whose ids the script holds: a lost timeout, as the start button
    leaves one behind when it is clicked over a pending one, still fires
    in the paused round, where its callback, which tests neither
    [gameRunning] nor [paused], pushes a circle and arms a timeout. *)
Theorem paused_round_is_frozen (Math_random : nat -> Q) (Math_PI : Q)
    (Math_cos Math_sin : Q -> Q) (now : Q) (g : Game) :
  gameRunning g = true -> paused g = false ->
  let p := resumeBtn_click now g in
  let run := run Math_random Math_PI Math_cos Math_sin in
  let step := step Math_random Math_PI Math_cos Math_sin in
  paused p = true /\
  (lostTimeouts g = [] -> lostFrames g = 0%nat ->
   forall es, Forall callback_or_circle es -> run es p = p) /\
  (forall k delay rect,
     nth_error (lostTimeouts g) k = Some delay ->
     paused (step (lost_timeout_fires k rect) p) = true /\
     length (circles (step (lost_timeout_fires k rect) p))
     = S (length (circles g)) /\
     spawnTimeoutId (step (lost_timeout_fires k rect) p)
     = Some (spawnInterval (step (lost_timeout_fires k rect) p))).
Proof.
  intros Hrun Hpaused. cbv zeta.
  assert (E : resumeBtn_click now g
              = set_animationFrameId false
                  (set_spawnTimeoutId None (set_paused true g))).
  { unfold resumeBtn_click. rewrite Hrun. cbn [negb]. game_fields.
    rewrite Hpaused. reflexivity. }
  rewrite E. split; [reflexivity|]. split.
  - intros Hlt Hlf es Hes.
    induction Hes as [|e es He Hes IH]; [reflexivity|].
    assert (Hstep : step Math_random Math_PI Math_cos Math_sin e
                      (set_animationFrameId false
                         (set_spawnTimeoutId None (set_paused true g)))
                    = set_animationFrameId false
                        (set_spawnTimeoutId None (set_paused true g)))
      by (apply step_paused;
          [reflexivity|reflexivity|reflexivity|exact Hlt|exact Hlf|exact He]).
    cbn [run fold_left]. rewrite Hstep. exact IH.
  - intros k delay rect Hk.
    match goal with |- context [step _ _ _ _ _ ?h] =>
      destruct (lost_timeout_spawns Math_random Math_PI Math_cos Math_sin
                  k delay rect h Hk) as (H1 & H2 & _ & H4) end.
    rewrite H1, H2, H4. repeat apply conj; reflexivity.
Qed.

Lemma paused_round_is_frozen_witness :
  (let p := resumeBtn_click 1000 splitter_round in
   run steady_random 3 along_x_cos along_x_sin
     [timeout_fires area; frame 5000 area; lost_timeout_fires 0 area;
      lost_frame 5500 area; click_element 0; frame 6000 area] p
   = p) /\
  (let p := resumeBtn_click 35000 lost_chain_round in
   let p' := step steady_random 3 along_x_cos along_x_sin
               (lost_timeout_fires 0 area) p in
   paused p' = true /\
   length (circles p') = S (length (circles lost_chain_round)) /\
   spawnTimeoutId p' = Some (spawnInterval p')).
Proof.
  split.
  - refine (proj1 (proj2
              (paused_round_is_frozen steady_random 3 along_x_cos along_x_sin
                 1000 splitter_round _ _)) _ _ _ _);
      try (vm_compute; reflexivity).
    repeat constructor.
  - refine (proj2 (proj2
              (paused_round_is_frozen steady_random 3 along_x_cos along_x_sin
                 35000 lost_chain_round _ _)) 0%nat _ area _);
      vm_compute; reflexivity.
Defined.

Lemma step_stopped (Math_random : nat -> Q) (Math_PI : Q)
    (Math_cos Math_sin : Q -> Q) (e : event) (g : Game) :
  gameRunning g = false -> spawnTimeoutId g = None ->
  animationFrameId g = false ->
  lostTimeouts g = [] -> lostFrames g = 0%nat -> no_way_back e ->
  step Math_random Math_PI Math_cos Math_sin e g = g.
Proof.
  intros Hr Ht Hf Hlt Hlf He. destruct e; try contradiction; cbn [step].
  - rewrite Ht. reflexivity.
  - rewrite Hf. reflexivity.
  - rewrite Hlt. destruct k; reflexivity.
  - rewrite Hlf. reflexivity.
  - unfold element_click. rewrite Hr. cbn [negb orb].
    destruct (lookup_node n (circles g)) as [[i c]|]; reflexivity.
  - unfold resumeBtn_click. rewrite Hr. reflexivity.
  - unfold restartBtn_click. rewrite Hr. reflexivity.
Qed.

(** X10.  Game over is final for the round so far as the script holds the
    ids of what is pending.  After [gameOver] in a round of which no
    timeout and no frame request has been lost, no callback, no click on a
    circle and no click on the pause or restart button changes anything.
    But [gameOver] clears only the timeout whose id the script holds: a
    lost timeout still fires after the game is over, pushes a circle into
    the stopped game and arms a timeout, which the script then holds. *)
Theorem game_over_is_final (Math_random : nat -> Q) (Math_PI : Q)
    (Math_cos Math_sin : Q -> Q) (g : Game) :
  let over := gameOver g in
  let run := run Math_random Math_PI Math_cos Math_sin in
  let step := step Math_random Math_PI Math_cos Math_sin in
  (lostTimeouts g = [] -> lostFrames g = 0%nat ->
   forall es, Forall no_way_back es -> run es over = over) /\
  (forall k delay rect,
     nth_error (lostTimeouts g) k = Some delay ->
     gameRunning (step (lost_timeout_fires k rect) over) = false /\
     length (circles (step (lost_timeout_fires k rect) over)) = 1%nat /\
     spawnTimeoutId (step (lost_timeout_fires k rect) over)
     = Some (spawnInterval (step (lost_timeout_fires k rect) over))).
Proof.
  cbv zeta. split.
  - intros Hlt Hlf es Hes.
    induction Hes as [|e es He Hes IH]; [reflexivity|].
    assert (Hstep : step Math_random Math_PI Math_cos Math_sin e (gameOver g)
                    = gameOver g)
      by (apply step_stopped;
          [reflexivity|reflexivity|reflexivity|exact Hlt|exact Hlf|exact He]).
    cbn [run fold_left]. rewrite Hstep. exact IH.
  - intros k delay rect Hk.
    destruct (lost_timeout_spawns Math_random Math_PI Math_cos Math_sin
                k delay rect (gameOver g) Hk) as (H1 & H2 & H3 & _).
    rewrite H1, H2, H3. repeat apply conj; reflexivity.
Qed.

(** X11.  The help overlay resumes only what it paused.  Opened over a
    running round and closed at [now], it leaves the round as the pause
    button clicked twice would: running, the frame clock anchored at [now],
    the spawn timeout armed afresh, a frame requested.  Opened over a round
    that was already paused, or stopped, and closed again, it leaves the
    round paused, or stopped. *)
Theorem help_resumes_what_it_paused (now : Q) (g : Game) :
  (gameRunning g = true -> paused g = false ->
   closeHelp now (openHelp g)
   = set_resumeAfterHelp false
       (set_animationFrameId true
          (set_spawnTimeoutId (Some (spawnInterval g))
             (set_lastUpdateTime now g)))) /\
  (gameRunning g = false \/ paused g = true ->
   closeHelp now (openHelp g) = set_resumeAfterHelp false g).
Proof.
  split.
  - intros Hrun Hpaused. unfold closeHelp, openHelp.
    rewrite Hrun, Hpaused. cbn [negb andb]. game_fields. rewrite Hrun.
    cbn [andb]. destruct g. game_fields. subst. reflexivity.
  - intros H. unfold closeHelp, openHelp.
    assert (E : gameRunning g && negb (paused g) = false)
      by (destruct H as [-> | ->]; [reflexivity|apply andb_false_r]).
    rewrite E. game_fields. reflexivity.
Qed.

(** The start button clicked while a round runs with its timeout and its
    frame request pending: a level completed by the frame at 31 s, the
    pause button clicked twice while the overlay is up, then the start
    button. *)
Lemma start_over_pending_round (Math_random : nat -> Q) (Math_PI : Q)
    (Math_cos Math_sin : Q -> Q) :
  let g := run Math_random Math_PI Math_cos Math_sin
             [click_start 0; frame 31000 area; click_resume 32000;
              click_resume 33000; click_start 34000] initial in
  lostTimeouts g = [BASE_SPAWN_INTERVAL * 0.9 ^ 1] /\ lostFrames g = 1%nat /\
  spawnTimeoutId g = Some (BASE_SPAWN_INTERVAL * 0.9 ^ 1) /\
  animationFrameId g = true.
Proof. vm_compute. repeat split. Qed.

(** X12.  The ways into a round make the same fresh round, but only the
    restart and the debug buttons clear what is pending.  [restartLevel]
    is [startLevel] after [clearTimeout] and [cancelAnimationFrame], and so
    is the debug button of level [level] once the level counter is set;
    from a state with nothing pending the restart is the start.  The start
    itself clears nothing: a timeout or a frame request that is pending
    when it runs stays with the host, out of the script's reach, while the
    restart leaves none behind; and a round with such a pending chain under
    the start button is reached from the load of the script.  The fresh
    round is running and not paused, with no circle, score 0, 30 s on the
    timer, the frame clock anchored at [now], the time warp off and due at
    8 s, and the spawn timeout armed with the base interval
    2000 * 0.9 ^ (level - 1). *)
Theorem fresh_round (Math_random : nat -> Q) (Math_PI : Q)
    (Math_cos Math_sin : Q -> Q) (level : Z) (now : Q) (g : Game) :
  restartLevel now g = startLevel now (cancelAnimationFrame (clearTimeout g)) /\
  debugLevel_click level now g
  = startLevel now
      (cancelAnimationFrame (clearTimeout (set_currentLevel level g))) /\
  (spawnTimeoutId g = None -> animationFrameId g = false ->
   restartLevel now g = startLevel now g) /\
  (forall delay, spawnTimeoutId g = Some delay ->
   lostTimeouts (startLevel now g) = lostTimeouts g ++ [delay] /\
   lostTimeouts (restartLevel now g) = lostTimeouts g) /\
  (animationFrameId g = true ->
   lostFrames (startLevel now g) = S (lostFrames g) /\
   lostFrames (restartLevel now g) = lostFrames g) /\
  (exists es,
     let pending := run Math_random Math_PI Math_cos Math_sin es initial in
     exists delay,
       spawnTimeoutId pending = Some delay /\ animationFrameId pending = true) /\
  let g' := startLevel now g in
  gameRunning g' = true /\ paused g' = false /\ circles g' = [] /\
  score g' = 0%Z /\ timeLeft g' = 30 /\ lastUpdateTime g' = now /\
  currentLevel g' = currentLevel g /\
  warpActive g' = false /\ nextWarpAt g' = timeWarpConfig.interval /\
  baseSpawnInterval g' = BASE_SPAWN_INTERVAL * 0.9 ^ (currentLevel g - 1) /\
  spawnInterval g' = baseSpawnInterval g' /\
  spawnTimeoutId g' = Some (baseSpawnInterval g') /\
  animationFrameId g' = true.
Proof.
  split; [destruct g; reflexivity|].
  split; [destruct g; reflexivity|].
  split.
  { intros Ht Hf. destruct g. cbn in Ht, Hf. subst. reflexivity. }
  split.
  { intros delay Ht. destruct g. cbn in Ht. subst. split; reflexivity. }
  split.
  { intros Hf. destruct g. cbn in Hf. subst. split; reflexivity. }
  split.
  { exists [click_start 0; frame 31000 area; click_resume 32000;
            click_resume 33000].
    cbv zeta. eexists. vm_compute. split; reflexivity. }
  repeat apply conj; reflexivity.
Qed.

(** ** The spawn interval over a round and over the levels *)

Lemma floor_absorbs (a q : Q) :
  0 < q -> q <= 1 ->
  Qmax (Qmax a 300 * q) 300 == Qmax (a * q) 300.
Proof.
  intros Hq0 Hq1.
  destruct (Q.max_spec a 300) as [[H1 E1]|[H1 E1]]; rewrite E1.
  - rewrite (Q.max_r (300 * q) 300) by nra.
    rewrite (Q.max_r (a * q) 300) by nra. reflexivity.
  - reflexivity.
Qed.

Lemma pow_succ (k : nat) : 0.9 ^ Z.of_nat (S k) == 0.9 * 0.9 ^ Z.of_nat k.
Proof.
  rewrite Nat2Z.inj_succ. unfold Z.succ. rewrite Qpower_plus by discriminate.
  rewrite Qpower_1_r. ring.
Qed.

Lemma pow_unit (k : nat) : 0 < 0.9 ^ Z.of_nat k /\ 0.9 ^ Z.of_nat k <= 1.
Proof.
  induction k as [|k [IH0 IH1]].
  - split; [reflexivity|discriminate].
  - rewrite pow_succ. split; nra.
Qed.

Lemma pow_antitone (n m : nat) :
  (n <= m)%nat -> 0.9 ^ Z.of_nat m <= 0.9 ^ Z.of_nat n.
Proof.
  induction 1 as [|m Hle IH]; [apply Qle_refl|].
  rewrite pow_succ. destruct (pow_unit m) as [H0 _]. nra.
Qed.

Lemma spawnNext_timeout_base (Math_random : nat -> Q) (Math_PI : Q)
    (Math_cos Math_sin : Q -> Q) (rect : Rect) (g : Game) :
  let g' := spawnNext_timeout Math_random Math_PI Math_cos Math_sin rect g in
  baseSpawnInterval g'
  = Qmax (baseSpawnInterval g * spawnAcceleration g) MIN_SPAWN_INTERVAL /\
  spawnAcceleration g' = spawnAcceleration g.
Proof.
  unfold spawnNext_timeout.
  destruct (spawnCircle_fields Math_random Math_PI Math_cos Math_sin rect g)
    as (Hb & _ & Ha & _).
  set (g1 := spawnCircle Math_random Math_PI Math_cos Math_sin rect g) in *.
  cbv zeta. game_fields. rewrite Hb, Ha. split; reflexivity.
Qed.

(** X13.  Over any number [n >= 1] of spawns in a row the base spawn
    interval decays geometrically down to the floor: with the acceleration
    factor at 0.9, as every reset leaves it, it is
    [max(base * 0.9 ^ n, 300)] afterwards, [base] being its value before. *)
Theorem base_interval_decays_geometrically (Math_random : nat -> Q)
    (Math_PI : Q) (Math_cos Math_sin : Q -> Q) (rect : Rect)
    (rects : list Rect) (g : Game) :
  spawnAcceleration g == 0.9 ->
  baseSpawnInterval
    (spawn_timeouts Math_random Math_PI Math_cos Math_sin (rect :: rects) g)
  == Qmax (baseSpawnInterval g * 0.9 ^ Z.of_nat (S (length rects)))
       MIN_SPAWN_INTERVAL.
Proof.
  revert rect g. unfold MIN_SPAWN_INTERVAL.
  induction rects as [|rect' rects IH]; intros rect g Ha.
  - destruct (spawnNext_timeout_base Math_random Math_PI Math_cos Math_sin
                rect (clearTimeout g)) as [Hb _].
    change (baseSpawnInterval (clearTimeout g)) with (baseSpawnInterval g) in Hb.
    change (spawnAcceleration (clearTimeout g)) with (spawnAcceleration g) in Hb.
    cbn [spawn_timeouts fold_left length]. rewrite Hb.
    unfold MIN_SPAWN_INTERVAL. rewrite Ha. reflexivity.
  - destruct (spawnNext_timeout_base Math_random Math_PI Math_cos Math_sin
                rect (clearTimeout g)) as [Hb Hacc].
    change (baseSpawnInterval (clearTimeout g)) with (baseSpawnInterval g) in Hb.
    change (spawnAcceleration (clearTimeout g)) with (spawnAcceleration g)
      in Hb, Hacc.
    change (spawn_timeouts Math_random Math_PI Math_cos Math_sin
              (rect :: rect' :: rects) g)
      with (spawn_timeouts Math_random Math_PI Math_cos Math_sin
              (rect' :: rects)
              (spawnNext_timeout Math_random Math_PI Math_cos Math_sin rect
                 (clearTimeout g))).
    rewrite IH by (rewrite Hacc; exact Ha).
    rewrite Hb. unfold MIN_SPAWN_INTERVAL. rewrite Ha.
    destruct (pow_unit (S (length rects))) as [H0 H1].
    rewrite floor_absorbs by assumption.
    cbn [length]. rewrite (pow_succ (S (length rects))).
    setoid_replace (baseSpawnInterval g * 0.9 * 0.9 ^ Z.of_nat (S (length rects)))
      with (baseSpawnInterval g * (0.9 * 0.9 ^ Z.of_nat (S (length rects))))
      by ring.
    reflexivity.
Qed.

Lemma base_interval_decays_geometrically_witness :
  baseSpawnInterval
    (spawn_timeouts steady_random 3 along_x_cos along_x_sin
       [area; area; area] level6)
  == Qmax (baseSpawnInterval level6 * 0.9 ^ Z.of_nat 3) MIN_SPAWN_INTERVAL.
Proof.
  apply (base_interval_decays_geometrically steady_random 3 along_x_cos
           along_x_sin area [area; area] level6).
  vm_compute. reflexivity.
Defined.

Lemma first_interval_power (level : Z) :
  first_interval level = BASE_SPAWN_INTERVAL * 0.9 ^ (level - 1).
Proof. reflexivity. Qed.

(** X14.  The base interval with which a level starts is
    2000 * 0.9 ^ (level - 1) and is not floored: from one level to the next
    it shrinks by the factor 0.9; it is at least the minimum 300 up to
    level 19 and below it from level 20 on, until the first spawn of the
    round floors it. *)
Theorem first_interval_is_not_floored (level : Z) :
  (1 <= level)%Z ->
  first_interval (level + 1) == 0.9 * first_interval level /\
  0 < first_interval level /\
  ((level <= 19)%Z -> MIN_SPAWN_INTERVAL <= first_interval level) /\
  ((20 <= level)%Z -> first_interval level < MIN_SPAWN_INTERVAL).
Proof.
  intro Hlevel. rewrite !first_interval_power.
  unfold BASE_SPAWN_INTERVAL, MIN_SPAWN_INTERVAL.
  remember (Z.to_nat (level - 1)) as k eqn:Ek.
  replace (level + 1 - 1)%Z with (Z.of_nat (S k)) by lia.
  replace (level - 1)%Z with (Z.of_nat k) by lia.
  assert (Hlow : (level <= 19)%Z -> 0.9 ^ Z.of_nat 18 <= 0.9 ^ Z.of_nat k)
    by (intro; apply pow_antitone; lia).
  assert (Hhigh : (20 <= level)%Z -> 0.9 ^ Z.of_nat k <= 0.9 ^ Z.of_nat 19)
    by (intro; apply pow_antitone; lia).
  assert (E18 : 300 <= 2000 * 0.9 ^ Z.of_nat 18) by (vm_compute; discriminate).
  assert (E19 : 2000 * 0.9 ^ Z.of_nat 19 < 300) by (vm_compute; reflexivity).
  destruct (pow_unit k) as [H0 H1]. rewrite pow_succ.
  generalize dependent (0.9 ^ Z.of_nat k). intros p Hlow Hhigh H0 H1.
  generalize dependent (0.9 ^ Z.of_nat 18). intros p18 E18 Hlow.
  generalize dependent (0.9 ^ Z.of_nat 19). intros p19 E19 Hhigh.
  split; [ring|]. split; [nra|]. split; intro H.
  - specialize (Hlow H). nra.
  - specialize (Hhigh H). nra.
Qed.

Lemma first_interval_is_not_floored_witness :
  first_interval (20 + 1) == 0.9 * first_interval 20 /\
  0 < first_interval 20 /\
  ((20 <= 19)%Z -> MIN_SPAWN_INTERVAL <= first_interval 20) /\
  ((20 <= 20)%Z -> first_interval 20 < MIN_SPAWN_INTERVAL).
Proof. apply (first_interval_is_not_floored 20). lia. Defined.

(** ** What clicks and frames leave alone *)

Lemma keeps_round_refl (g : Game) : keeps_round g g.
Proof. repeat apply conj; reflexivity. Qed.

Lemma keeps_round_trans (g1 g2 g3 : Game) :
  keeps_round g1 g2 -> keeps_round g2 g3 -> keeps_round g1 g3.
Proof.
  unfold keeps_round. intros H12 H23.
  repeat match goal with H : _ /\ _ |- _ => destruct H end.
  repeat apply conj; congruence.
Qed.

Lemma keeps_round_only_circles (g g' : Game) :
  only_circles g g' -> keeps_round g g'.
Proof.
  unfold only_circles. intro H. rewrite H. repeat apply conj; reflexivity.
Qed.

Lemma keeps_round_pushSplitterChild (Math_random : nat -> Q) (Math_PI : Q)
    (Math_cos Math_sin : Q -> Q) (parent : Circle) (g : Game) :
  keeps_round g
    (pushSplitterChild Math_random Math_PI Math_cos Math_sin parent g) /\
  score (pushSplitterChild Math_random Math_PI Math_cos Math_sin parent g)
  = score g.
Proof.
  destruct (pushSplitterChild_spec Math_random Math_PI Math_cos Math_sin
              parent g) as (c & n & E & _).
  rewrite E. split; [repeat apply conj; reflexivity|reflexivity].
Qed.

(** A click on a circle leaves the settings of the round alone, and the
    score too unless it adds one to it. *)
Lemma element_click_keeps_round (Math_random : nat -> Q) (Math_PI : Q)
    (Math_cos Math_sin : Q -> Q) (n : nat) (g : Game) :
  let g' := element_click Math_random Math_PI Math_cos Math_sin n g in
  keeps_round g g' /\
  (score g' = score g \/
   In n (nodes (circles g)) /\ score g' = (score g + 1)%Z).
Proof.
  unfold element_click.
  destruct (lookup_node n (circles g)) as [[i c]|] eqn:Hlookup;
    [|split; [repeat apply conj; reflexivity|left; reflexivity]].
  destruct (negb (gameRunning g) || paused g);
    [split; [repeat apply conj; reflexivity|left; reflexivity]|].
  assert (Hin : In n (nodes (circles g))).
  { destruct (lookup_node_spec _ _ _ _ Hlookup) as (Hnth & Hn & _).
    rewrite <- Hn. eapply nth_error_nodes, Hnth. }
  destruct (onclick (element c)).
  - unfold circle_click. destruct (1 <? clicks c)%Z.
    + split; [repeat apply conj; reflexivity|left; reflexivity].
    + assert (H : keeps_round g
                    match type c with
                    | splitter =>
                        spawnSplitterChildren Math_random Math_PI Math_cos
                          Math_sin c g
                    | fuse => handleFusePop c true g
                    | _ => g
                    end /\
                  score match type c with
                        | splitter =>
                            spawnSplitterChildren Math_random Math_PI Math_cos
                              Math_sin c g
                        | fuse => handleFusePop c true g
                        | _ => g
                        end = score g).
      { destruct (type c);
          try (split; [repeat apply conj; reflexivity|reflexivity]).
        unfold spawnSplitterChildren.
        destruct (keeps_round_pushSplitterChild Math_random Math_PI Math_cos
                    Math_sin c g) as [K1 S1].
        destruct (keeps_round_pushSplitterChild Math_random Math_PI Math_cos
                    Math_sin c
                    (pushSplitterChild Math_random Math_PI Math_cos Math_sin
                       c g)) as [K2 S2].
        split; [eapply keeps_round_trans; eassumption|congruence]. }
      destruct H as [K S].
      set (g1 := match type c with
                 | splitter => _ | fuse => _ | _ => _ end) in *.
      pose proof (removeCircle_only_circles c g1) as Ho.
      cbv zeta. split.
      * eapply keeps_round_trans; [exact K|].
        eapply keeps_round_trans;
          [apply keeps_round_only_circles, Ho|repeat apply conj; reflexivity].
      * right. split; [exact Hin|]. game_fields. rewrite Ho. game_fields.
        rewrite S. reflexivity.
  - unfold child_click. pose proof (removeCircle_only_circles c g) as Ho.
    cbv zeta. split.
    + eapply keeps_round_trans;
        [apply keeps_round_only_circles, Ho|repeat apply conj; reflexivity].
    + right. split; [exact Hin|]. game_fields. rewrite Ho. reflexivity.
Qed.

Lemma keeps_round_spawnNext_timeout_level (Math_random : nat -> Q)
    (Math_PI : Q) (Math_cos Math_sin : Q -> Q) (rect : Rect) (g : Game) :
  let g' := spawnNext_timeout Math_random Math_PI Math_cos Math_sin rect g in
  currentLevel g' = currentLevel g /\ warpActive g' = warpActive g /\
  score g' = score g.
Proof.
  unfold spawnNext_timeout.
  destruct (spawnCircle_fields Math_random Math_PI Math_cos Math_sin rect g)
    as (_ & _ & _ & Hw & _ & _ & Hs & Hl & _).
  cbv zeta. game_fields. auto.
Qed.

(** The level and the time warp after a frame. *)
Lemma update_level_warp (timestamp : Q) (rect : Rect) (g : Game) :
  (currentLevel g < 6 -> warpActive g = false)%Z ->
  let g' := snd (update timestamp rect g) in
  (currentLevel g' < 6 -> warpActive g' = false)%Z.
Proof.
  intros H. cbv zeta.
  destruct (gameRunning g) eqn:Hrun.
  2: { unfold update. rewrite Hrun. exact H. }
  destruct (paused g) eqn:Hpaused.
  1: { unfold update. rewrite Hrun, Hpaused. exact H. }
  destruct (Qle_bool (timeLeft g - frame_dt timestamp g) 0) eqn:Htime.
  - apply Qle_bool_iff in Htime.
    rewrite (update_level_complete timestamp rect g Hrun Hpaused Htime).
    reflexivity.
  - apply Qle_bool_false in Htime.
    destruct (update_running_fields timestamp rect g Hrun Hpaused Htime)
      as (Hw & _ & _ & _ & _ & _ & _ & Hl).
    rewrite Hw, Hl. unfold before_loop, update_warp. game_fields.
    destruct (6 <=? currentLevel g)%Z eqn:E; [|exact H].
    apply Z.leb_le in E.
    repeat match goal with |- context [if ?b then _ else _] => destruct b end;
      game_fields; intros; lia.
Qed.

(** X15.  The time warp is a matter of level 6 and above: in no state that
    a round can be in, whatever the events since the script was loaded, is
    the warp active while the level is below 6. *)
Theorem no_time_warp_below_level_6 (Math_random : nat -> Q) (Math_PI : Q)
    (Math_cos Math_sin : Q -> Q) (es : list event) :
  let g := run Math_random Math_PI Math_cos Math_sin es initial in
  warpActive g = true -> (6 <= currentLevel g)%Z.
Proof.
  cbv zeta.
  assert (H : forall g,
             (currentLevel g < 6 -> warpActive g = false)%Z ->
             (currentLevel (run Math_random Math_PI Math_cos Math_sin es g) < 6
              -> warpActive (run Math_random Math_PI Math_cos Math_sin es g)
                 = false)%Z).
  { induction es as [|e es IH]; intros g Hg; [exact Hg|].
    change (run Math_random Math_PI Math_cos Math_sin (e :: es) g)
      with (run Math_random Math_PI Math_cos Math_sin es
              (step Math_random Math_PI Math_cos Math_sin e g)).
    apply IH. destruct e; cbn [step].
    - destruct (spawnTimeoutId g); [|exact Hg].
      destruct (keeps_round_spawnNext_timeout_level Math_random Math_PI
                  Math_cos Math_sin rect (clearTimeout g)) as (Hl & Hw & _).
      rewrite Hl, Hw. exact Hg.
    - destruct (animationFrameId g); [|exact Hg].
      apply update_level_warp. exact Hg.
    - destruct (nth_error (lostTimeouts g) k); [|exact Hg].
      match goal with |- context [spawnNext_timeout _ _ _ _ _ ?h] =>
        destruct (keeps_round_spawnNext_timeout_level Math_random Math_PI
                    Math_cos Math_sin rect h) as (Hl & Hw & _) end.
      rewrite Hl, Hw. exact Hg.
    - destruct (lostFrames g); [exact Hg|].
      apply update_level_warp. exact Hg.
    - destruct (element_click_keeps_round Math_random Math_PI Math_cos
                  Math_sin n g) as [K _].
      destruct K as (_ & _ & _ & _ & Hl & _ & _ & _ & _ & _ & Hw & _).
      rewrite Hl, Hw. exact Hg.
    - reflexivity.
    - unfold resumeBtn_click. destruct (negb (gameRunning g)); [exact Hg|].
      game_fields. destruct (negb (paused g)); exact Hg.
    - unfold restartBtn_click. destruct (negb (gameRunning g)); [exact Hg|].
      reflexivity.
    - reflexivity.
    - reflexivity.
    - unfold openHelp. destruct (gameRunning g && negb (paused g)); exact Hg.
    - unfold closeHelp.
      destruct (resumeAfterHelp g && gameRunning g && paused g); exact Hg. }
  intro Hw. specialize (H initial (fun _ => eq_refl)).
  destruct (Z.lt_ge_cases
              (currentLevel (run Math_random Math_PI Math_cos Math_sin es
                               initial)) 6) as [Hlt|Hge]; [|exact Hge].
  rewrite (H Hlt) in Hw. discriminate.
Qed.

Lemma no_time_warp_below_level_6_witness :
  (6 <= currentLevel (run steady_random 3 along_x_cos along_x_sin
                        warp_spawn_trace initial))%Z.
Proof.
  apply (no_time_warp_below_level_6 steady_random 3 along_x_cos along_x_sin
           warp_spawn_trace).
  vm_compute. reflexivity.
Defined.

(** X16.  The score moves in two ways only: a click on a circle that is
    in the array may add exactly one to it, and starting, restarting,
    completing a level or resetting the progress sets it to 0.  So the
    score is never negative, whatever the events since the script was
    loaded. *)
Theorem score_moves_by_clicks_and_resets (Math_random : nat -> Q)
    (Math_PI : Q) (Math_cos Math_sin : Q -> Q) :
  (forall (e : event) (g : Game),
     let g' := step Math_random Math_PI Math_cos Math_sin e g in
     score g' = score g \/ score g' = 0%Z \/
     exists n, e = click_element n /\ In n (nodes (circles g)) /\
               score g' = (score g + 1)%Z) /\
  (forall es : list event,
     (0 <= score (run Math_random Math_PI Math_cos Math_sin es initial))%Z).
Proof.
  assert (Hstep : forall (e : event) (g : Game),
             let g' := step Math_random Math_PI Math_cos Math_sin e g in
             score g' = score g \/ score g' = 0%Z \/
             exists n, e = click_element n /\ In n (nodes (circles g)) /\
                       score g' = (score g + 1)%Z).
  { intros e g. destruct e; cbn [step]; cbv zeta.
    - left. destruct (spawnTimeoutId g); [|reflexivity].
      apply (keeps_round_spawnNext_timeout_level Math_random Math_PI Math_cos
               Math_sin rect (clearTimeout g)).
    - destruct (animationFrameId g); [|left; reflexivity].
      destruct (update_score timestamp rect (cancelAnimationFrame g))
        as [H|H]; [left|right; left]; exact H.
    - left. destruct (nth_error (lostTimeouts g) k); [|reflexivity].
      match goal with |- context [spawnNext_timeout _ _ _ _ _ ?h] =>
        apply (keeps_round_spawnNext_timeout_level Math_random Math_PI
                 Math_cos Math_sin rect h) end.
    - destruct (lostFrames g) as [|lost]; [left; reflexivity|].
      destruct (update_score timestamp rect (set_lostFrames lost g))
        as [H|H]; [left|right; left]; exact H.
    - destruct (element_click_keeps_round Math_random Math_PI Math_cos
                  Math_sin n g) as [_ [H|[Hin H]]]; [left; exact H|].
      right; right. exists n. auto.
    - right; left. reflexivity.
    - left. unfold resumeBtn_click. destruct (negb (gameRunning g));
        [reflexivity|]. game_fields. destruct (negb (paused g)); reflexivity.
    - unfold restartBtn_click. destruct (negb (gameRunning g));
        [left|right; left]; reflexivity.
    - right; left. reflexivity.
    - right; left. reflexivity.
    - left. unfold openHelp. destruct (gameRunning g && negb (paused g));
        reflexivity.
    - left. unfold closeHelp.
      destruct (resumeAfterHelp g && gameRunning g && paused g); reflexivity. }
  split; [exact Hstep|].
  intro es.
  assert (H : forall g, (0 <= score g)%Z ->
                        (0 <= score (run Math_random Math_PI Math_cos Math_sin
                                       es g))%Z).
  { induction es as [|e es IH]; intros g Hg; [exact Hg|].
    change (run Math_random Math_PI Math_cos Math_sin (e :: es) g)
      with (run Math_random Math_PI Math_cos Math_sin es
              (step Math_random Math_PI Math_cos Math_sin e g)).
    apply IH. destruct (Hstep e g) as [H|[H|(n & _ & _ & H)]]; lia. }
  apply H. reflexivity.
Qed.

(** ** Frames do not make circles *)

Lemma incl_nodes_splice1 (l : list Circle) :
  forall i, incl (nodes (splice1 i l)) (nodes l).
Proof.
  induction l as [|d l IH]; intros [|i]; simpl.
  - apply incl_refl.
  - apply incl_refl.
  - apply incl_tl, incl_refl.
  - apply incl_cons; [left; reflexivity|].
    apply incl_tl, IH.
Qed.

Lemma incl_nodes_update_circle (dt : Q) (rect : Rect) (maxR : Q) (i : nat)
    (c : Circle) (g : Game) :
  nth_error (circles g) i = Some c ->
  match update_circle dt rect maxR i c g with
  | next_index g' | returned g' => incl (nodes (circles g')) (nodes (circles g))
  end.
Proof.
  intros Hnth. unfold update_circle.
  destruct (fuse_countdown_fields dt (grow_and_move dt c))
    as (_ & _ & _ & _ & _ & _ & He & _).
  destruct (fuse_countdown dt (grow_and_move dt c)) as [c' exploded].
  cbn [fst] in He. change (element (grow_and_move dt c)) with (element c) in He.
  destruct exploded.
  - unfold removeCircle. rewrite handleFusePop_shockwave. game_fields.
    assert (En : nodes
                   (map (fun d => if same_object d c' then d
                                  else shockwave 1.2 d)
                      (assign i c' (circles g)))
                 = nodes (circles g)).
    { unfold nodes at 1. rewrite map_map.
      erewrite map_ext; [apply (nodes_assign _ _ _ _ Hnth He)|].
      intro d. cbv beta. destruct (same_object d c'); reflexivity. }
    destruct (indexOf c' _); game_fields.
    + rewrite <- En. apply incl_nodes_splice1.
    + rewrite En. apply incl_refl.
  - destruct (Qle_bool maxR (radius (bounce rect c'))); game_fields.
    + intros k [].
    + rewrite (nodes_assign _ _ _ (bounce rect c') Hnth);
        [apply incl_refl|]. rewrite element_bounce. exact He.
Qed.

Lemma incl_nodes_update_circles (dt : Q) (rect : Rect) (maxR : Q) (fuel : nat) :
  forall (i : nat) (g : Game),
    match update_circles fuel dt rect maxR i g with
    | loop_done g' | loop_returned g' =>
        incl (nodes (circles g')) (nodes (circles g)) /\
        (length (circles g') <= length (circles g))%nat
    | loop_unfinished => True
    end.
Proof.
  induction fuel as [|fuel IH]; intros i g; simpl;
    destruct (nth_error (circles g) i) as [c|] eqn:Hnth;
    auto using incl_refl.
  pose proof (incl_nodes_update_circle dt rect maxR i c g Hnth) as H.
  destruct (update_circle dt rect maxR i c g) as [g'|g'] eqn:E.
  - apply update_circle_length in E. specialize (IH (S i) g').
    destruct (update_circles fuel dt rect maxR (S i) g') as [g''|g''|];
      [| |exact I]; destruct IH as [IH1 IH2];
      (split; [eapply incl_tran; eassumption|lia]).
  - apply update_circle_returned in E. subst g'.
    split; [intros k []|cbn; lia].
Qed.

(** X17.  A frame makes no circle: every circle in the array after
    [update] owns an element that a circle of the array owned before, and
    there are no more circles than before. *)
Theorem frame_makes_no_circle (timestamp : Q) (rect : Rect) (g : Game) :
  let g' := snd (update timestamp rect g) in
  incl (nodes (circles g')) (nodes (circles g)) /\
  (length (circles g') <= length (circles g))%nat.
Proof.
  cbv zeta. unfold update.
  destruct (negb (gameRunning g));
    [cbn [snd]; split; [apply incl_refl|lia]|].
  destruct (paused g);
    [cbn [snd]; game_fields; split; [apply incl_refl|lia]|]. cbv zeta.
  match goal with |- context [if ?b then _ else _] => destruct b end;
    [cbn [snd]; unfold levelComplete; game_fields;
     split; [intros k []|cbn [length]; lia]|].
  change (timeLeft (set_timeLeft ?v ?h)) with v.
  change (timeLeft (set_lastUpdateTime ?v ?h)) with (timeLeft h).
  fold (frame_dt timestamp g). fold (before_loop timestamp g).
  match goal with |- context [update_circles ?f ?d ?r ?m ?i ?h] =>
    pose proof (incl_nodes_update_circles d r m f i h) as H;
    destruct (update_circles f d r m i h) end; cbn [snd]; game_fields;
    rewrite ?circles_before_loop in *; try exact H.
  split; [apply incl_refl|lia].
Qed.

(** ** One spawn chain, one frame loop *)

Lemma before_loop_pending (timestamp : Q) (g : Game) :
  lostTimeouts (before_loop timestamp g) = lostTimeouts g /\
  lostFrames (before_loop timestamp g) = lostFrames g /\
  paused (before_loop timestamp g) = paused g /\
  spawnTimeoutId (before_loop timestamp g) = spawnTimeoutId g /\
  animationFrameId (before_loop timestamp g) = animationFrameId g.
Proof.
  unfold before_loop, update_warp.
  repeat match goal with |- context [if ?b then _ else _] => destruct b end;
    repeat apply conj; reflexivity.
Qed.

(** A frame served by a round that is not paused, with no other frame
    request pending, loses nothing. *)
Lemma update_pending (timestamp : Q) (rect : Rect) (g : Game) :
  paused g = false -> animationFrameId g = false ->
  let g' := snd (update timestamp rect g) in
  lostTimeouts g' = lostTimeouts g /\ lostFrames g' = lostFrames g /\
  paused g' = false.
Proof.
  intros Hpaused Hframe. cbv zeta.
  destruct (gameRunning g) eqn:Hrun.
  2: { unfold update. rewrite Hrun. cbn [negb snd]. auto. }
  destruct (Qle_bool (timeLeft g - frame_dt timestamp g) 0) eqn:Htime.
  - apply Qle_bool_iff in Htime.
    rewrite (update_level_complete timestamp rect g Hrun Hpaused Htime).
    cbn [snd]. unfold levelComplete. game_fields. auto.
  - apply Qle_bool_false in Htime.
    destruct (before_loop_pending timestamp g) as (B1 & B2 & B3 & _ & B5).
    destruct (update_running timestamp rect g Hrun Hpaused Htime)
      as [[l E]|E]; rewrite E; cbn [snd].
    + unfold requestAnimationFrame. game_fields.
      rewrite B1, B2, B3, B5, Hframe. auto.
    + unfold gameOver. game_fields. rewrite B1, B2, B3. auto.
Qed.

Lemma spawnNext_timeout_pending (Math_random : nat -> Q) (Math_PI : Q)
    (Math_cos Math_sin : Q -> Q) (rect : Rect) (g : Game) :
  spawnTimeoutId g = None ->
  let g' := spawnNext_timeout Math_random Math_PI Math_cos Math_sin rect g in
  lostTimeouts g' = lostTimeouts g /\ lostFrames g' = lostFrames g /\
  paused g' = paused g.
Proof.
  intro Hslot. cbv zeta. unfold spawnNext_timeout, spawnCircle. game_fields.
  destruct (spawnCircle_object _ _ _ _ _ _ _ _) as [c n]. game_fields.
  rewrite Hslot. auto.
Qed.

Lemma single_chain_step (Math_random : nat -> Q) (Math_PI : Q)
    (Math_cos Math_sin : Q -> Q) (e : event) (g : Game) :
  start_clear e g = true -> single_chain g ->
  single_chain (step Math_random Math_PI Math_cos Math_sin e g).
Proof.
  intros Hclear (Hlt & Hlf & Hp).
  destruct e as [rect|timestamp rect|k rect|timestamp rect|n|now|now|now|
                 |level now| |now]; cbn [step start_clear] in *.
  - (* the timeout that the script holds *)
    destruct (spawnTimeoutId g) as [delay|] eqn:Hslot;
      [|split; [exact Hlt|split; [exact Hlf|]];
        intro Hpd; destruct (Hp Hpd); split; congruence].
    destruct (paused g) eqn:Hpaused;
      [destruct (Hp eq_refl) as [H _]; discriminate|].
    destruct (spawnNext_timeout_pending Math_random Math_PI Math_cos Math_sin
                rect (clearTimeout g) eq_refl) as (H1 & H2 & H3).
    unfold single_chain. rewrite H1, H2, H3. game_fields.
    rewrite Hpaused. split; [exact Hlt|]. split; [exact Hlf|discriminate].
  - (* the frame request that the script holds *)
    destruct (animationFrameId g) eqn:Hframe;
      [|split; [exact Hlt|split; [exact Hlf|]];
        intro Hpd; destruct (Hp Hpd); split; congruence].
    destruct (paused g) eqn:Hpaused;
      [destruct (Hp eq_refl) as [_ H]; discriminate|].
    destruct (update_pending timestamp rect (cancelAnimationFrame g)
                Hpaused eq_refl) as (H1 & H2 & H3).
    unfold single_chain. rewrite H1, H2, H3. game_fields.
    split; [exact Hlt|]. split; [exact Hlf|discriminate].
  - rewrite Hlt. destruct k; (split; [exact Hlt|split; [exact Hlf|exact Hp]]).
  - rewrite Hlf. split; [exact Hlt|split; [exact Hlf|exact Hp]].
  - (* a click on a circle *)
    destruct (element_click_keeps_round Math_random Math_PI Math_cos Math_sin
                n g) as [K _].
    destruct K as (K1 & K2 & _ & K4 & _ & _ & _ & _ & _ & _ & _ & _ & _ & _
                   & K15 & K16).
    unfold single_chain. rewrite K1, K2, K4, K15, K16. auto.
  - (* the start button *)
    destruct (spawnTimeoutId g) eqn:Hslot; [discriminate|].
    apply negb_true_iff in Hclear.
    unfold startBtn_click, startLevel, resetGame, single_chain. game_fields.
    rewrite Hslot, Hclear. split; [exact Hlt|]. split; [exact Hlf|discriminate].
  - (* the pause button *)
    unfold resumeBtn_click.
    destruct (gameRunning g); cbn [negb]; [|split; auto].
    game_fields. destruct (paused g) eqn:Hpaused; cbn [negb].
    + destruct (Hp eq_refl) as [Hslot Hframe]. unfold single_chain.
      game_fields. rewrite Hslot, Hframe.
      split; [exact Hlt|]. split; [exact Hlf|discriminate].
    + unfold single_chain. game_fields. auto.
  - (* the restart button *)
    unfold restartBtn_click.
    destruct (gameRunning g); cbn [negb]; [|split; auto].
    unfold restartLevel, resetGame, single_chain. game_fields.
    split; [exact Hlt|]. split; [exact Hlf|discriminate].
  - (* the reset of the progress *)
    unfold resetProgressBtn_click, resetGame, single_chain. game_fields.
    split; [exact Hlt|]. split; [exact Hlf|discriminate].
  - (* a debug button *)
    unfold debugLevel_click, startLevel, resetGame, single_chain. game_fields.
    split; [exact Hlt|]. split; [exact Hlf|discriminate].
  - (* the help button *)
    unfold openHelp.
    destruct (gameRunning g && negb (paused g)); unfold single_chain;
      game_fields; auto.
  - (* the help overlay closed *)
    unfold closeHelp.
    destruct (resumeAfterHelp g && gameRunning g && paused g) eqn:E;
      unfold single_chain; game_fields; [|auto].
    apply andb_true_iff in E. destruct E as [_ Hpaused].
    destruct (Hp Hpaused) as [Hslot Hframe]. rewrite Hslot, Hframe.
    split; [exact Hlt|]. split; [exact Hlf|discriminate].
Qed.

(** X29.  The game runs one spawn chain and one frame loop, and the
    script holds their ids, so long as the start button is not clicked
    over a pending timeout or frame request: along any events in which
    every click on the start button finds nothing pending, no timeout and
    no frame request is ever lost, and nothing at all is pending while the
    round is paused.  The pause and restart buttons, the help overlay, the
    debug buttons, the reset of the progress, the end of a level and the
    end of the game all clear before they arm. *)
Theorem nothing_lost_unless_started_over (Math_random : nat -> Q)
    (Math_PI : Q) (Math_cos Math_sin : Q -> Q) (es : list event) :
  starts_clear Math_random Math_PI Math_cos Math_sin es initial = true ->
  single_chain (run Math_random Math_PI Math_cos Math_sin es initial).
Proof.
  assert (H : forall g,
             starts_clear Math_random Math_PI Math_cos Math_sin es g = true ->
             single_chain g ->
             single_chain (run Math_random Math_PI Math_cos Math_sin es g)).
  { induction es as [|e es IH]; intros g Hes Hg; [exact Hg|].
    cbn [starts_clear] in Hes. apply andb_true_iff in Hes.
    destruct Hes as [He Hes].
    change (run Math_random Math_PI Math_cos Math_sin (e :: es) g)
      with (run Math_random Math_PI Math_cos Math_sin es
              (step Math_random Math_PI Math_cos Math_sin e g)).
    apply IH; [exact Hes|]. apply single_chain_step; assumption. }
  intro Hes. apply H; [exact Hes|].
  split; [reflexivity|]. split; [reflexivity|]. discriminate.
Qed.

Lemma nothing_lost_unless_started_over_witness :
  single_chain
    (run steady_random 3 along_x_cos along_x_sin
       [click_start 0; timeout_fires area; frame 1000 area; click_resume 1500;
        click_resume 2000; frame 33000 area; click_start 34000;
        timeout_fires area; click_restart 35000]
       initial).
Proof.
  apply (nothing_lost_unless_started_over steady_random 3 along_x_cos
           along_x_sin
           [click_start 0; timeout_fires area; frame 1000 area;
            click_resume 1500; click_resume 2000; frame 33000 area;
            click_start 34000; timeout_fires area; click_restart 35000]).
  vm_compute. reflexivity.
Defined.

(** * The page *)

(** ** The display and the storage do not steer the game *)

Lemma game_page_update (timestamp : Q) (rect : Rect) (p : Page) :
  fst (page_update timestamp rect p) = fst (update timestamp rect (game p)) /\
  game (snd (page_update timestamp rect p))
  = snd (update timestamp rect (game p)).
Proof.
  unfold page_update, update.
  destruct (negb (gameRunning (game p))); [split; reflexivity|].
  destruct (paused (game p)); [split; reflexivity|].
  cbv zeta. cbn [game on_game].
  match goal with |- context [Qle_bool ?a ?b] => destruct (Qle_bool a b) end;
    [split; reflexivity|].
  match goal with |- context [update_circles ?f ?d ?r ?m ?i ?h] =>
    destruct (update_circles f d r m i h) end; split; reflexivity.
Qed.

Lemma game_page_element_click (Math_random : nat -> Q) (Math_PI : Q)
    (Math_cos Math_sin : Q -> Q) (n : nat) (p : Page) :
  game (page_element_click Math_random Math_PI Math_cos Math_sin n p)
  = element_click Math_random Math_PI Math_cos Math_sin n (game p).
Proof.
  unfold page_element_click, element_click.
  destruct (lookup_node n (circles (game p))) as [[i c]|]; [|reflexivity].
  destruct (negb (gameRunning (game p)) || paused (game p)); [reflexivity|].
  destruct (onclick (element c)); [|reflexivity].
  unfold page_circle_click, circle_click.
  destruct (1 <? clicks c)%Z; [reflexivity|].
  destruct (type c); reflexivity.
Qed.

Lemma game_page_step (Math_random : nat -> Q) (Math_PI : Q)
    (Math_cos Math_sin : Q -> Q) (e : event) (p : Page) :
  game (page_step Math_random Math_PI Math_cos Math_sin e p)
  = step Math_random Math_PI Math_cos Math_sin e (game p).
Proof.
  destruct e; cbn [page_step step].
  - destruct (spawnTimeoutId (game p)); reflexivity.
  - destruct (animationFrameId (game p)); [|reflexivity].
    apply game_page_update.
  - destruct (nth_error (lostTimeouts (game p)) k); reflexivity.
  - destruct (lostFrames (game p)); [reflexivity|].
    apply game_page_update.
  - apply game_page_element_click.
  - reflexivity.
  - reflexivity.
  - unfold page_restartBtn_click, restartBtn_click.
    destruct (negb (gameRunning (game p))); reflexivity.
  - reflexivity.
  - reflexivity.
  - reflexivity.
  - reflexivity.
Qed.

(** X19.  The display and the stored best level never steer the game:
    along any events the game's variables on the page are what the events
    make of the game alone, whatever the storage held and the display
    showed. *)
Theorem page_follows_game (Math_random : nat -> Q) (Math_PI : Q)
    (Math_cos Math_sin : Q -> Q) (es : list event) (p : Page) :
  game (page_run Math_random Math_PI Math_cos Math_sin es p)
  = run Math_random Math_PI Math_cos Math_sin es (game p).
Proof.
  revert p. induction es as [|e es IH]; intro p; [reflexivity|].
  change (page_run Math_random Math_PI Math_cos Math_sin (e :: es) p)
    with (page_run Math_random Math_PI Math_cos Math_sin es
            (page_step Math_random Math_PI Math_cos Math_sin e p)).
  rewrite IH, game_page_step. reflexivity.
Qed.

(** ** The stored best level *)

Lemma best_updateUI (p : Page) :
  stored_best (updateUI p) = Z.max (stored_best p) (currentLevel (game p)) /\
  bestSpan (panel (updateUI p)) = stored_best (updateUI p) /\
  game (updateUI p) = game p.
Proof.
  unfold updateUI. cbv zeta. cbn [game panel bestSpan].
  destruct (stored_best p <? currentLevel (game p))%Z eqn:E;
    unfold stored_best in *; cbn [bestLevel set_bestLevel].
  - apply Z.ltb_lt in E. repeat apply conj; try reflexivity; lia.
  - apply Z.ltb_ge in E. repeat apply conj; try reflexivity; lia.
Qed.

Lemma stored_best_on_game (f : Game -> Game) (q : Page) :
  stored_best (on_game f q) = stored_best q.
Proof. reflexivity. Qed.

Lemma game_on_game (f : Game -> Game) (q : Page) :
  game (on_game f q) = f (game q).
Proof. reflexivity. Qed.

Lemma panel_on_game (f : Game -> Game) (q : Page) :
  panel (on_game f q) = panel q.
Proof. reflexivity. Qed.

Ltac page_fields :=
  repeat first [ rewrite stored_best_on_game
               | rewrite game_on_game
               | rewrite panel_on_game ].

Lemma best_page_resetGame (p : Page) :
  stored_best (page_resetGame p)
  = Z.max (stored_best p) (currentLevel (game p)) /\
  game (page_resetGame p) = resetGame (game p).
Proof.
  split; [|reflexivity]. unfold page_resetGame. cbv zeta. page_fields.
  destruct (best_updateUI
              (on_game (set_spawnAcceleration 0.9)
                 (on_game (fun g => set_spawnInterval (baseSpawnInterval g) g)
                    (on_game (fun g => set_baseSpawnInterval
                                (BASE_SPAWN_INTERVAL
                                 * Qpower 0.9 (currentLevel g - 1)) g)
                       (on_game (set_timeLeft 30)
                          (on_game (set_circles []) p))))))
    as (H & _ & _).
  rewrite H. reflexivity.
Qed.

Lemma best_page_levelComplete (p : Page) :
  stored_best (page_levelComplete p)
  = Z.max (stored_best p) (currentLevel (game p) + 1) /\
  game (page_levelComplete p) = levelComplete (game p).
Proof.
  split; [|reflexivity]. unfold page_levelComplete. cbv zeta. page_fields.
  match goal with |- stored_best (updateUI ?q) = _ =>
    destruct (best_updateUI q) as (H & _ & _); rewrite H end.
  reflexivity.
Qed.

Lemma best_page_startLevel (now : Q) (p : Page) :
  stored_best (page_startLevel now p)
  = Z.max (stored_best p) (currentLevel (game p)) /\
  game (page_startLevel now p) = startLevel now (game p).
Proof.
  split; [|reflexivity]. unfold page_startLevel. cbv zeta. page_fields.
  apply best_page_resetGame.
Qed.

Lemma best_page_restartLevel (now : Q) (p : Page) :
  stored_best (page_restartLevel now p)
  = Z.max (stored_best p) (currentLevel (game p)) /\
  game (page_restartLevel now p) = restartLevel now (game p).
Proof.
  split; [|reflexivity]. unfold page_restartLevel. cbv zeta. page_fields.
  match goal with |- stored_best (page_resetGame ?q) = _ =>
    destruct (best_page_resetGame q) as (H & _); rewrite H end.
  reflexivity.
Qed.

Lemma best_page_debugLevel_click (level : Z) (now : Q) (p : Page) :
  stored_best (page_debugLevel_click level now p)
  = Z.max (stored_best p) level /\
  currentLevel (game (page_debugLevel_click level now p)) = level.
Proof.
  split; [|reflexivity]. unfold page_debugLevel_click. cbv zeta.
  match goal with |- stored_best (page_startLevel _ ?q) = _ =>
    destruct (best_page_startLevel now q) as (H & _); rewrite H end.
  match goal with |- context [stored_best (page_resetGame ?q)] =>
    destruct (best_page_resetGame q) as (H' & E'); rewrite H', E' end.
  page_fields. cbn. lia.
Qed.

Lemma best_page_resetProgressBtn_click (p : Page) :
  stored_best (page_resetProgressBtn_click p)
  = Z.max 0 (currentLevel (game p)) /\
  bestSpan (panel (page_resetProgressBtn_click p))
  = Z.max 0 (currentLevel (game p)) /\
  levelSpan (panel (page_resetProgressBtn_click p)) = currentLevel (game p) /\
  scoreSpan (panel (page_resetProgressBtn_click p)) = score (game p) /\
  currentLevel (game (page_resetProgressBtn_click p)) = 1%Z /\
  score (game (page_resetProgressBtn_click p)) = 0%Z.
Proof.
  unfold page_resetProgressBtn_click, page_resetGame. cbv zeta. page_fields.
  match goal with |- context [updateUI ?q] =>
    destruct (best_updateUI q) as (H & Hs & _); rewrite Hs, H end.
  repeat apply conj; reflexivity.
Qed.

Lemma currentLevel_update_warp (elapsed : Q) (g : Game) :
  currentLevel (update_warp elapsed g) = currentLevel g.
Proof.
  unfold update_warp.
  repeat match goal with |- context [if ?b then _ else _] => destruct b end;
    reflexivity.
Qed.

Lemma best_page_update (timestamp : Q) (rect : Rect) (p : Page) :
  let p' := snd (page_update timestamp rect p) in
  (stored_best p <= stored_best p')%Z /\
  (currentLevel (game p) <= currentLevel (game p'))%Z /\
  ((currentLevel (game p) <= stored_best p)%Z ->
   (currentLevel (game p') <= stored_best p')%Z).
Proof.
  unfold page_update.
  destruct (negb (gameRunning (game p))); [cbn [snd]; lia|].
  destruct (paused (game p)); [cbn [snd]; page_fields; cbn; lia|].
  cbv zeta. page_fields.
  match goal with |- context [Qle_bool ?a ?b] => destruct (Qle_bool a b) end.
  - cbn [snd].
    match goal with |- context [page_levelComplete ?q] =>
      destruct (best_page_levelComplete q) as [H E]; rewrite H, E end.
    page_fields. cbn [currentLevel levelComplete set_warpEndAt set_nextWarpAt
      set_warpActive set_spawnAcceleration set_spawnInterval
      set_baseSpawnInterval set_score set_timeLeft set_currentLevel
      set_circles cancelAnimationFrame clearTimeout set_animationFrameId
      set_spawnTimeoutId set_lastUpdateTime].
    lia.
  - match goal with |- context [update_circles ?f ?d ?r ?m ?i ?h] =>
      destruct (update_circles f d r m i h) as [g'|g'|] eqn:E end;
      cbn [snd]; page_fields.
    + apply update_circles_done in E.
      assert (Hl : currentLevel g' = currentLevel (game p))
        by (rewrite E; game_fields; rewrite currentLevel_update_warp;
            reflexivity).
      match goal with |- context [updateUI ?q] =>
        destruct (best_updateUI q) as (H & _ & Hg); rewrite H, Hg end.
      page_fields. cbn [currentLevel requestAnimationFrame
                          set_animationFrameId set_lostFrames].
      rewrite Hl. lia.
    + apply update_circles_returned in E.
      assert (Hl : currentLevel g' = currentLevel (game p))
        by (rewrite E; unfold gameOver; game_fields;
            rewrite currentLevel_update_warp; reflexivity).
      rewrite Hl. lia.
    + rewrite currentLevel_update_warp. cbn [currentLevel set_timeLeft
        set_lastUpdateTime]. lia.
Qed.

Lemma best_page_element_click (Math_random : nat -> Q) (Math_PI : Q)
    (Math_cos Math_sin : Q -> Q) (n : nat) (p : Page) :
  let p' := page_element_click Math_random Math_PI Math_cos Math_sin n p in
  (stored_best p <= stored_best p')%Z /\
  currentLevel (game p') = currentLevel (game p).
Proof.
  cbv zeta. split.
  - unfold page_element_click.
    destruct (lookup_node n (circles (game p))) as [[i c]|]; [|lia].
    destruct (negb (gameRunning (game p)) || paused (game p)); [lia|].
    destruct (onclick (element c)).
    + unfold page_circle_click.
      destruct (1 <? clicks c)%Z; [page_fields; lia|].
      match goal with |- context [updateUI ?q] =>
        destruct (best_updateUI q) as (H & _ & _); rewrite H end.
      page_fields. destruct (type c); page_fields; lia.
    + unfold page_child_click. cbv zeta.
      match goal with |- context [updateUI ?q] =>
        destruct (best_updateUI q) as (H & _ & _); rewrite H end.
      page_fields. lia.
  - rewrite game_page_element_click.
    destruct (element_click_keeps_round Math_random Math_PI Math_cos Math_sin
                n (game p)) as [K _].
    apply K.
Qed.

(** What an event does to the stored best level and to the level. *)
Lemma best_page_step (Math_random : nat -> Q) (Math_PI : Q)
    (Math_cos Math_sin : Q -> Q) (e : event) (p : Page) :
  let p' := page_step Math_random Math_PI Math_cos Math_sin e p in
  (e <> click_resetProgress -> (stored_best p <= stored_best p')%Z) /\
  (button_exists e ->
   (1 <= currentLevel (game p) <= stored_best p)%Z ->
   (1 <= currentLevel (game p') <= stored_best p')%Z).
Proof.
  destruct e; cbn [page_step button_exists]; cbv zeta.
  - destruct (spawnTimeoutId (game p)); [|split; intros; lia].
    page_fields.
    destruct (keeps_round_spawnNext_timeout_level Math_random Math_PI Math_cos
                Math_sin rect (clearTimeout (game p))) as (Hl & _).
    rewrite Hl. cbn [currentLevel clearTimeout set_spawnTimeoutId].
    split; intros; lia.
  - destruct (animationFrameId (game p)); [|split; intros; lia].
    destruct (best_page_update timestamp rect (on_game cancelAnimationFrame p))
      as (H1 & H2 & H3).
    revert H1 H2 H3. page_fields.
    cbn [currentLevel cancelAnimationFrame set_animationFrameId].
    intros H1 H2 H3. split; intros; [lia|]. split; [lia|apply H3; lia].
  - destruct (nth_error (lostTimeouts (game p)) k); [|split; intros; lia].
    page_fields.
    match goal with |- context [spawnNext_timeout _ _ _ _ _ ?h] =>
      destruct (keeps_round_spawnNext_timeout_level Math_random Math_PI
                  Math_cos Math_sin rect h) as (Hl & _) end.
    rewrite Hl. cbn [currentLevel set_lostTimeouts].
    split; intros; lia.
  - destruct (lostFrames (game p)) as [|lost]; [split; intros; lia|].
    destruct (best_page_update timestamp rect (on_game (set_lostFrames lost) p))
      as (H1 & H2 & H3).
    revert H1 H2 H3. page_fields.
    cbn [currentLevel set_lostFrames].
    intros H1 H2 H3. split; intros; [lia|]. split; [lia|apply H3; lia].
  - destruct (best_page_element_click Math_random Math_PI Math_cos Math_sin
                n p) as [H1 H2].
    rewrite H2. split; intros; lia.
  - destruct (best_page_startLevel now p) as [H E]. rewrite H, E.
    cbn. split; intros; lia.
  - page_fields.
    assert (Hl : currentLevel (resumeBtn_click now (game p))
                 = currentLevel (game p)).
    { unfold resumeBtn_click. destruct (negb (gameRunning (game p)));
        [reflexivity|]. game_fields. destruct (negb (paused (game p)));
        reflexivity. }
    rewrite Hl. split; intros; lia.
  - unfold page_restartBtn_click.
    destruct (negb (gameRunning (game p))); [split; intros; lia|].
    destruct (best_page_restartLevel now p) as [H E]. rewrite H, E.
    cbn. split; intros; lia.
  - split; [congruence|]. intros _ [H1 H2].
    destruct (best_page_resetProgressBtn_click p) as (H & _ & _ & _ & Hl & _).
    rewrite H, Hl. lia.
  - destruct (best_page_debugLevel_click level now p) as [H Hl].
    rewrite H, Hl. split; intros; lia.
  - page_fields.
    assert (Hl : currentLevel (openHelp (game p)) = currentLevel (game p)).
    { unfold openHelp.
      destruct (gameRunning (game p) && negb (paused (game p))); reflexivity. }
    rewrite Hl. split; intros; lia.
  - page_fields.
    assert (Hl : currentLevel (closeHelp now (game p)) = currentLevel (game p)).
    { unfold closeHelp.
      destruct (resumeAfterHelp (game p) && gameRunning (game p)
                && paused (game p)); reflexivity. }
    rewrite Hl. split; intros; lia.
Qed.

(** X20.  Once a round has been started, the stored best level keeps up
    with the game: along any further events (the debug buttons being those
    of levels 1 to 6) the item ['bestLevel'] is present and holds a level
    that is at least the current level, which is at least 1; whatever
    level the storage held, if any, when the script was loaded. *)
Theorem best_level_keeps_up (Math_random : nat -> Q) (Math_PI : Q)
    (Math_cos Math_sin : Q -> Q) (now : Q) (es : list event)
    (stored : option Z) (shown : Panel) :
  Forall button_exists es ->
  let p := page_run Math_random Math_PI Math_cos Math_sin
             (click_start now :: es) (initial_page stored shown) in
  (1 <= currentLevel (game p) <= stored_best p)%Z /\ bestLevel p <> None.
Proof.
  intros Hes. cbv zeta.
  assert (H : forall q,
             (1 <= currentLevel (game q) <= stored_best q)%Z ->
             (1 <= currentLevel
                     (game (page_run Math_random Math_PI Math_cos Math_sin
                              es q))
              <= stored_best (page_run Math_random Math_PI Math_cos Math_sin
                                es q))%Z).
  { induction Hes as [|e es He Hes IH]; intros q Hq; [exact Hq|].
    change (page_run Math_random Math_PI Math_cos Math_sin (e :: es) q)
      with (page_run Math_random Math_PI Math_cos Math_sin es
              (page_step Math_random Math_PI Math_cos Math_sin e q)).
    apply IH.
    apply (best_page_step Math_random Math_PI Math_cos Math_sin e q); assumption. }
  change (page_run Math_random Math_PI Math_cos Math_sin
            (click_start now :: es) (initial_page stored shown))
    with (page_run Math_random Math_PI Math_cos Math_sin es
            (page_startLevel now (initial_page stored shown))).
  assert (H0 : (1 <= currentLevel
                       (game (page_startLevel now (initial_page stored shown)))
                <= stored_best (page_startLevel now
                                  (initial_page stored shown)))%Z).
  { destruct (best_page_startLevel now (initial_page stored shown)) as [Hb E].
    rewrite Hb, E. cbn. lia. }
  specialize (H _ H0). split; [exact H|].
  intro Hnone. unfold stored_best in H. rewrite Hnone in H. lia.
Qed.

Lemma best_level_keeps_up_witness :
  let p := page_run steady_random 3 along_x_cos along_x_sin
             (click_start 0
              :: [timeout_fires area; frame 31000 area; click_resetProgress;
                  click_debugLevel 4 40000])
             (initial_page None blank_panel) in
  (1 <= currentLevel (game p) <= stored_best p)%Z /\ bestLevel p <> None.
Proof.
  apply (best_level_keeps_up steady_random 3 along_x_cos along_x_sin 0
           [timeout_fires area; frame 31000 area; click_resetProgress;
            click_debugLevel 4 40000] None blank_panel).
  repeat constructor; cbn; lia.
Defined.

(** X21.  Only the reset button lowers the stored best level: along
    events among which it is not clicked, the level that the storage holds
    (0 while the item is absent) never goes down. *)
Theorem best_level_never_goes_down (Math_random : nat -> Q) (Math_PI : Q)
    (Math_cos Math_sin : Q -> Q) (es : list event) (p : Page) :
  Forall (fun e => e <> click_resetProgress) es ->
  (stored_best p
   <= stored_best (page_run Math_random Math_PI Math_cos Math_sin es p))%Z.
Proof.
  intro Hes. revert p.
  induction Hes as [|e es He Hes IH]; intro p; [cbn; lia|].
  change (page_run Math_random Math_PI Math_cos Math_sin (e :: es) p)
    with (page_run Math_random Math_PI Math_cos Math_sin es
            (page_step Math_random Math_PI Math_cos Math_sin e p)).
  specialize (IH (page_step Math_random Math_PI Math_cos Math_sin e p)).
  destruct (best_page_step Math_random Math_PI Math_cos Math_sin e p)
    as [H _].
  specialize (H He). lia.
Qed.

Lemma best_level_never_goes_down_witness :
  (stored_best (initial_page (Some 3%Z) blank_panel)
   <= stored_best
        (page_run steady_random 3 along_x_cos along_x_sin
           [click_start 0; timeout_fires area; frame 31000 area]
           (initial_page (Some 3%Z) blank_panel)))%Z.
Proof.
  apply (best_level_never_goes_down steady_random 3 along_x_cos along_x_sin
           [click_start 0; timeout_fires area; frame 31000 area]
           (initial_page (Some 3%Z) blank_panel)).
  repeat constructor; discriminate.
Defined.

(** X22.  The reset button does not leave the storage empty.  It removes
    the item ['bestLevel'] and shows 0, but [resetGame], called before the
    level counter is set back, writes the display anew: with the game at a
    level of 1 or more, the item is stored again with that level, and the
    display shows that level as level and as best and the score of the
    abandoned round, while the game is stopped at level 1 with score 0. *)
Theorem reset_progress_restores_the_level (p : Page) :
  (1 <= currentLevel (game p))%Z ->
  let p' := page_resetProgressBtn_click p in
  bestLevel p' = Some (currentLevel (game p)) /\
  bestSpan (panel p') = currentLevel (game p) /\
  levelSpan (panel p') = currentLevel (game p) /\
  scoreSpan (panel p') = score (game p) /\
  currentLevel (game p') = 1%Z /\ score (game p') = 0%Z /\
  gameRunning (game p') = false.
Proof.
  intros Hlevel. cbv zeta.
  unfold page_resetProgressBtn_click, page_resetGame, updateUI. cbv zeta.
  cbn [game on_game bestLevel panel set_bestLevel set_bestSpan stored_best
       bestSpan levelSpan scoreSpan].
  game_fields.
  assert (E : (0 <? currentLevel (game p))%Z = true)
    by (apply Z.ltb_lt; lia).
  rewrite E. cbn [bestLevel set_bestLevel]. repeat apply conj; reflexivity.
Qed.

Lemma reset_progress_restores_the_level_witness :
  let p := page_run steady_random 3 along_x_cos along_x_sin
             [click_debugLevel 4 0; timeout_fires area]
             (initial_page (Some 6%Z) blank_panel) in
  let p' := page_resetProgressBtn_click p in
  bestLevel p' = Some (currentLevel (game p)) /\
  bestSpan (panel p') = currentLevel (game p) /\
  levelSpan (panel p') = currentLevel (game p) /\
  scoreSpan (panel p') = score (game p) /\
  currentLevel (game p') = 1%Z /\ score (game p') = 0%Z /\
  gameRunning (game p') = false.
Proof.
  apply (reset_progress_restores_the_level
           (page_run steady_random 3 along_x_cos along_x_sin
              [click_debugLevel 4 0; timeout_fires area]
              (initial_page (Some 6%Z) blank_panel))).
  vm_compute. discriminate.
Defined.

(** * The first version of the game *)

Section LegacyGame.
Import Legacy.

(** ** The loop over the circles *)

Lemma legacy_length_assign (i : nat) (c : Circle) (l : list Circle) :
  length (assign i c l) = length l.
Proof.
  revert i; induction l as [|d l IH]; intros [|i]; simpl; auto.
Qed.

Lemma legacy_skipn_nth_error (l : list Circle) :
  forall (i : nat) (c : Circle),
    nth_error l i = Some c -> skipn i l = c :: skipn (S i) l.
Proof.
  induction l as [|d l IH]; intros [|i] c H; simpl in H; try discriminate.
  - injection H as ->. reflexivity.
  - apply (IH i c H).
Qed.

Lemma legacy_skipn_assign (l : list Circle) :
  forall (i : nat) (c : Circle), skipn (S i) (assign i c l) = skipn (S i) l.
Proof.
  induction l as [|d l IH]; intros [|i] c; try reflexivity.
  apply (IH i c).
Qed.

Lemma legacy_firstn_assign (l : list Circle) :
  forall (i : nat) (c : Circle),
    (i < length l)%nat -> firstn (S i) (assign i c l) = firstn i l ++ [c].
Proof.
  induction l as [|d l IH]; intros [|i] c H; simpl in H; try lia.
  - reflexivity.
  - change (d :: firstn (S i) (assign i c l) = d :: (firstn i l ++ [c])).
    rewrite IH by lia. reflexivity.
Qed.

Lemma legacy_set_circles_same (g : Game) : set_circles (circles g) g = g.
Proof. destruct g; reflexivity. Qed.

Lemma legacy_gameOver_circles (l : list Circle) (g : Game) :
  gameOver (set_circles l g) = gameOver g.
Proof.
  destruct g as [cs tid fid run psd lvl tl si sa lut tos frs tids fids els rc].
  destruct tid, fid; reflexivity.
Qed.

Lemma legacy_radius_bounce (rect : Rect) (c : Circle) :
  radius (bounce rect c) = radius c.
Proof.
  unfold bounce, bounce_y, bounce_x.
  repeat match goal with |- context [if ?b then _ else _] => destruct b end;
    reflexivity.
Qed.

Lemma legacy_radius_advance (dt : Q) (rect : Rect) (c : Circle) :
  radius (advance dt rect c) = radius c + growth c * dt.
Proof. unfold advance. rewrite legacy_radius_bounce. reflexivity. Qed.

Lemma legacy_update_circle (dt : Q) (rect : Rect) (maxR : Q) (i : nat)
    (c : Circle) (g : Game) :
  update_circle dt rect maxR i c g
  = if breaches maxR dt c then returned (gameOver g)
    else next_index (set_circles (assign i (advance dt rect c) (circles g)) g).
Proof.
  unfold update_circle, breaches. rewrite <- (legacy_radius_advance dt rect c).
  fold (advance dt rect c).
  destruct (Qle_bool maxR (radius (advance dt rect c))); [|reflexivity].
  rewrite legacy_gameOver_circles. reflexivity.
Qed.

(** The loop takes every circle once, in the order of the array, and stops
    at the first one that has reached [maxR]. *)
Lemma legacy_update_circles (dt : Q) (rect : Rect) (maxR : Q) (fuel : nat) :
  forall (i : nat) (g : Game),
    (length (circles g) - i <= fuel)%nat ->
    update_circles fuel dt rect maxR i g
    = if existsb (breaches maxR dt) (skipn i (circles g))
      then loop_returned (gameOver g)
      else loop_done
             (set_circles
                (firstn i (circles g)
                 ++ map (advance dt rect) (skipn i (circles g))) g).
Proof.
  induction fuel as [|fuel IH]; intros i g Hfuel.
  - assert (Hlen : (length (circles g) <= i)%nat) by lia.
    assert (Hnone : nth_error (circles g) i = None)
      by (apply nth_error_None; exact Hlen).
    simpl. rewrite Hnone, (skipn_all2 _ Hlen), (firstn_all2 _ Hlen).
    simpl. rewrite app_nil_r, legacy_set_circles_same. reflexivity.
  - simpl. destruct (nth_error (circles g) i) as [c|] eqn:Hnth.
    + assert (Hi : (i < length (circles g))%nat)
        by (apply nth_error_Some; congruence).
      rewrite (legacy_skipn_nth_error _ _ _ Hnth).
      rewrite legacy_update_circle.
      cbn [existsb map]. destruct (breaches maxR dt c); [reflexivity|].
      cbn [orb].
      rewrite IH
        by (cbn [circles set_circles]; rewrite legacy_length_assign; lia).
      cbn [circles set_circles].
      rewrite legacy_skipn_assign, legacy_firstn_assign by exact Hi.
      destruct (existsb (breaches maxR dt) (skipn (S i) (circles g))).
      * rewrite legacy_gameOver_circles. reflexivity.
      * rewrite <- app_assoc. reflexivity.
    + assert (Hlen : (length (circles g) <= i)%nat)
        by (apply nth_error_None; exact Hnth).
      rewrite (skipn_all2 _ Hlen), (firstn_all2 _ Hlen).
      simpl. rewrite app_nil_r, legacy_set_circles_same. reflexivity.
Qed.

(** The three ways a frame of a running game that is not paused can go. *)
Lemma legacy_update_running (timestamp now : Q) (rect : Rect) (g : Game) :
  gameRunning g = true -> paused g = false ->
  let dt := (timestamp - lastUpdateTime g) / 1000 in
  let g1 := set_timeLeft (timeLeft g - dt) (set_lastUpdateTime timestamp g) in
  update timestamp now rect g
  = if Qle_bool (timeLeft g - dt) 0
    then (level_completed, levelComplete now g1)
    else if existsb (breaches (lethal_radius rect) dt) (circles g)
    then (game_over, gameOver g1)
    else (frame_done,
          requestUpdate (set_circles (map (advance dt rect) (circles g)) g1)).
Proof.
  intros Hrun Hpaused. cbv zeta. unfold update. rewrite Hrun, Hpaused.
  cbn [negb]. cbv zeta.
  cbn [timeLeft set_timeLeft set_lastUpdateTime lastUpdateTime].
  destruct (Qle_bool (timeLeft g - (timestamp - lastUpdateTime g) / 1000) 0);
    [reflexivity|].
  rewrite legacy_update_circles by lia.
  cbn [circles set_timeLeft set_lastUpdateTime skipn firstn app].
  unfold lethal_radius.
  destruct (existsb _ (circles g)); reflexivity.
Qed.

(** ** Timers and frame requests *)

Lemma legacy_spawnCircle (Math_random : nat -> Q) (Math_PI : Q)
    (Math_cos Math_sin : Q -> Q) (rect : Rect) (g : Game) :
  exists (c : Circle) (n : nat),
    spawnCircle Math_random Math_PI Math_cos Math_sin rect g
    = set_circles (circles g ++ [c])
        (set_randomCalls n (set_elements (S (elements g)) g)).
Proof.
  unfold spawnCircle.
  destruct (spawnCircle_object Math_random Math_PI Math_cos Math_sin rect
              (currentLevel (set_elements (S (elements g)) g)) (elements g)
              (randomCalls (set_elements (S (elements g)) g))) as [c n].
  exists c, n. reflexivity.
Qed.

Lemma legacy_one_chain_step (Math_random : nat -> Q) (Math_PI : Q)
    (Math_cos Math_sin : Q -> Q) (e : event) (g : Game) :
  one_chain g ->
  one_chain (step Math_random Math_PI Math_cos Math_sin e g).
Proof.
  intro H. destruct e as [id rect|id timestamp now rect|n|now|now|].
  - (* the timeout fires *)
    cbn [step].
    destruct (existsb (fun t => Nat.eqb (fst t) id) (timeouts g)) eqn:E;
      [|exact H].
    destruct (legacy_spawnCircle Math_random Math_PI Math_cos Math_sin rect
                (clearTimeout (Some id) g)) as (c & k & Hs).
    unfold spawnNext_timeout. rewrite Hs. clear Hs.
    destruct g as [cs tid fid run psd lvl tl si sa lut tos frs tids fids els rc].
    unfold one_chain in *. cbn in H, E |- *.
    destruct (run && negb psd).
    + destruct H as [(i & -> & ->) (f & -> & ->)].
      cbn in E |- *. rewrite orb_false_r in E. rewrite E. cbn.
      split; eexists; split; reflexivity.
    + destruct H as [-> _]. discriminate.
  - (* a frame is served *)
    cbn [step].
    destruct (existsb (Nat.eqb id) (frames g)) eqn:E; [|exact H].
    unfold one_chain in H.
    destruct (gameRunning g) eqn:Hrun; cbn [andb] in H;
      [destruct (paused g) eqn:Hpaused; cbn [negb] in H|].
    + destruct H as [_ F]. rewrite F in E. discriminate.
    + rewrite legacy_update_running
        by (destruct g; cbn in *; assumption).
      destruct H as [(i & T & I) (f & F & A)].
      destruct g as [cs tid fid run psd lvl tl si sa lut tos frs tids fids els rc].
      cbn in Hrun, Hpaused, T, I, F, A, E. subst.
      cbn in E. rewrite orb_false_r in E. apply Nat.eqb_eq in E. subst f.
      cbv zeta. unfold one_chain.
      cbn [cancelAnimationFrame frames set_frames filter timeLeft
           lastUpdateTime circles].
      rewrite Nat.eqb_refl. cbn [negb].
      match goal with |- context [Qle_bool ?a 0] => destruct (Qle_bool a 0) end.
      * cbn. rewrite Nat.eqb_refl. cbn.
        split; eexists; split; reflexivity.
      * match goal with |- context [existsb ?p cs] => destruct (existsb p cs) end.
        -- cbn. rewrite Nat.eqb_refl. cbn. split; reflexivity.
        -- cbn. split; eexists; split; reflexivity.
    + destruct H as [_ F]. rewrite F in E. discriminate.
  - (* a click on a circle *)
    cbn [step]. unfold element_click.
    destruct (lookup_node n (circles g)) as [[i c]|]; [|exact H].
    unfold circle_click, removeCircle.
    destruct (negb (gameRunning g) || paused g); [exact H|].
    destruct (1 <? clicks c)%Z; [exact H|].
    destruct (indexOf c (circles g)); exact H.
  - (* the start button *)
    cbn [step]. unfold startBtn_click.
    destruct (gameRunning g) eqn:Hrun; [exact H|].
    unfold one_chain in H. rewrite Hrun in H. cbn [andb] in H.
    destruct H as [T F].
    destruct g as [cs tid fid run psd lvl tl si sa lut tos frs tids fids els rc].
    cbn in T, F. subst. unfold one_chain. cbn.
    split; eexists; split; reflexivity.
  - (* the pause button *)
    cbn [step]. unfold pauseBtn_click.
    destruct (gameRunning g) eqn:Hrun; cbn [negb]; [|exact H].
    unfold one_chain in H. rewrite Hrun in H. cbn [andb] in H.
    destruct g as [cs tid fid run psd lvl tl si sa lut tos frs tids fids els rc].
    cbn in Hrun, H. subst. destruct psd; cbn [negb] in H.
    + destruct H as [-> ->]. unfold one_chain. cbn.
      split; eexists; split; reflexivity.
    + destruct H as [(i & -> & ->) (f & -> & ->)]. unfold one_chain. cbn.
      rewrite !Nat.eqb_refl. cbn. split; reflexivity.
  - (* the restart button *)
    cbn [step]. unfold restartBtn_click.
    destruct (gameRunning g) eqn:Hrun; cbn [negb]; [|exact H].
    unfold one_chain in H. rewrite Hrun in H. cbn [andb] in H.
    destruct g as [cs tid fid run psd lvl tl si sa lut tos frs tids fids els rc].
    cbn in Hrun, H. subst. destruct psd; cbn [negb] in H.
    + destruct H as [-> ->]. unfold one_chain. cbn.
      destruct tid, fid; cbn; split; reflexivity.
    + destruct H as [(i & -> & ->) (f & -> & ->)]. unfold one_chain. cbn.
      rewrite !Nat.eqb_refl. cbn. split; reflexivity.
Qed.

(** ** The pace of the spawns *)

Ltac legacy_fields :=
  cbn [circles spawnTimeoutId animationFrameId gameRunning paused
       currentLevel timeLeft spawnInterval spawnAcceleration lastUpdateTime
       timeouts frames timeoutIds frameIds elements randomCalls
       set_circles set_spawnTimeoutId set_animationFrameId set_gameRunning
       set_paused set_currentLevel set_timeLeft set_spawnInterval
       set_spawnAcceleration set_lastUpdateTime set_timeouts set_frames
       set_timeoutIds set_frameIds set_elements set_randomCalls
       resetGame spawnNext setTimeout requestUpdate requestAnimationFrame
       levelComplete].

Lemma legacy_level_interval (level : Z) :
  (1 <= level)%Z ->
  0 < 2000 * 0.9 ^ (level + 1 - 1) /\ 2000 * 0.9 ^ (level + 1 - 1) <= 2000 /\
  ((level + 1 <= 19)%Z -> 300 <= 2000 * 0.9 ^ (level + 1 - 1)).
Proof.
  intro Hlevel. remember (Z.to_nat level) as k eqn:Ek.
  replace (level + 1 - 1)%Z with (Z.of_nat k) by lia.
  assert (Hlow : (level + 1 <= 19)%Z -> 0.9 ^ Z.of_nat 18 <= 0.9 ^ Z.of_nat k)
    by (intro; apply pow_antitone; lia).
  assert (E18 : 300 <= 2000 * 0.9 ^ Z.of_nat 18) by (vm_compute; discriminate).
  destruct (pow_unit k) as [H0 H1].
  generalize dependent (0.9 ^ Z.of_nat k). intros p Hlow H0 H1.
  generalize dependent (0.9 ^ Z.of_nat 18). intros p18 E18 Hlow.
  split; [nra|]. split; [nra|]. intro H. specialize (Hlow H). nra.
Qed.

Lemma legacy_paced_fields (g g' : Game) :
  currentLevel g' = currentLevel g ->
  spawnAcceleration g' = spawnAcceleration g ->
  spawnInterval g' = spawnInterval g ->
  paced g -> paced g'.
Proof. unfold paced. intros -> -> ->. exact (fun H => H). Qed.

Lemma legacy_paced_resetGame (g : Game) : paced (resetGame g).
Proof.
  unfold paced. legacy_fields.
  split; [lia|]. split; [reflexivity|]. split; [reflexivity|].
  split; discriminate.
Qed.

Lemma legacy_levelComplete_fields (now : Q) (g : Game) :
  currentLevel (levelComplete now g) = (currentLevel g + 1)%Z /\
  spawnAcceleration (levelComplete now g) = 0.9 /\
  spawnInterval (levelComplete now g)
  = 2000 * 0.9 ^ (currentLevel g + 1 - 1).
Proof.
  destruct g as [cs tid fid run psd lvl tl si sa lut tos frs tids fids els rc].
  destruct tid, fid; repeat split; reflexivity.
Qed.

Lemma legacy_paced_step (Math_random : nat -> Q) (Math_PI : Q)
    (Math_cos Math_sin : Q -> Q) (e : event) (g : Game) :
  paced g ->
  paced (step Math_random Math_PI Math_cos Math_sin e g).
Proof.
  intro H. destruct e as [id rect|id timestamp now rect|n|now|now|].
  - cbn [step].
    destruct (existsb (fun t => Nat.eqb (fst t) id) (timeouts g)); [|exact H].
    destruct (legacy_spawnCircle Math_random Math_PI Math_cos Math_sin rect
                (clearTimeout (Some id) g)) as (c & k & Hs).
    unfold spawnNext_timeout. rewrite Hs. clear Hs.
    unfold clearTimeout. unfold paced in *. legacy_fields.
    destruct H as (Hl & Ha & H0 & H1 & _). rewrite Ha.
    split; [exact Hl|]. split; [reflexivity|].
    assert (M := Q.le_max_r (spawnInterval g * 0.9) 300).
    assert (M' : Qmax (spawnInterval g * 0.9) 300 <= 2000)
      by (apply Q.max_lub; [nra|discriminate]).
    split; [lra|]. split; [exact M'|]. intros _. exact M.
  - cbn [step].
    destruct (existsb (Nat.eqb id) (frames g)); [|exact H].
    assert (H' : paced (cancelAnimationFrame (Some id) g))
      by (revert H; apply legacy_paced_fields; reflexivity).
    revert H'. generalize (cancelAnimationFrame (Some id) g). clear H g.
    intros g H. 
    destruct (gameRunning g) eqn:Hrun;
      [destruct (paused g) eqn:Hpaused|].
    + unfold update. rewrite Hrun, Hpaused. cbn [negb snd].
      revert H. apply legacy_paced_fields; reflexivity.
    + rewrite legacy_update_running by assumption. cbv zeta.
      match goal with |- context [Qle_bool ?a 0] => destruct (Qle_bool a 0) end.
      * cbn [snd]. destruct H as (Hl & Ha & _).
        destruct (legacy_level_interval (currentLevel g) Hl) as (I0 & I1 & I2).
        match goal with |- paced (levelComplete now ?h) =>
          destruct (legacy_levelComplete_fields now h) as (E1 & E2 & E3) end.
        unfold paced. rewrite E1, E2, E3. legacy_fields.
        split; [lia|]. split; [reflexivity|]. split; [exact I0|].
        split; [exact I1|exact I2].
      * match goal with |- context [existsb ?p ?l] => destruct (existsb p l) end;
          cbn [snd].
        -- revert H. apply legacy_paced_fields;
             destruct g as [cs tid fid run psd lvl tl si sa lut tos frs tids fids els rc];
             destruct tid, fid; reflexivity.
        -- revert H. apply legacy_paced_fields; reflexivity.
    + unfold update. rewrite Hrun. exact H.
  - cbn [step]. unfold element_click.
    destruct (lookup_node n (circles g)) as [[i c]|]; [|exact H].
    unfold circle_click, removeCircle.
    destruct (negb (gameRunning g) || paused g); [exact H|].
    destruct (1 <? clicks c)%Z; [exact H|].
    destruct (indexOf c (circles g)); exact H.
  - cbn [step]. unfold startBtn_click.
    destruct (gameRunning g); [exact H|].
    generalize (legacy_paced_resetGame g).
    apply legacy_paced_fields; reflexivity.
  - cbn [step]. unfold pauseBtn_click.
    destruct (negb (gameRunning g)); [exact H|].
    revert H. apply legacy_paced_fields;
      destruct g as [cs tid fid run psd lvl tl si sa lut tos frs tids fids els rc];
      destruct psd, tid, fid; reflexivity.
  - cbn [step]. unfold restartBtn_click.
    destruct (negb (gameRunning g)); [exact H|].
    match goal with |- paced (resetGame ?h) =>
      apply (legacy_paced_resetGame h) end.
Qed.

Lemma legacy_run_snoc (Math_random : nat -> Q) (Math_PI : Q)
    (Math_cos Math_sin : Q -> Q) (es : list event) (e : event) (g : Game) :
  run Math_random Math_PI Math_cos Math_sin (es ++ [e]) g
  = step Math_random Math_PI Math_cos Math_sin e
      (run Math_random Math_PI Math_cos Math_sin es g).
Proof. unfold run. rewrite fold_left_app. reflexivity. Qed.

(** X23.  The first version of the game never runs two spawn chains or
    two frame loops, and never loses track of one: from the load of the
    script on, whatever the events, the host holds exactly one pending
    timeout and one requested frame while the game runs and is not paused,
    and none otherwise; their ids are the ones in [spawnTimeoutId] and
    [animationFrameId], and the delay of the timeout is the current
    [spawnInterval]. *)
Theorem legacy_single_spawn_chain (Math_random : nat -> Q) (Math_PI : Q)
    (Math_cos Math_sin : Q -> Q) (es : list event) :
  let g := run Math_random Math_PI Math_cos Math_sin es initial in
  one_chain g /\
  (length (timeouts g) <= 1)%nat /\ (length (frames g) <= 1)%nat.
Proof.
  cbv zeta.
  assert (H : one_chain (run Math_random Math_PI Math_cos Math_sin es initial)).
  { induction es as [|e es IH] using rev_ind.
    - unfold one_chain. cbn. split; reflexivity.
    - rewrite legacy_run_snoc. apply legacy_one_chain_step. exact IH. }
  split; [exact H|].
  unfold one_chain in H.
  destruct (gameRunning _ && negb (paused _)).
  - destruct H as [(i & -> & _) (f & -> & _)]. cbn. lia.
  - destruct H as [-> ->]. cbn. lia.
Qed.

(** Nineteen levels completed in a row, each by one frame 31 s after the
    level began. *)
Lemma legacy_level_20 (Math_random : nat -> Q) (Math_PI : Q)
    (Math_cos Math_sin : Q -> Q) :
  let g := run Math_random Math_PI Math_cos Math_sin
             (click_start 0
              :: map (fun k => frame k (31000 * (inject_Z (Z.of_nat k) + 1))
                                 (31000 * (inject_Z (Z.of_nat k) + 1)) area)
                   (seq 0 19))
             initial in
  currentLevel g = 20%Z /\ spawnInterval g < 300 /\
  timeouts g = [(19%nat, spawnInterval g)].
Proof. vm_compute. repeat split. Qed.

(** X24.  In the first version of the game the pace of the spawns stays
    within bounds: from the load of the script on, whatever the events, the
    level is 1 or more, the acceleration is 0.9, and the spawn interval, as
    well as the delay of every pending timeout, is positive, at most 2000
    and, while the level is 19 or less, at least 300.  The bound 19 is
    sharp: level 20 can start with a timeout of less than 300 ms. *)
Theorem legacy_spawn_delay_bounds (Math_random : nat -> Q) (Math_PI : Q)
    (Math_cos Math_sin : Q -> Q) :
  (forall es : list event,
     let g := run Math_random Math_PI Math_cos Math_sin es initial in
     paced g /\ Forall (fun t => snd t = spawnInterval g) (timeouts g)) /\
  (exists es : list event,
     let g := run Math_random Math_PI Math_cos Math_sin es initial in
     currentLevel g = 20%Z /\ spawnInterval g < 300 /\
     exists id, timeouts g = [(id, spawnInterval g)]).
Proof.
  split.
  - intro es. cbv zeta. split.
    + induction es as [|e es IH] using rev_ind.
      * unfold paced. cbn. split; [lia|]. split; [reflexivity|].
        split; [reflexivity|]. split; discriminate.
      * rewrite legacy_run_snoc. apply legacy_paced_step. exact IH.
    + assert (H : one_chain
                    (run Math_random Math_PI Math_cos Math_sin es initial)).
      { induction es as [|e es IH] using rev_ind.
        - unfold one_chain. cbn. split; reflexivity.
        - rewrite legacy_run_snoc. apply legacy_one_chain_step. exact IH. }
      unfold one_chain in H.
      destruct (gameRunning _ && negb (paused _)).
      * destruct H as [(i & -> & _) _]. repeat constructor.
      * destruct H as [-> _]. constructor.
  - eexists. cbv zeta.
    destruct (legacy_level_20 Math_random Math_PI Math_cos Math_sin)
      as (H1 & H2 & H3).
    split; [exact H1|]. split; [exact H2|]. eexists. exact H3.
Qed.

(** X25.  A frame of the first version of the game, served while it runs,
    is not paused and the timer does not run out, takes every circle
    once: the game is over exactly when some circle, grown over the
    elapsed time, has reached half the smaller side of the play area, and
    then no circle, timeout or frame request is left; otherwise every
    circle of the array has grown, moved and bounced once, in place, the
    timer and the frame clock have advanced, and the next frame is
    requested. *)
Theorem legacy_frame_takes_every_circle_once (timestamp now : Q)
    (rect : Rect) (g : Game) :
  gameRunning g = true -> paused g = false ->
  let dt := (timestamp - lastUpdateTime g) / 1000 in
  0 < timeLeft g - dt ->
  let o := fst (update timestamp now rect g) in
  let g' := snd (update timestamp now rect g) in
  (o = game_over <->
   Exists (fun c => lethal_radius rect <= radius c + growth c * dt)
     (circles g)) /\
  (o = game_over -> gameRunning g' = false /\ circles g' = []) /\
  (o <> game_over ->
   o = frame_done /\
   circles g' = map (advance dt rect) (circles g) /\
   gameRunning g' = true /\ timeLeft g' = timeLeft g - dt /\
   lastUpdateTime g' = timestamp /\
   frames g' = frames g ++ [frameIds g] /\
   animationFrameId g' = Some (frameIds g)).
Proof.
  intros Hrun Hpaused dt Htime. cbv zeta.
  rewrite (legacy_update_running timestamp now rect g Hrun Hpaused).
  cbv zeta. fold dt.
  apply Qle_bool_false in Htime. rewrite Htime.
  destruct (existsb (breaches (lethal_radius rect) dt) (circles g)) eqn:E.
  - cbn [fst snd]. split; [|split].
    + split; [intros _|reflexivity].
      apply existsb_exists in E. destruct E as (c & Hin & Hc).
      apply Exists_exists. exists c. split; [exact Hin|].
      apply Qle_bool_iff. exact Hc.
    + intros _.
      destruct g as [cs tid fid run psd lvl tl si sa lut tos frs tids fids els rc].
      destruct tid, fid; split; reflexivity.
    + intro H. exfalso. apply H. reflexivity.
  - cbn [fst snd]. split; [|split].
    + split; [discriminate|]. intro H. exfalso.
      apply Exists_exists in H. destruct H as (c & Hin & Hc).
      assert (T : existsb (breaches (lethal_radius rect) dt) (circles g) = true).
      { apply existsb_exists. exists c. split; [exact Hin|].
        apply Qle_bool_iff. exact Hc. }
      congruence.
    + discriminate.
    + intros _. repeat apply conj; try reflexivity. exact Hrun.
Qed.

Lemma legacy_frame_takes_every_circle_once_witness :
  let g := one_circle in
  let dt := (1000 - lastUpdateTime g) / 1000 in
  let o := fst (update 1000 1000 area g) in
  let g' := snd (update 1000 1000 area g) in
  (o = game_over <->
   Exists (fun c => lethal_radius area <= radius c + growth c * dt)
     (circles g)) /\
  (o = game_over -> gameRunning g' = false /\ circles g' = []) /\
  (o <> game_over ->
   o = frame_done /\
   circles g' = map (advance dt area) (circles g) /\
   gameRunning g' = true /\ timeLeft g' = timeLeft g - dt /\
   lastUpdateTime g' = 1000 /\
   frames g' = frames g ++ [frameIds g] /\
   animationFrameId g' = Some (frameIds g)).
Proof.
  apply (legacy_frame_takes_every_circle_once 1000 1000 area one_circle);
    vm_compute; reflexivity.
Defined.

(** ** Clicks, the pause button and the spawn rules *)

Lemma legacy_lookup_node (l : list Circle) :
  forall (n i : nat) (c : Circle),
    lookup_node n l = Some (i, c) ->
    indexOf c l = Some i /\ nth_error l i = Some c /\ element c = n.
Proof.
  induction l as [|d l IH]; intros n i c H; simpl in H; [discriminate|].
  destruct (Nat.eqb (element d) n) eqn:E.
  - injection H as <- <-. apply Nat.eqb_eq in E.
    simpl. unfold same_object. rewrite Nat.eqb_refl. auto.
  - destruct (lookup_node n l) as [[j e]|] eqn:L; [|discriminate].
    injection H as <- <-.
    destruct (IH n j e L) as (H1 & H2 & H3).
    simpl. unfold same_object. rewrite H3, E, H1. auto.
Qed.

(** X26.  A click on the element of a circle, in the first version of
    the game: while the game runs and is not paused, a circle with more
    than one click left loses one, in place, and any other circle leaves
    the array, the circles after it moving up; nothing else changes.
    While the game is stopped or paused the click changes nothing. *)
Theorem legacy_click_pops_or_damages (n i : nat) (c : Circle) (g : Game) :
  lookup_node n (circles g) = Some (i, c) ->
  nth_error (circles g) i = Some c /\
  (gameRunning g = true -> paused g = false ->
   element_click n g
   = set_circles
       (if (1 <? clicks c)%Z
        then assign i (set_clicks (clicks c - 1) c) (circles g)
        else splice1 i (circles g)) g) /\
  (gameRunning g = false \/ paused g = true -> element_click n g = g).
Proof.
  intro H. destruct (legacy_lookup_node _ _ _ _ H) as (Hi & Hn & _).
  split; [exact Hn|]. unfold element_click. rewrite H. unfold circle_click.
  split.
  - intros -> ->. cbn [negb orb]. destruct (1 <? clicks c)%Z; [reflexivity|].
    unfold removeCircle. rewrite Hi. reflexivity.
  - intros [-> | ->]; [reflexivity|].
    rewrite orb_true_r. reflexivity.
Qed.

Lemma legacy_click_pops_or_damages_witness :
  let g := one_circle in
  let c := {| element := 0; x := 0.5 * (800 - 15 * 2) + 15;
              y := 0.5 * (600 - 15 * 2) + 15; radius := 15; growth := 20;
              clicks := 1; driftX := 0; driftY := 0 |} in
  nth_error (circles g) 0 = Some c /\
  (gameRunning g = true -> paused g = false ->
   element_click 0 g
   = set_circles
       (if (1 <? clicks c)%Z
        then assign 0 (set_clicks (clicks c - 1) c) (circles g)
        else splice1 0 (circles g)) g) /\
  (gameRunning g = false \/ paused g = true -> element_click 0 g = g).
Proof.
  apply (legacy_click_pops_or_damages 0 0
           {| element := 0; x := 0.5 * (800 - 15 * 2) + 15;
              y := 0.5 * (600 - 15 * 2) + 15; radius := 15; growth := 20;
              clicks := 1; driftX := 0; driftY := 0 |} one_circle).
  vm_compute. reflexivity.
Defined.

(** X27.  The pause button of the first version of the game, clicked
    twice on a game that runs with its one timeout and its one frame
    request pending: the first click leaves nothing pending; the second
    one finds the circles, the level, the timer and the spawn interval as
    they were, sets the frame clock to the time of the click, so that the
    pause is not counted, and arms a new timeout with the whole spawn
    interval: the time already waited for the next circle is lost. *)
Theorem legacy_pause_then_resume (now1 now2 : Q) (g : Game) :
  gameRunning g = true -> paused g = false -> one_chain g ->
  let p := pauseBtn_click now1 g in
  let r := pauseBtn_click now2 p in
  (gameRunning p = true /\ paused p = true /\
   timeouts p = [] /\ frames p = []) /\
  (gameRunning r = true /\ paused r = false /\
   circles r = circles g /\ currentLevel r = currentLevel g /\
   timeLeft r = timeLeft g /\ spawnInterval r = spawnInterval g /\
   lastUpdateTime r = now2 /\
   timeouts r = [(timeoutIds g, spawnInterval g)] /\
   spawnTimeoutId r = Some (timeoutIds g) /\
   frames r = [frameIds g] /\ animationFrameId r = Some (frameIds g)).
Proof.
  intros Hrun Hpaused H. unfold one_chain in H. rewrite Hrun, Hpaused in H.
  cbn [andb negb] in H. destruct H as [(i & T & I) (f & F & A)].
  destruct g as [cs tid fid run psd lvl tl si sa lut tos frs tids fids els rc].
  cbn in Hrun, Hpaused, T, I, F, A. subst.
  cbv zeta. unfold pauseBtn_click. cbn. rewrite !Nat.eqb_refl. cbn.
  repeat apply conj; reflexivity.
Qed.

Lemma legacy_pause_then_resume_witness :
  let g := one_circle in
  let p := pauseBtn_click 1500 g in
  let r := pauseBtn_click 2000 p in
  (gameRunning p = true /\ paused p = true /\
   timeouts p = [] /\ frames p = []) /\
  (gameRunning r = true /\ paused r = false /\
   circles r = circles g /\ currentLevel r = currentLevel g /\
   timeLeft r = timeLeft g /\ spawnInterval r = spawnInterval g /\
   lastUpdateTime r = 2000 /\
   timeouts r = [(timeoutIds g, spawnInterval g)] /\
   spawnTimeoutId r = Some (timeoutIds g) /\
   frames r = [frameIds g] /\ animationFrameId r = Some (frameIds g)).
Proof.
  apply (legacy_pause_then_resume 1500 2000 one_circle).
  - vm_compute. reflexivity.
  - vm_compute. reflexivity.
  - unfold one_chain. vm_compute. split; eexists; split; reflexivity.
Defined.

(** X28.  [spawnCircle] of the first version of the game follows the
    rules [spawn_rules]: whatever the host's generator returns, the circle
    it builds and the number of calls of [Math.random] it makes are the
    ones the rules give.  In particular a circle can be armored and drift
    at once, and the roll for drifting, made from level 3 on, always comes
    after the roll for armor. *)
Theorem legacy_spawn_follows_rules (Math_random : nat -> Q) (Math_PI : Q)
    (Math_cos Math_sin : Q -> Q) (rect : Rect) (level : Z) (elem n : nat) :
  spawnCircle_object Math_random Math_PI Math_cos Math_sin rect level elem n
  = spawn_rules Math_random Math_PI Math_cos Math_sin rect level elem n.
Proof.
  unfold spawnCircle_object, spawn_rules, bind, ret, and_then, chance, random,
    bind, ret, rolls.
  destruct (2 <=? level)%Z eqn:E2, (3 <=? level)%Z eqn:E3;
    try (apply Z.leb_le in E3; apply Z.leb_gt in E2; lia);
    cbn [andb];
    try replace (n + 2 + 1)%nat with (S (S (S n))) by lia;
    try replace (n + 2 + 0)%nat with (S (S n)) by lia;
    try replace (n + 2)%nat with (S (S n)) by lia;
    repeat match goal with
      | |- context [Qlt_bool ?a ?b] => destruct (Qlt_bool a b)
      end;
    cbn [set_clicks set_driftX set_driftY element x y radius growth clicks
         driftX driftY];
    repeat f_equal; lia.
Qed.

End LegacyGame.
